(** * pt_ana_ts: configuration loading and bar-chart classification

    A shallow embedding of the analytical parts of [pt_ana_ts.py]
    (PrimeTime report analysis): the rules-file loader [load_times_cfg],
    the clock-skew arithmetic and the bar-dataset selection of
    [report_summary], the driving-cell scan of [show_time_bar] and the
    classification walk of [get_time_bar_info].

    Conventions of the embedding:
    - a Python [str] is a [string]; characters are the ASCII range, which is
      all the rules grammar uses (a code above 127 is neither a space nor a
      cased letter here);
    - an open text file is the list of its lines, as iteration over the
      file object yields them;
    - a Python exception is a value of [exn], fallible code returns
      [result];
    - [print] appends a string to an output log;
    - Python's [re], [decimal] and [set] are interfaces (type classes); the
      development is parametric in them, and small instances are given for
      the concrete examples. *)

From Stdlib Require Import Floats ZArith Ascii String DecimalString DecimalNat.
From stdpp Require Import base option list gmap strings.

Local Open Scope string_scope.
Local Open Scope list_scope.

(** ** Python strings *)

Module PyStr.

(** [str.isspace] on one ASCII character: TAB, LF, VT, FF, CR, the four
    separators FS GS RS US, and the blank. *)
Definition is_space (c : ascii) : bool :=
  let n := nat_of_ascii c in
  (Nat.leb 9 n && Nat.leb n 13) || (Nat.leb 28 n && Nat.leb n 32).

Definition lower_char (c : ascii) : ascii :=
  let n := nat_of_ascii c in
  if Nat.leb 65 n && Nat.leb n 90 then ascii_of_nat (n + 32) else c.

(** [s.lower()] *)
Fixpoint lower (s : string) : string :=
  match s with
  | EmptyString => EmptyString
  | String c r => String (lower_char c) (lower r)
  end.

(** [s.lstrip()] *)
Fixpoint lstrip (s : string) : string :=
  match s with
  | EmptyString => EmptyString
  | String c r => if is_space c then lstrip r else s
  end.

(** [s.rstrip()] *)
Fixpoint rstrip (s : string) : string :=
  match s with
  | EmptyString => EmptyString
  | String c r =>
      match rstrip r with
      | EmptyString => if is_space c then EmptyString else String c EmptyString
      | r' => String c r'
      end
  end.

(** [s.strip()] *)
Definition strip (s : string) : string := rstrip (lstrip s).

(** [s.split(sep)] for a one-character separator: never the empty list. *)
Fixpoint split_on (sep : ascii) (s : string) : list string :=
  match s with
  | EmptyString => [EmptyString]
  | String c r =>
      if Ascii.eqb c sep then EmptyString :: split_on sep r
      else match split_on sep r with
           | h :: t => String c h :: t
           | [] => [String c EmptyString]
           end
  end.

(** [s.split()]: the maximal runs of non-space characters. *)
Fixpoint split_ws (s : string) : list string :=
  match s with
  | EmptyString => []
  | String c r =>
      if is_space c then split_ws r
      else match r with
           | EmptyString => [String c EmptyString]
           | String c' _ =>
               if is_space c' then String c EmptyString :: split_ws r
               else match split_ws r with
                    | h :: t => String c h :: t
                    | [] => [String c EmptyString]
                    end
           end
  end.

(** [s.count(c)] for a character [c] *)
Fixpoint count_char (c : ascii) (s : string) : nat :=
  match s with
  | EmptyString => 0
  | String c' r => (if Ascii.eqb c' c then 1 else 0) + count_char c r
  end.

(** [str(b)] for a [bool] *)
Definition str_of_bool (b : bool) : string :=
  if b then "True" else "False".

(** [str(n)] for a non-negative [int] *)
Definition str_of_nat (n : nat) : string :=
  NilEmpty.string_of_uint (Nat.to_uint n).

(** The line feed, which string literals cannot spell, and the double
    quote. *)
Definition LF : string := String (ascii_of_nat 10) EmptyString.
Definition DQUOTE : ascii := ascii_of_nat 34.

End PyStr.
Import PyStr.

(** ** Exceptions *)

Inductive exn : Type :=
| SyntaxError (msg : string)
| ValueError            (* unpacking a sequence of the wrong length *)
| IndexError            (* [l[0]] on an empty list *)
| KeyError (key : string)
| ReError               (* [re.error], from [re.compile] *)
| InvalidOperation.     (* [decimal.InvalidOperation], from [Decimal(s)] *)

Inductive result (A : Type) : Type :=
| Ok (a : A)
| Raise (e : exn).
Arguments Ok {A} a.
Arguments Raise {A} e.

#[global] Instance result_ret : MRet result := λ A a, Ok a.
#[global] Instance result_bind : MBind result := λ A B k m,
  match m with
  | Ok a => k a
  | Raise e => Raise e
  end.

#[global] Instance result_fmap : FMap result := λ A B f m,
  match m with
  | Ok a => Ok (f a)
  | Raise e => Raise e
  end.

(** The computation returns. *)
Definition is_ok {A} (m : result A) : bool :=
  match m with
  | Ok _ => true
  | Raise _ => false
  end.

Definition of_option {A} (o : option A) (e : exn) : result A :=
  match o with
  | Some a => Ok a
  | None => Raise e
  end.

(** [[f(x) for x in l]] where [f] may raise: the first exception wins and
    nothing is built. *)
Fixpoint map_result {A B} (f : A → result B) (l : list A) : result (list B) :=
  match l with
  | [] => Ok []
  | x :: r => y ← f x; ys ← map_result f r; Ok (y :: ys)
  end.

(** ** Insertion-ordered dictionaries

    The tables [pc] and [cc] are Python dicts that the classifier walks with
    [items()]: iteration follows the order in which keys were first
    inserted, and assigning to a key that is present replaces its value
    where it stands. *)

Module PyDict.

Definition t (V : Type) : Type := list (string * V).

Definition empty {V} : t V := [].

(** [d[k]] *)
Fixpoint get {V} (k : string) (d : t V) : option V :=
  match d with
  | [] => None
  | (k', v) :: r => if String.eqb k k' then Some v else get k r
  end.

(** [k in d] *)
Definition mem {V} (k : string) (d : t V) : bool :=
  match get k d with Some _ => true | None => false end.

(** [d[k] = v] *)
Fixpoint set {V} (k : string) (v : V) (d : t V) : t V :=
  match d with
  | [] => [(k, v)]
  | (k', v') :: r =>
      if String.eqb k k' then (k', v) :: r else (k', v') :: set k v r
  end.

(** [d.keys()] *)
Definition keys {V} (d : t V) : list string := map fst d.

(** [len(d)] *)
Definition len {V} (d : t V) : nat := length d.

End PyDict.

(** ** The Python libraries the program calls *)

(** [re]: [re_compile p] is [None] when [re.compile(p)] raises [re.error];
    [re_fullmatch r s] tells whether [r.fullmatch(s)] is a match object. *)
Class ReEngine : Type := {
  regex : Type;
  re_compile : string → option regex;
  re_fullmatch : regex → string → bool;
}.

(** [decimal]: [Decimal s] is [None] when the constructor raises
    [InvalidOperation]; [dec_neg d] is the test [d < 0]. *)
Class DecimalLib : Type := {
  decimal : Type;
  Decimal : string → option decimal;
  dec_neg : decimal → bool;
}.

(** [set] of strings. The layout of a Python set, and with it the order of
    its elements, follows the hashes of the run; the program only adds
    elements, tests membership and emptiness, and that is all an
    implementation has to provide. *)
Class PySet : Type := {
  pyset : Type;
  set_empty : pyset;
  set_add : string → pyset → pyset;
  set_mem : string → pyset → bool;
  set_is_empty : pyset → bool;
  set_mem_empty : ∀ x, set_mem x set_empty = false;
  set_mem_add : ∀ x y s, set_mem x (set_add y s) = String.eqb x y || set_mem x s;
  set_is_empty_spec : ∀ s, set_is_empty s = true ↔ ∀ x, set_mem x s = false;
}.

(** [s.update(l)], [s |= set(l)] *)
Definition set_update `{PySet} (l : list string) (s : pyset) : pyset :=
  fold_left (λ acc x, set_add x acc) l s.

(** [set(l)] *)
Definition set_of_list `{PySet} (l : list string) : pyset :=
  set_update l set_empty.

(** ** The configuration *)

(** The table [attr] of [load_times_cfg]: rules-file key, then the key of
    the option in the configuration and its default. *)
Definition attr : PyDict.t (string * bool) := [
  ("clock_check_enable",                       ("ckc_en",            false));
  ("delta_sum_enable",                         ("dts_en",            false));
  ("path_segment_enable",                      ("seg_en",            false));
  ("ckm_with_non_clock_cell",                  ("ckm_nock",          false));
  ("through_pin_on_report",                    ("thp_on_rpt",        false));
  ("slack_on_report",                          ("slk_on_rpt",        true));
  ("clock_uncertainty_on_report",              ("unce_on_rpt",       false));
  ("library_required_on_report",               ("lib_on_rpt",        false));
  ("datapath_level_on_report",                 ("dplv_on_rpt",       false));
  ("clock_skew_on_report",                     ("ck_skew_on_rpt",    true));
  ("segment_data_latency_on_report",           ("seg_dlat_on_rpt",   true));
  ("segment_data_delta_on_report",             ("seg_ddt_on_rpt",    true));
  ("segment_launch_clk_latency_on_report",     ("seg_llat_on_rpt",   true));
  ("segment_launch_clk_delta_on_report",       ("seg_ldt_on_rpt",    true));
  ("segment_capture_clk_latency_on_report",    ("seg_clat_on_rpt",   true));
  ("segment_capture_clk_delta_on_report",      ("seg_cdt_on_rpt",    true));
  ("segment_capture_clk_latency_include_crpr", ("seg_clat_inc_crpr", true))
].

Section Config.
Context `{RE : ReEngine} `{DL : DecimalLib} `{PS : PySet}.

(** A value of the [dc] dict: the catch-all pattern or a number. *)
Inductive dc_value : Type :=
| DcRe (r : regex)
| DcVal (d : decimal).

(** The dict [cons_cfg]: the seventeen options live under their own keys
    ([flags]), each table under its fixed key. *)
Record cons_cfg : Type := mk_cfg {
  flags : gmap string bool;
  bds : gmap string (list string);
  ckpc : pyset;
  ckpi : pyset;
  ckpr : list regex;
  hcd : gmap string (gmap string string);
  ckt : list (bool * regex);
  ckm : list regex;
  dpc : option string;
  pc : PyDict.t regex;
  cc : PyDict.t regex;
  dc : gmap string dc_value;
}.

Definition with_flags v c :=
  mk_cfg v (bds c) (ckpc c) (ckpi c) (ckpr c) (hcd c) (ckt c) (ckm c) (dpc c) (pc c) (cc c) (dc c).
Definition with_bds v c :=
  mk_cfg (flags c) v (ckpc c) (ckpi c) (ckpr c) (hcd c) (ckt c) (ckm c) (dpc c) (pc c) (cc c) (dc c).
Definition with_ckpc v c :=
  mk_cfg (flags c) (bds c) v (ckpi c) (ckpr c) (hcd c) (ckt c) (ckm c) (dpc c) (pc c) (cc c) (dc c).
Definition with_ckpi v c :=
  mk_cfg (flags c) (bds c) (ckpc c) v (ckpr c) (hcd c) (ckt c) (ckm c) (dpc c) (pc c) (cc c) (dc c).
Definition with_ckpr v c :=
  mk_cfg (flags c) (bds c) (ckpc c) (ckpi c) v (hcd c) (ckt c) (ckm c) (dpc c) (pc c) (cc c) (dc c).
Definition with_hcd v c :=
  mk_cfg (flags c) (bds c) (ckpc c) (ckpi c) (ckpr c) v (ckt c) (ckm c) (dpc c) (pc c) (cc c) (dc c).
Definition with_ckt v c :=
  mk_cfg (flags c) (bds c) (ckpc c) (ckpi c) (ckpr c) (hcd c) v (ckm c) (dpc c) (pc c) (cc c) (dc c).
Definition with_ckm v c :=
  mk_cfg (flags c) (bds c) (ckpc c) (ckpi c) (ckpr c) (hcd c) (ckt c) v (dpc c) (pc c) (cc c) (dc c).
Definition with_dpc v c :=
  mk_cfg (flags c) (bds c) (ckpc c) (ckpi c) (ckpr c) (hcd c) (ckt c) (ckm c) v (pc c) (cc c) (dc c).
Definition with_pc v c :=
  mk_cfg (flags c) (bds c) (ckpc c) (ckpi c) (ckpr c) (hcd c) (ckt c) (ckm c) (dpc c) v (cc c) (dc c).
Definition with_cc v c :=
  mk_cfg (flags c) (bds c) (ckpc c) (ckpi c) (ckpr c) (hcd c) (ckt c) (ckm c) (dpc c) (pc c) v (dc c).
Definition with_dc v c :=
  mk_cfg (flags c) (bds c) (ckpc c) (ckpi c) (ckpr c) (hcd c) (ckt c) (ckm c) (dpc c) (pc c) (cc c) v.

(** [cons_cfg = dict(attr.values()); cons_cfg.update({...})] *)
Definition default_cfg : cons_cfg := {|
  flags := fold_left (λ m kv, <[kv.1 := kv.2]> m) (map snd attr) ∅;
  bds := ∅; ckpc := set_empty; ckpi := set_empty; ckpr := [];
  hcd := ∅; ckt := []; ckm := []; dpc := None;
  pc := PyDict.empty; cc := PyDict.empty; dc := ∅;
|}.

(** [re.compile(p)] inside the [try] block *)
Definition compile (p : string) : result regex :=
  of_option (re_compile p) ReError.

(** The body of the [try] block after [key] and [value] are stripped:
    the chain of handlers, lines 83 to 132. A key that no branch names
    falls through the chain, which has no final [else]. *)
Definition handle (key value : string) (c : cons_cfg) : result cons_cfg :=
  match PyDict.get key attr with
  | Some (name, d) =>
      let change_value := lower (str_of_bool (negb d)) in
      if String.eqb (lower value) change_value
      then Ok (with_flags (<[name := negb d]> (flags c)) c)
      else Ok (with_flags (<[name := d]> (flags c)) c)
  | None =>
  if String.eqb key "bds" then
    match split_ws value with
    | tag :: pat => Ok (with_bds (<[tag := pat]> (bds c)) c)
    | [] => Raise ValueError
    end
  else if String.eqb key "ckt" then
    match split_ws value with
    | [tag; pat] =>
        pat_re ← compile pat;
        let t := lower tag in
        if String.eqb t "y" then Ok (with_ckt (ckt c ++ [(true, pat_re)]) c)
        else if String.eqb t "n" then Ok (with_ckt (ckt c ++ [(false, pat_re)]) c)
        else Raise (SyntaxError "")
    | _ => Raise ValueError
    end
  else if String.eqb key "ckp" then
    match split_ws value with
    | type_ :: pat =>
        if String.eqb type_ "c" then Ok (with_ckpc (set_update pat (ckpc c)) c)
        else if String.eqb type_ "i" then Ok (with_ckpi (set_update pat (ckpi c)) c)
        else if String.eqb type_ "r" then
          rs ← map_result compile pat;
          Ok (with_ckpr (ckpr c ++ rs) c)
        else Raise (SyntaxError "")
    | [] => Raise ValueError
    end
  else if String.eqb key "ckm" then
    match split_ws value with
    | p :: _ => pat ← compile p; Ok (with_ckm (ckm c ++ [pat]) c)
    | [] => Raise IndexError
    end
  else if String.eqb key "dpc" then
    Ok (with_dpc (Some value) c)
  else if String.eqb key "pc" then
    match split_ws value with
    | [tag; pat] => r ← compile pat; Ok (with_pc (PyDict.set tag r (pc c)) c)
    | _ => Raise ValueError
    end
  else if String.eqb key "cc" then
    match split_ws value with
    | [tag; pat] => r ← compile pat; Ok (with_cc (PyDict.set tag r (cc c)) c)
    | _ => Raise ValueError
    end
  else if String.eqb key "dc" then
    match split_ws value with
    | v1 :: v2 :: _ =>
        if String.eqb v1 "r" then
          r ← compile v2; Ok (with_dc (<["re" := DcRe r]> (dc c)) c)
        else
          d ← of_option (Decimal v1) InvalidOperation;
          Ok (with_dc (<[v2 := DcVal d]> (dc c)) c)
    | _ => Raise ValueError
    end
  else if String.eqb key "hcd" then
    let toks := split_on DQUOTE value in
    fields ← match toks with
             | t0 :: t1 :: _ => Ok (split_ws t0 ++ [t1])
             | [t0] => Ok (split_ws t0)
             | [] => Raise IndexError
             end;
    match fields with
    | [type_; pi; po; tag] =>
        let hcd_dict := default ∅ (hcd c !! type_) in
        Ok (with_hcd (<[type_ := <[pi +:+ ":" +:+ po := tag]> hcd_dict]> (hcd c)) c)
    | _ => Raise ValueError
    end
  else Ok c
  end.

(** [key, value = line.split(':')] and the two [strip] calls. *)
Definition split_key_value (line : string) : result (string * string) :=
  match split_on ":" line with
  | [key; value] => Ok (strip key, strip value)
  | _ => Raise ValueError
  end.

(** The whole [try] block for one line that is not empty. *)
Definition process_line (line : string) (c : cons_cfg) : result cons_cfg :=
  kv ← split_key_value line;
  handle kv.1 kv.2 c.

(** [line.split('#')[0].strip()] *)
Definition strip_comment (line : string) : string :=
  strip (hd "" (split_on "#" line)).

(** The message of the error raised by the [except] clause. *)
Definition syntax_error_msg (fno : nat) : string :=
  "config syntax error (ln:" +:+ str_of_nat fno +:+ ")".

(** [for fno, line in enumerate(fp, 1)]: the loop from line number [fno]
    on. Whatever the [try] block raises is an [Exception], and the
    [except] clause replaces it by a [SyntaxError] with the line number. *)
Fixpoint load_lines (fno : nat) (fp : list string) (c : cons_cfg)
  : result cons_cfg :=
  match fp with
  | [] => Ok c
  | raw :: rest =>
      let line := strip_comment raw in
      if String.eqb line "" then load_lines (S fno) rest c
      else match process_line line c with
           | Ok c' => load_lines (S fno) rest c'
           | Raise _ => Raise (SyntaxError (syntax_error_msg fno))
           end
  end.

Definition dpc_info_msg : string :=
  " [INFO] Specific group for default path isn't existed, ignore." +:+ LF.

(** Lines 136 to 139: the default tag must be a key of [pc]. *)
Definition check_dpc (c : cons_cfg) : cons_cfg * list string :=
  match dpc c with
  | Some t =>
      if negb (PyDict.mem t (pc c)) then (with_dpc None c, [dpc_info_msg])
      else (c, [])
  | None => (c, [])
  end.

(** [load_times_cfg(cfg_fp)]: [cfg_fp] is [None] or the lines of the
    file. The result is the configuration and what was printed. *)
Definition load_times_cfg (cfg_fp : option (list string))
  : result (cons_cfg * list string) :=
  match cfg_fp with
  | None => Ok (default_cfg, [])
  | Some fp =>
      c ← load_lines 1 fp default_cfg;
      Ok (check_dpc c)
  end.

(** *** The grammar of the rules file

    What section 4.1 of the specification asks of a line, stated on the
    tokens of the value; [handle] is compared with it below. *)

(** The keys of the handlers, besides the seventeen options of [attr]. *)
Definition handler_keys : list string :=
  ["bds"; "ckt"; "ckp"; "ckm"; "dpc"; "pc"; "cc"; "dc"; "hcd"].

Definition recognized (key : string) : bool :=
  PyDict.mem key attr || existsb (String.eqb key) handler_keys.

Definition compiles (p : string) : bool :=
  match re_compile p with Some _ => true | None => false end.

Definition is_decimal (v : string) : bool :=
  match Decimal v with Some _ => true | None => false end.

(** The value is well formed for the handler of [key]:
    - an option takes any value;
    - [bds]: a tag, then codes;
    - [ckt]: a tag [y] or [n] in either case, and one pattern;
    - [ckp]: a type [c], [i] or [r], then names or patterns;
    - [ckm]: a pattern first;
    - [dpc]: any value;
    - [pc], [cc]: a tag and one pattern;
    - [dc]: [r] and a pattern, or a number and a cell name;
    - [hcd]: type, two pins and a tag, the tag between double quotes or
      as a fourth token. *)
Definition value_ok (key value : string) : bool :=
  let toks := split_ws value in
  if PyDict.mem key attr then true
  else if String.eqb key "bds" then
    match toks with _ :: _ => true | [] => false end
  else if String.eqb key "ckt" then
    match toks with
    | [tag; pat] =>
        (String.eqb (lower tag) "y" || String.eqb (lower tag) "n") && compiles pat
    | _ => false
    end
  else if String.eqb key "ckp" then
    match toks with
    | type_ :: pat =>
        String.eqb type_ "c" || String.eqb type_ "i"
        || (String.eqb type_ "r" && forallb compiles pat)
    | [] => false
    end
  else if String.eqb key "ckm" then
    match toks with p :: _ => compiles p | [] => false end
  else if String.eqb key "dpc" then true
  else if String.eqb key "pc" || String.eqb key "cc" then
    match toks with [_; pat] => compiles pat | _ => false end
  else if String.eqb key "dc" then
    match toks with
    | v1 :: v2 :: _ => if String.eqb v1 "r" then compiles v2 else is_decimal v1
    | _ => false
    end
  else if String.eqb key "hcd" then
    match split_on DQUOTE value with
    | t0 :: _ :: _ => Nat.eqb (length (split_ws t0)) 3
    | [t0] => Nat.eqb (length (split_ws t0)) 4
    | [] => false
    end
  else true.

(** *** Declarations, in the order of the file *)

(** The rule that the stripped pair [k], [v] declares for the table [key]
    ([pc] or [cc]): a tag and a compiled pattern. *)
Definition rule_of (key k v : string) : option (string * regex) :=
  if String.eqb k key then
    match split_ws v with
    | [tag; pat] => r ← re_compile pat; Some (tag, r)
    | _ => None
    end
  else None.

(** The rule that it declares for the list [ckt]. *)
Definition ckt_rule_of (k v : string) : option (bool * regex) :=
  if String.eqb k "ckt" then
    match split_ws v with
    | [tag; pat] =>
        r ← re_compile pat;
        if String.eqb (lower tag) "y" then Some (true, r)
        else if String.eqb (lower tag) "n" then Some (false, r)
        else None
    | _ => None
    end
  else None.

(** The rules that a line of the file declares. *)
Definition table_decl (key raw : string) : option (string * regex) :=
  match split_on ":" (strip_comment raw) with
  | [k; v] => rule_of key (strip k) (strip v)
  | _ => None
  end.

Definition ckt_decl (raw : string) : option (bool * regex) :=
  match split_on ":" (strip_comment raw) with
  | [k; v] => ckt_rule_of (strip k) (strip v)
  | _ => None
  end.

(** The rules of a file for one table, first declared first. *)
Definition table_decls (key : string) (fp : list string) : list (string * regex) :=
  omap (table_decl key) fp.

Definition ckt_decls (fp : list string) : list (bool * regex) :=
  omap ckt_decl fp.

(** The dict that successive assignments [d[tag] = pattern] build. *)
Definition table_of {V} (decls : list (string * V)) : PyDict.t V :=
  fold_left (λ d e, PyDict.set e.1 e.2 d) decls PyDict.empty.

(** What a table holds after a line. *)
Definition table_after {V} (o : option (string * V)) (d : PyDict.t V) : PyDict.t V :=
  match o with
  | Some e => PyDict.set e.1 e.2 d
  | None => d
  end.

(** The tags of a list of declarations, each at its first occurrence. *)
Definition first_tags (tags : list string) : list string :=
  fold_left (λ acc t, if existsb (String.eqb t) acc then acc else acc ++ [t]) tags [].

(** The value of the last declaration of [tag]. *)
Definition last_decl {V} (tag : string) (decls : list (string * V)) : option V :=
  PyDict.get tag (rev decls).

(** A line, once its comment is removed, is well formed: one colon, and
    a value that suits the key. *)
Definition line_ok (line : string) : bool :=
  match split_on ":" line with
  | [key; value] => value_ok (strip key) (strip value)
  | _ => false
  end.

End Config.

(** ** Paths and the report summary *)

(** The numbers of a path ([float], or [Decimal]): only subtraction is
    needed here. *)
Class PyNumber : Type := {
  number : Type;
  num_sub : number → number → number;
}.

Module Palette.
Definition bar_default : string := "#caccd1".
Definition bar : list string := [
  "#84bd00"; "#efdf00"; "#fe5000"; "#e4002b";
  "#da1884"; "#a51890"; "#0077c8"; "#008eaa";
  "#74d2e7"; "#48a9c5"; "#0085ad"; "#8db9ca";
  "#4298b5"; "#005670"; "#004182"; "#44712e";
  "#915907"; "#b24020"; "#dce6f1"; "#d7ebce";
  "#fce2ba"; "#fadfd8"; "#0a66c2"; "#83941f";
  "#e7a33e"; "#f5987e"
].
End Palette.

Section Report.
Context `{RE : ReEngine} `{DL : DecimalLib} `{PS : PySet} `{PN : PyNumber}.

(** The attributes of a [Pin] that this file reads. *)
Record Pin : Type := mk_pin {
  name : string;
  cell : string;
  drv : decimal;
  ln : nat;
}.

(** The attributes of a [TimePath] that this file reads for the skew and
    for the bar charts. *)
Record TimePath : Type := mk_path {
  lpath : list Pin;
  cpath : list Pin;
  spin : option nat;
  llat : number;
  clat : number;
  crpr : number;
}.

(** [report_summary], line 249. The value is printed under "clock skew:"
    and written to the [skew] column of the CSV file. *)
Definition skew (path : TimePath) : number :=
  num_sub (num_sub (llat path) (clat path)) (crpr path).

Definition bars_warning_msg : string :=
  " [WARNING] The -bars option cannot find in the configuration, ignore." +:+ LF.

(** [report_summary], lines 415 to 426: the data types of the bar charts,
    from the options [-bars] ([bar_set]) and [-bard] ([bar_dtype]). *)
Definition select_bar_dtype (c : cons_cfg)
    (bar_set : option string) (bar_dtype_arg : option (list string))
  : pyset * list string :=
  let bar_dtype := set_empty in
  let '(bar_dtype, out) :=
    match bar_set with
    | Some tag =>
        match negb (Nat.eqb (size (bds c)) 0), bds c !! tag with
        | true, Some pat => (set_update pat bar_dtype, [])
        | _, _ => (bar_dtype, [bars_warning_msg])
        end
    | None => (bar_dtype, [])
    end in
  let bar_dtype :=
    match bar_dtype_arg with
    | Some [] => set_update ["p"; "c"; "t"; "d"; "i"; "ct"] bar_dtype
    | Some l => set_update l bar_dtype
    | None => bar_dtype
    end in
  let bar_dtype :=
    if set_mem "ct" bar_dtype then set_add "i" bar_dtype else bar_dtype in
  (bar_dtype, out).

(** Lines 429 to 434: the path types of the bar charts. *)
Definition select_bar_ptype (bar_ptype_arg : option (list string)) : pyset :=
  match bar_ptype_arg with
  | None | Some [] => set_of_list ["f"; "d"]
  | Some l =>
      let bar_ptype := set_of_list l in
      if set_mem "f" bar_ptype then set_add "d" bar_ptype else bar_ptype
  end.

(** The end of [report_summary], from line 414: [Some] of the two sets
    when [show_time_bar] is called, and what was printed. *)
Definition bar_chart_request (c : cons_cfg) (bar_set : option string)
    (bar_dtype_arg bar_ptype_arg : option (list string))
  : option (pyset * pyset) * list string :=
  let '(bar_dtype, out) := select_bar_dtype c bar_set bar_dtype_arg in
  if negb (set_is_empty bar_dtype)
  then (Some (bar_dtype, select_bar_ptype bar_ptype_arg), out)
  else (None, out).

(** ** [show_time_bar]: the driving-cell series *)

Definition unknown_drv_msg (p : Pin) : string :=
  "WARNING: Unknown driving cell. (" +:+ cell p +:+ ", ln:"
    +:+ str_of_nat (ln p) +:+ ")".

(** What one cell prints in the two loops. *)
Definition drv_warning (p : Pin) : list string :=
  if dec_neg (drv p) then [unknown_drv_msg p] else [].

(** Lines 503 to 516: the loop over [path.lpath], from index [cid]. The
    result is [ddata] ([None] after the [break]), the entries appended to
    [db_dict['dc']] and the output. *)
Fixpoint dc_launch_loop (bar_ptype : pyset) (spin_ : option nat) (cid : nat)
    (cells : list Pin) (data : list decimal)
    (db : list (string * list decimal)) (out : list string)
  : option (list decimal) * list (string * list decimal) * list string :=
  match cells with
  | [] => (Some data, db, out)
  | p :: rest =>
      let data := data ++ [drv p] in
      let out := out ++ drv_warning p in
      if bool_decide (spin_ = Some cid) then
        let db := if set_mem "l" bar_ptype
                  then db ++ [("Launch Cell Type", data)] else db in
        if negb (set_mem "d" bar_ptype) then (None, db, out)
        else
          let data := if negb (set_mem "f" bar_ptype) then [drv p] else data in
          dc_launch_loop bar_ptype spin_ (S cid) rest data db out
      else dc_launch_loop bar_ptype spin_ (S cid) rest data db out
  end.

(** Lines 499 to 530, under [is_dc]: the series [db_dict['dc']] and the
    warnings printed on the way. *)
Definition dc_bar_data (bar_ptype : pyset) (path : TimePath)
  : list (string * list decimal) * list string :=
  let '(ddata, db, out) :=
    dc_launch_loop bar_ptype (spin path) 0 (lpath path) [] [] [] in
  let '(db, out) :=
    if set_mem "c" bar_ptype
    then (db ++ [("Capture Cell Type", map drv (cpath path))],
          out ++ concat (map drv_warning (cpath path)))
    else (db, out) in
  let db := match ddata with
            | Some d => db ++ [("Path Cell Type", d)]
            | None => db
            end in
  (db, out).

(** The number of cells of the launch path that the first loop visits: all
    of them, unless the loop breaks at the startpoint clock pin. *)
Definition launch_scanned (bar_ptype : pyset) (path : TimePath) : nat :=
  match spin path with
  | Some i =>
      if negb (set_mem "d" bar_ptype) && Nat.ltb i (length (lpath path))
      then S i else length (lpath path)
  | None => length (lpath path)
  end.

(** ** [get_time_bar_info] *)

(** The argument [aid]: ['name'] or ['cell'], the two values of the
    callers. *)
Inductive attr_id : Type := AidName | AidCell.

(** [cell.__dict__[aid]] *)
Definition pin_attr (aid : attr_id) (p : Pin) : string :=
  match aid with
  | AidName => name p
  | AidCell => cell p
  end.

(** Lines 815 to 818: the first entry of [seg_dict.items()] whose pattern
    full-matches. *)
Fixpoint first_match (seg_dict : PyDict.t regex) (s : string) : option string :=
  match seg_dict with
  | [] => None
  | (key, ps_re) :: rest =>
      if re_fullmatch ps_re s then Some key else first_match rest s
  end.

(** No entry of [l] full-matches [s]. *)
Definition none_matches (l : PyDict.t regex) (s : string) : Prop :=
  Forall (λ e, re_fullmatch e.2 s = false) l.

(** Lines 810 to 819: the tag after the cell with attribute [s] is seen
    under the tag [tag]. *)
Definition next_tag (seg_dict : PyDict.t regex) (init_tag tag : option string)
    (s : string) : result (option string) :=
  if Nat.eqb (PyDict.len seg_dict) 0 then Ok tag
  else
    rematch ← match tag with
              | None => Ok true
              | Some t =>
                  r ← of_option (PyDict.get t seg_dict) (KeyError t);
                  Ok (negb (re_fullmatch r s))
              end;
    if rematch : bool then
      let new_tag := match first_match seg_dict s with
                     | Some key => Some key
                     | None => init_tag
                     end in
      Ok new_tag
    else Ok tag.

(** The variables of the loop over one path. *)
Record lv_state : Type := mk_lv {
  tag : option string;
  bar_lg_path : PyDict.t string;
  lv_ce_path : list Pin;
  lv_c_path : list string;
  lv_ha_path : list string;
  lv_ec_path : list string;
  did : option nat;
  dsp : option nat;
}.

Record bar_info : Type := mk_bar_info {
  bi_ce : list (list Pin);
  bi_c : list (list string);
  bi_ha : list (list string);
  bi_ec : list (list string);
  bi_lg : list (PyDict.t string);
  bi_did : option nat;
  bi_dsp : option nat;
}.

Section GetTimeBarInfo.
Variables (aid : attr_id) (default_tag : string) (seg_dict : PyDict.t regex)
          (bar_ptype : pyset) (path : TimePath).

(** Lines 776 to 783. *)
Definition default_color : string :=
  if Nat.eqb (PyDict.len seg_dict) 0
  then match aid with AidCell => Palette.bar_default | AidName => nth 0 Palette.bar "" end
  else Palette.bar_default.

Definition init_tag : option string :=
  if Nat.eqb (PyDict.len seg_dict) 0 then None
  else if PyDict.mem default_tag seg_dict then Some default_tag else None.

Definition bar_palette : PyDict.t string :=
  if Nat.eqb (PyDict.len seg_dict) 0 then PyDict.empty
  else
    fold_left
      (λ acc ik, PyDict.set ik.2 (nth (ik.1 mod length Palette.bar) Palette.bar "") acc)
      (imap pair (PyDict.keys seg_dict)) PyDict.empty.

(** Lines 801 to 804 (and 824 to 827). *)
Definition init_bar_lg_path : PyDict.t string :=
  match init_tag with
  | None => [(default_tag, default_color)]
  | Some _ => PyDict.empty
  end.

(** One iteration of the loop of line 808; [n_ha] is
    [len(bar_info['ha'])]. *)
Definition bar_cell_step (type_ : string) (n_ha : nat) (cid : nat) (p : Pin)
    (st : lv_state) : result lv_state :=
  (* check path classification tag *)
  tg ← next_tag seg_dict init_tag (tag st) (pin_attr aid p);
  let at_spin := bool_decide (spin path = Some cid) in
  let is_d := String.eqb type_ "d" in
  (* reset if path type is data only *)
  let st :=
    if at_spin && is_d && negb (set_mem "f" bar_ptype)
    then mk_lv tg init_bar_lg_path [] [] [] [] (did st) (dsp st)
    else mk_lv tg (bar_lg_path st) (lv_ce_path st) (lv_c_path st)
               (lv_ha_path st) (lv_ec_path st) (did st) (dsp st) in
  (* add tag to bar legend *)
  let key := default default_tag tg in
  lg ← (if PyDict.mem key (bar_lg_path st) then Ok (bar_lg_path st)
        else col ← of_option (PyDict.get key bar_palette) (KeyError key);
             Ok (PyDict.set key col (bar_lg_path st)));
  (* add bar setting for cell *)
  col ← of_option (PyDict.get key lg) (KeyError key);
  if at_spin && is_d
  then Ok (mk_lv tg lg (lv_ce_path st ++ [p]) (lv_c_path st ++ [col])
                 (lv_ha_path st ++ ["/"]) (lv_ec_path st ++ ["b"])
                 (Some n_ha) (Some (length (lv_ha_path st))))
  else Ok (mk_lv tg lg (lv_ce_path st ++ [p]) (lv_c_path st ++ [col])
                 (lv_ha_path st ++ [""]) (lv_ec_path st ++ ["k"])
                 (did st) (dsp st)).

(** [for cid, cell in enumerate(s_path)], from index [cid]. *)
Fixpoint bar_path_loop (type_ : string) (n_ha : nat) (cid : nat)
    (s_path : list Pin) (st : lv_state) : result lv_state :=
  match s_path with
  | [] => Ok st
  | p :: rest =>
      st' ← bar_cell_step type_ n_ha cid p st;
      bar_path_loop type_ n_ha (S cid) rest st'
  end.

(** Lines 848 to 854. *)
Definition merged_legend (lg : PyDict.t string) : PyDict.t string :=
  if Nat.eqb (PyDict.len seg_dict) 0 then lg
  else
    fold_left
      (λ m key, match PyDict.get key lg with
                | Some col => PyDict.set key col m
                | None => m
                end)
      (PyDict.keys seg_dict) [(default_tag, default_color)].

(** The body of [for type_ in ('l', 'c', 'd')]. *)
Definition bar_type_step (type_ : string) (info : bar_info) : result bar_info :=
  if set_mem type_ bar_ptype then
    let s_path := if String.eqb type_ "c" then cpath path else lpath path in
    st ← bar_path_loop type_ (length (bi_ha info)) 0 s_path
           (mk_lv init_tag init_bar_lg_path [] [] [] [] (bi_did info) (bi_dsp info));
    Ok (mk_bar_info (bi_ce info ++ [lv_ce_path st]) (bi_c info ++ [lv_c_path st])
                    (bi_ha info ++ [lv_ha_path st]) (bi_ec info ++ [lv_ec_path st])
                    (bi_lg info ++ [merged_legend (bar_lg_path st)])
                    (did st) (dsp st))
  else Ok info.

Definition get_time_bar_info : result bar_info :=
  info ← bar_type_step "l" (mk_bar_info [] [] [] [] [] None None);
  info ← bar_type_step "c" info;
  bar_type_step "d" info.

(** The tags under which the cells with attributes [attrs] are drawn, one
    after the other, starting under [tg]: the values of [tag] after
    line 819 in successive iterations. *)
Fixpoint walk_tags (tg : option string) (attrs : list string)
  : result (list (option string)) :=
  match attrs with
  | [] => Ok []
  | s :: rest =>
      tg' ← next_tag seg_dict init_tag tg s;
      tgs ← walk_tags tg' rest;
      Ok (tg' :: tgs)
  end.

End GetTimeBarInfo.

(** What the loop over a path maintains: the tag is a key of the table,
    there is a tag whenever there is an initial tag, and the legend holds
    the default tag when there is none. *)
Definition walk_inv (default_tag : string) (seg : PyDict.t regex)
    (st : lv_state) : Prop :=
  (∀ t, tag st = Some t → PyDict.mem t seg = true) ∧
  (tag st = None → init_tag default_tag seg = None) ∧
  (init_tag default_tag seg = None →
     PyDict.mem default_tag (bar_lg_path st) = true).

End Report.

(** ** Two runs of the program

    The same [re] and [decimal], and two implementations of [set] (two
    hash seeds). *)

Section TwoRuns.
Context `{RE : ReEngine} `{DL : DecimalLib} {PS1 PS2 : PySet}.

(** [s1 == s2] for two sets: the same elements. *)
Definition set_equiv (s1 : @pyset PS1) (s2 : @pyset PS2) : Prop :=
  ∀ x, set_mem x s1 = set_mem x s2.

(** [c1 == c2] for two configurations. *)
Definition cfg_equiv (c1 : @cons_cfg RE DL PS1) (c2 : @cons_cfg RE DL PS2) : Prop :=
  flags c1 = flags c2 ∧ bds c1 = bds c2 ∧
  set_equiv (ckpc c1) (ckpc c2) ∧ set_equiv (ckpi c1) (ckpi c2) ∧
  ckpr c1 = ckpr c2 ∧ hcd c1 = hcd c2 ∧ ckt c1 = ckt c2 ∧ ckm c1 = ckm c2 ∧
  dpc c1 = dpc c2 ∧ pc c1 = pc c2 ∧ cc c1 = cc c2 ∧ dc c1 = dc c2.

(** The two runs end alike: with related values, or with the same
    exception. *)
Definition result_equiv {A B} (R : A → B → Prop)
    (m1 : result A) (m2 : result B) : Prop :=
  match m1, m2 with
  | Ok a, Ok b => R a b
  | Raise e1, Raise e2 => e1 = e2
  | _, _ => False
  end.

(** The decisions that the two configurations give for names: membership
    in the two sets of clock pins, the first match in [pc] and in [cc], and
    the tags of the walk of [get_time_bar_info] over any sequence of
    names. *)
Definition same_decisions (c1 : @cons_cfg RE DL PS1) (c2 : @cons_cfg RE DL PS2)
  : Prop :=
  (∀ n, set_mem n (ckpc c1) = set_mem n (ckpc c2)) ∧
  (∀ n, set_mem n (ckpi c1) = set_mem n (ckpi c2)) ∧
  (∀ n, map (λ r, re_fullmatch r n) (ckpr c1) = map (λ r, re_fullmatch r n) (ckpr c2)) ∧
  (∀ n, first_match (pc c1) n = first_match (pc c2) n) ∧
  (∀ n, first_match (cc c1) n = first_match (cc c2) n) ∧
  (∀ default_tag names,
     walk_tags default_tag (pc c1) (init_tag default_tag (pc c1)) names
     = walk_tags default_tag (pc c2) (init_tag default_tag (pc c2)) names) ∧
  (∀ default_tag names,
     walk_tags default_tag (cc c1) (init_tag default_tag (cc c1)) names
     = walk_tags default_tag (cc c2) (init_tag default_tag (cc c2)) names).

End TwoRuns.


(** ** Instances of the library interfaces

    Small implementations, used to run the model on concrete rules files
    and paths. *)

(** A fragment of Python's regular expressions: a pattern is a sequence of
    literal characters and dots, each of which a star may follow. The other
    special characters are outside the fragment and are refused; on the
    fragment, compiling and full-matching agree with [re]. *)
Module MiniRe.

Inductive atom : Type :=
| Lit (c : ascii)
| Any.

Definition t : Type := list (atom * bool).

Definition is_special (c : ascii) : bool :=
  existsb (Ascii.eqb c)
    (list_ascii_of_string "\^$*+?{}[]()|").

Definition atom_of (c : ascii) : atom :=
  if Ascii.eqb c "." then Any else Lit c.

Fixpoint parse (s : string) : option t :=
  match s with
  | EmptyString => Some []
  | String c r =>
      if is_special c then None
      else match r with
           | String "*"%char r' => cons (atom_of c, true) <$> parse r'
           | _ => cons (atom_of c, false) <$> parse r
           end
  end.

(** The dot matches every character but the line feed. *)
Definition atom_matches (a : atom) (c : ascii) : bool :=
  match a with
  | Lit c' => Ascii.eqb c c'
  | Any => negb (Ascii.eqb c (ascii_of_nat 10))
  end.

Fixpoint fullmatch (r : t) (s : string) : bool :=
  match r with
  | [] => String.eqb s ""
  | (a, false) :: r' =>
      match s with
      | String c s' => atom_matches a c && fullmatch r' s'
      | EmptyString => false
      end
  | (a, true) :: r' =>
      (fix star (s : string) : bool :=
         fullmatch r' s ||
         match s with
         | String c s' => atom_matches a c && star s'
         | EmptyString => false
         end) s
  end.

#[global] Instance engine : ReEngine := {|
  regex := t;
  re_compile := parse;
  re_fullmatch := fullmatch;
|}.

End MiniRe.

(** A fragment of [decimal.Decimal]: an optional sign, digits and at most
    one point, read as a coefficient and an exponent; subtraction is exact
    (the default context rounds beyond 28 digits only). *)
Module MiniDecimal.

Record t : Type := mk { coef : Z; expo : Z }.

Definition digit_of (c : ascii) : option Z :=
  let n := nat_of_ascii c in
  if Nat.leb 48 n && Nat.leb n 57 then Some (Z.of_nat (n - 48)) else None.

(** The digits of [s] after [acc]; [frac] counts the digits behind the
    point once it is seen. The result also tells whether any digit was
    read. *)
Fixpoint digits (s : string) (acc : Z) (frac : option Z) (seen : bool)
  : option (Z * Z * bool) :=
  match s with
  | EmptyString => Some (acc, default 0%Z frac, seen)
  | String c r =>
      if Ascii.eqb c "." then
        match frac with
        | None => digits r acc (Some 0%Z) seen
        | Some _ => None
        end
      else
        match digit_of c with
        | Some d => digits r (10 * acc + d)%Z (Z.succ <$> frac) true
        | None => None
        end
  end.

Definition unsigned (s : string) : option t :=
  match digits s 0%Z None false with
  | Some (n, k, true) => Some (mk n (- k)%Z)
  | _ => None
  end.

Definition parse (s : string) : option t :=
  match s with
  | String "-"%char r => (λ d, mk (- coef d)%Z (expo d)) <$> unsigned r
  | String "+"%char r => unsigned r
  | _ => unsigned s
  end.

Definition neg (d : t) : bool := (coef d <? 0)%Z.

Definition sub (a b : t) : t :=
  let e := Z.min (expo a) (expo b) in
  mk (coef a * 10 ^ (expo a - e) - coef b * 10 ^ (expo b - e))%Z e.

#[global] Instance lib : DecimalLib := {|
  decimal := t;
  Decimal := parse;
  dec_neg := neg;
|}.

#[global] Instance numbers : PyNumber := {|
  number := t;
  num_sub := sub;
|}.

End MiniDecimal.

(** Python's [float]: IEEE 754 binary64, as the kernel's primitive floats. *)
Module PyFloat.

Definition numbers : PyNumber := {|
  number := float;
  num_sub := PrimFloat.sub;
|}.

End PyFloat.

(** Two implementations of [set], which lay the elements out differently:
    [ListSet] keeps them in the order they were added, [StackSet] puts the
    newest first. *)
Module ListSet.

Definition t : Type := list string.

Definition mem (x : string) (s : t) : bool := existsb (String.eqb x) s.

Definition add (x : string) (s : t) : t := if mem x s then s else s ++ [x].

Definition is_empty (s : t) : bool :=
  match s with
  | [] => true
  | _ :: _ => false
  end.

Lemma list_mem_add x y s : mem x (add y s) = String.eqb x y || mem x s.
Proof.
  unfold add. destruct (mem y s) eqn:Hy.
  - destruct (String.eqb_spec x y) as [->|]; [by rewrite Hy | done].
  - unfold mem. rewrite existsb_app. simpl.
    rewrite orb_false_r. apply orb_comm.
Qed.

Lemma list_is_empty_spec s : is_empty s = true ↔ ∀ x, mem x s = false.
Proof.
  destruct s as [|y s]; simpl; split; try done.
  intros H. specialize (H y). by rewrite String.eqb_refl in H.
Qed.

#[global] Instance impl : PySet := {|
  pyset := t;
  set_empty := [];
  set_add := add;
  set_mem := mem;
  set_is_empty := is_empty;
  set_mem_empty := λ _, eq_refl;
  set_mem_add := list_mem_add;
  set_is_empty_spec := list_is_empty_spec;
|}.

End ListSet.

Module StackSet.

Definition t : Type := list string.

Definition mem (x : string) (s : t) : bool := existsb (String.eqb x) s.

Definition add (x : string) (s : t) : t := if mem x s then s else x :: s.

Definition is_empty (s : t) : bool :=
  match s with
  | [] => true
  | _ :: _ => false
  end.

Lemma stack_mem_add x y s : mem x (add y s) = String.eqb x y || mem x s.
Proof.
  unfold add. destruct (mem y s) eqn:Hy; [|done].
  destruct (String.eqb_spec x y) as [->|]; [by rewrite Hy | done].
Qed.

Lemma stack_is_empty_spec s : is_empty s = true ↔ ∀ x, mem x s = false.
Proof.
  destruct s as [|y s]; simpl; split; try done.
  intros H. specialize (H y). by rewrite String.eqb_refl in H.
Qed.

Definition impl : PySet := {|
  pyset := t;
  set_empty := [];
  set_add := add;
  set_mem := mem;
  set_is_empty := is_empty;
  set_mem_empty := λ _, eq_refl;
  set_mem_add := stack_mem_add;
  set_is_empty_spec := stack_is_empty_spec;
|}.

End StackSet.


(** ** Rules files and paths of the examples *)

(** The patterns [a.*] and [b.*], as [MiniRe] compiles them. *)
Definition re_a_any : MiniRe.t := [(MiniRe.Lit "a", false); (MiniRe.Any, true)].
Definition re_b_any : MiniRe.t := [(MiniRe.Lit "b", false); (MiniRe.Any, true)].

(** The table of [pc: A a.*] and [pc: B b.*]. *)
Definition seg_AB : PyDict.t MiniRe.t := [("A", re_a_any); ("B", re_b_any)].

(** A pin of the given name, with a classified driving cell. *)
Definition pin_named (n : string) (line : nat) : Pin :=
  mk_pin n "BUFX2" (MiniDecimal.mk 1 0) line.

(** A launch path of three cells; the last one matches no pattern. *)
Definition path_abc : @TimePath MiniDecimal.lib MiniDecimal.numbers :=
  mk_path [pin_named "a1" 11; pin_named "b1" 12; pin_named "c1" 13] [] None
          (MiniDecimal.mk 0 0) (MiniDecimal.mk 0 0) (MiniDecimal.mk 0 0).

(** The rules file in which the tag [A] is declared again, after [B], with
    a pattern that overlaps the pattern of [B]. *)
Definition rules_A_B_A : list string := ["pc: A x"; "pc: B a.*"; "pc: A a.*"].

(** Two [ckt] rules and two overlapping [pc] rules of different tags: the
    tables are the declarations, and [ab], which both [pc] patterns match,
    goes to the tag declared first. *)
Definition rules_overlap : list string :=
  ["ckt: Y a.*"; "pc: A a.*"; "ckt: n .*"; "pc: B .*b"].

(** A path whose second launch cell and whose capture cell have no
    driving-cell class (the value -1). *)
Definition path_unknown_drv : @TimePath MiniDecimal.lib MiniDecimal.numbers :=
  mk_path [mk_pin "u1/Y" "BUFX2" (MiniDecimal.mk 2 0) 11;
           mk_pin "u2/Y" "XYZ" (MiniDecimal.mk (-1) 0) 12]
          [mk_pin "u3/Y" "PQR" (MiniDecimal.mk (-1) 0) 20]
          (Some 0)
          (MiniDecimal.mk 0 0) (MiniDecimal.mk 0 0) (MiniDecimal.mk 0 0).

(** Two clock cells, a clock instance and two tables. *)
Definition rules_sets : list string :=
  ["ckp: c u2 u1"; "ckp: i top/u9"; "pc: A a.*"; "cc: B b.*"; "ckp: c u1"].


(** * utils/common.py *)

(** The built-in [int]: [int_of_str base s] is [None] when [int(s, base)]
    raises [ValueError] ([base] is 10 for the call [int(s)]). *)
Class PyInt : Type := {
  int_of_str : Z → string → option Z;
}.

Module Common.

(** [a >> n] and [a << n]: a negative shift count raises [ValueError]. *)
Definition py_shiftr (a n : Z) : result Z :=
  if (n <? 0)%Z then Raise ValueError else Ok (Z.shiftr a n).

Definition py_shiftl (a n : Z) : result Z :=
  if (n <? 0)%Z then Raise ValueError else Ok (Z.shiftl a n).

(** [str_.startswith('0x') or str_.startswith('0X')] *)
Definition is_hex (s : string) : bool :=
  String.prefix "0x" s || String.prefix "0X" s.

(** The values that [bits] bits hold: two's complement when signed. *)
Definition fits (is_signed : bool) (bits num : Z) : bool :=
  if is_signed
  then (- 2 ^ (bits - 1) <=? num)%Z && (num <? 2 ^ (bits - 1))%Z
  else (0 <=? num)%Z && (num <? 2 ^ bits)%Z.

(** [str2int(str_, is_signed, bits)]: convert a string to an integer, with
    the check of the hexadecimal form. *)
Definition str2int `{PyInt} (str_ : string) (is_signed : bool) (bits : Z)
  : result Z :=
  if is_hex str_ then
    num ← of_option (int_of_str 16 str_) ValueError;
    over ← py_shiftr num bits;
    if negb (over =? 0)%Z then Raise ValueError
    else if is_signed then
      sign ← py_shiftr num (bits - 1);
      m ← py_shiftl sign bits;
      Ok (Z.lor num (Z.lnot (m - 1)))
    else Ok num
  else
    num ← of_option (int_of_str 10 str_) ValueError;
    let bits := if is_signed then (bits - 1)%Z else bits in
    if negb is_signed && (num <? 0)%Z then Raise ValueError
    else if (0 <? num)%Z then
      lim ← py_shiftl 1 bits;
      if (Z.abs num >=? lim)%Z then Raise ValueError else Ok num
    else if (num <? 0)%Z then
      lim ← py_shiftl 1 bits;
      if (Z.abs num >? lim)%Z then Raise ValueError else Ok num
    else Ok num.

End Common.

(** A fragment of [int]: decimal digits behind an optional sign for base
    10, and hexadecimal digits behind the prefix [0x] or [0X] for base
    16. *)
Module MiniInt.

Definition hex_digit (c : ascii) : option Z :=
  let n := nat_of_ascii c in
  if Nat.leb 48 n && Nat.leb n 57 then Some (Z.of_nat (n - 48))
  else if Nat.leb 97 n && Nat.leb n 102 then Some (Z.of_nat (n - 87))
  else if Nat.leb 65 n && Nat.leb n 70 then Some (Z.of_nat (n - 55))
  else None.

Definition dec_digit (c : ascii) : option Z :=
  let n := nat_of_ascii c in
  if Nat.leb 48 n && Nat.leb n 57 then Some (Z.of_nat (n - 48)) else None.

(** The value of the digits of [s] in base [b], behind [acc]. *)
Fixpoint digits (digit : ascii → option Z) (b : Z) (s : string) (acc : Z)
  : option Z :=
  match s with
  | EmptyString => Some acc
  | String c r => d ← digit c; digits digit b r (b * acc + d)%Z
  end.

Definition number (digit : ascii → option Z) (b : Z) (s : string) : option Z :=
  match s with
  | EmptyString => None
  | _ => digits digit b s 0%Z
  end.

Definition parse (base : Z) (s : string) : option Z :=
  if (base =? 16)%Z then
    match s with
    | String "0"%char (String c r) =>
        if Ascii.eqb c "x" || Ascii.eqb c "X" then number hex_digit 16 r else None
    | _ => None
    end
  else if (base =? 10)%Z then
    match s with
    | String "-"%char r => Z.opp <$> number dec_digit 10 r
    | _ => number dec_digit 10 s
    end
  else None.

#[global] Instance impl : PyInt := {| int_of_str := parse |}.

End MiniInt.

(** * pt_ana_ts.py: [main], the option [-r] *)

Module Main.

(** [int(s)] for a string of decimal digits, as the groups of [range_re]
    are; [None] for any other string. *)
Definition int_digits (s : string) : option nat :=
  match s with
  | EmptyString => None
  | _ => Nat.of_uint <$> NilEmpty.uint_of_string s
  end.

(** The pattern [(?P<st>\d+)(?::(?P<ed>\d+))?(?:\+(?P<nu>\d+))?] read as
    a recogniser of whole strings: the digits of [st], then a colon and
    the digits of [ed] or nothing, then a plus sign and the digits of [nu]
    or nothing. The result is the values of the three groups.
    [range_body] reads what stands before the plus sign. *)
Definition range_body (a : string) (nu : option nat)
  : option (nat * option nat * option nat) :=
  match split_on ":" a with
  | [st] => st ← int_digits st; Some (st, None, nu)
  | [st; ed] => st ← int_digits st; ed ← int_digits ed; Some (st, Some ed, nu)
  | _ => None
  end.

Definition range_fullmatch (s : string) : option (nat * option nat * option nat) :=
  match split_on "+" s with
  | [a] => range_body a None
  | [a; nu] => nu ← int_digits nu; range_body a (Some nu)
  | _ => None
  end.

(** Lines 963 to 973: the scan ranges [[start_line, last_line,
    path_count]] of the option [-r], [None] when the option is absent. *)
Definition range_list (range : option string) : list (nat * option nat * option nat) :=
  let range_list :=
    match range with
    | Some r => omap range_fullmatch (split_on "," r)
    | None => []
    end in
  match range_list with
  | [] => [(0, None, Some 1)]
  | _ => range_list
  end.

(** A range as the option writes it: [st], [st:ed], [st+nu] or
    [st:ed+nu]. *)
Definition show_range (r : nat * option nat * option nat) : string :=
  str_of_nat r.1.1
  +:+ match r.1.2 with Some ed => ":" +:+ str_of_nat ed | None => "" end
  +:+ match r.2 with Some nu => "+" +:+ str_of_nat nu | None => "" end.

(** The ranges separated by commas. *)
Fixpoint show_ranges (l : list (nat * option nat * option nat)) : string :=
  match l with
  | [] => ""
  | [r] => show_range r
  | r :: rest => show_range r +:+ "," +:+ show_ranges rest
  end.

End Main.

(** * The effect of one line on the configuration *)

Section ConfigSteps.
Context `{RE : ReEngine} `{DL : DecimalLib} `{PS : PySet}.

(** The assignments that the handlers of [load_times_cfg] make: one
    constructor for each assignment of lines 86 to 132, and [step_none] for
    a key that no handler knows. *)
Inductive cfg_step (c : cons_cfg) : cons_cfg → Prop :=
| step_flag key name d b :
    In (key, (name, d)) attr →
    cfg_step c (with_flags (<[name := b]> (flags c)) c)
| step_bds tag pat :
    cfg_step c (with_bds (<[tag := pat]> (bds c)) c)
| step_ckt b r :
    cfg_step c (with_ckt (ckt c ++ [(b, r)]) c)
| step_ckpc pat :
    cfg_step c (with_ckpc (set_update pat (ckpc c)) c)
| step_ckpi pat :
    cfg_step c (with_ckpi (set_update pat (ckpi c)) c)
| step_ckpr rs :
    cfg_step c (with_ckpr (ckpr c ++ rs) c)
| step_ckm r :
    cfg_step c (with_ckm (ckm c ++ [r]) c)
| step_dpc v :
    cfg_step c (with_dpc (Some v) c)
| step_pc tag r :
    cfg_step c (with_pc (PyDict.set tag r (pc c)) c)
| step_cc tag r :
    cfg_step c (with_cc (PyDict.set tag r (cc c)) c)
| step_dc k v :
    cfg_step c (with_dc (<[k := v]> (dc c)) c)
| step_hcd ty k tag :
    cfg_step c (with_hcd (<[ty := <[k := tag]> (default ∅ (hcd c !! ty))]> (hcd c)) c)
| step_none :
    cfg_step c c.

(** The line is not blank once its comment is removed. *)
Definition nonblank (raw : string) : bool :=
  negb (String.eqb (strip_comment raw) "").

(** The line is blank, or well formed. *)
Definition line_accepted (raw : string) : bool :=
  String.eqb (strip_comment raw) "" || line_ok (strip_comment raw).

(** [c'] holds all that [c] holds in its sets, lists and tables: the
    elements of the two sets, the three lists as prefixes, the keys of the
    dicts. *)
Definition cfg_grows (c c' : cons_cfg) : Prop :=
  (∀ x, set_mem x (ckpc c) = true → set_mem x (ckpc c') = true) ∧
  (∀ x, set_mem x (ckpi c) = true → set_mem x (ckpi c') = true) ∧
  ckpr c `prefix_of` ckpr c' ∧
  ckm c `prefix_of` ckm c' ∧
  ckt c `prefix_of` ckt c' ∧
  (∀ k, PyDict.mem k (pc c) = true → PyDict.mem k (pc c') = true) ∧
  (∀ k, PyDict.mem k (cc c) = true → PyDict.mem k (cc c') = true) ∧
  (∀ k, is_Some (bds c !! k) → is_Some (bds c' !! k)) ∧
  (∀ k, is_Some (dc c !! k) → is_Some (dc c' !! k)) ∧
  (∀ ty k, is_Some (hcd c !! ty ≫= (.!! k)) → is_Some (hcd c' !! ty ≫= (.!! k))) ∧
  (∀ k, is_Some (flags c !! k) → is_Some (flags c' !! k)).

End ConfigSteps.

(** * The series of [get_time_bar_info] in closed form *)

Section TimeBarSeries.
Context `{RE : ReEngine} `{DL : DecimalLib} `{PS : PySet} `{PN : PyNumber}.
Variables (aid : attr_id) (default_tag : string) (seg_dict : PyDict.t regex)
          (bar_ptype : pyset) (path : TimePath).

(** [s_path] of line 806. *)
Definition sub_path (type_ : string) : list Pin :=
  if String.eqb type_ "c" then cpath path else lpath path.

(** The path types for which the loop of line 797 runs, in its order. *)
Definition selected_types : list string :=
  List.filter (λ ty, set_mem ty bar_ptype) ["l"; "c"; "d"].

(** The index at which the loop over the sub-path of type [type_] meets
    the startpoint clock pin under the test [cid == path.spin and
    type_ == 'd']. *)
Definition marked (type_ : string) : option nat :=
  match spin path with
  | Some i =>
      if String.eqb type_ "d" && Nat.ltb i (length (sub_path type_))
      then Some i else None
  | None => None
  end.

(** The index of the first cell that is left in the lists after the loop:
    the lists are emptied at the marked cell unless [f] is a path type. *)
Definition drawn_from (type_ : string) : nat :=
  match marked type_ with
  | Some i => if set_mem "f" bar_ptype then 0 else i
  | None => 0
  end.

(** The colour under which a key of the legend is entered: the default
    colour for the default tag when there is no initial tag, the colour
    of the palette otherwise. *)
Definition key_color (key : string) : string :=
  match init_tag default_tag seg_dict with
  | None =>
      if String.eqb key default_tag then default_color aid seg_dict
      else default "" (PyDict.get key (bar_palette seg_dict))
  | Some _ => default "" (PyDict.get key (bar_palette seg_dict))
  end.

(** [key = default_tag if tag is None else tag] and its colour. *)
Definition tag_color (tg : option string) : string :=
  key_color (default default_tag tg).

(** The tags of the cells of a sub-path, from the initial tag. *)
Definition tags_of (type_ : string) : list (option string) :=
  match walk_tags default_tag seg_dict (init_tag default_tag seg_dict)
          (map (pin_attr aid) (sub_path type_)) with
  | Ok tgs => tgs
  | Raise _ => []
  end.

(** The hatch patterns ([mark] is ["/"], [plain] is [""]) or the edge
    colours ([mark] is ["b"], [plain] is ["k"]) of the cells that are left
    in the lists: [mark] for the marked cell, [plain] for the others. *)
Definition marks (mark plain : string) (type_ : string) : list string :=
  match marked type_ with
  | Some i =>
      replicate (i - drawn_from type_) plain
      ++ mark :: replicate (length (sub_path type_) - S i) plain
  | None => replicate (length (sub_path type_)) plain
  end.

(** What the loop maintains about the legend of the sub-path: the colours
    are those of [key_color], the default tag comes first when there is no
    initial tag, and the keys are the default tag and keys of the table. *)
Definition legend_ok (lg : PyDict.t string) : Prop :=
  (∀ key col, PyDict.get key lg = Some col → col = key_color key) ∧
  (init_tag default_tag seg_dict = None → ∃ col rest, lg = (default_tag, col) :: rest) ∧
  (∀ key, PyDict.mem key lg = true →
          key = default_tag ∨ PyDict.mem key seg_dict = true).

(** A legend that starts with the default tag and holds no key but that
    tag and keys of the table. *)
Definition legend_shape (lg : PyDict.t string) : Prop :=
  (∃ col rest, lg = (default_tag, col) :: rest) ∧
  (∀ key, PyDict.mem key lg = true →
          key = default_tag ∨ PyDict.mem key seg_dict = true).

End TimeBarSeries.

(** ** [show_time_bar]: the call of [get_time_bar_info] for the path groups *)

Section PathGroups.
Context `{RE : ReEngine} `{DL : DecimalLib} `{PS : PySet} `{PN : PyNumber}.

(** Line 554: [default_tag = 'TP' if cons_cfg['dpc'] is None else
    cons_cfg['dpc']]. *)
Definition default_tag_of (c : cons_cfg) : string :=
  default "TP" (dpc c).

(** Lines 556 and 557: [ce_info]. *)
Definition ce_info (c : cons_cfg) (bar_ptype : pyset) (path : TimePath)
  : result bar_info :=
  get_time_bar_info AidName (default_tag_of c) (pc c) bar_ptype path.

End PathGroups.

(** * Properties *)

(** ** Strings and dictionaries *)

Example attr_has_seventeen_keys :
  length attr = 17 ∧ NoDup (PyDict.keys attr) ∧ NoDup (map (λ e, e.2.1) attr).
Proof. split; [reflexivity |]. split; compute_done. Qed.

Lemma attr_get key name d :
  In (key, (name, d)) attr → PyDict.get key attr = Some (name, d).
Proof.
  unfold attr. intros H.
  repeat (destruct H as [H | H]; [by inversion H |]).
  destruct H.
Qed.

Lemma attr_get_In key name d :
  PyDict.get key attr = Some (name, d) → In (key, (name, d)) attr.
Proof.
  generalize attr. intros l. induction l as [|[k' v'] l IH]; simpl; [done |].
  destruct (String.eqb_spec key k') as [-> | Hne].
  - intros [= ->]. by left.
  - intros H. right. by apply IH.
Qed.

Section DictFacts.
Context {V : Type}.
Implicit Types (d : PyDict.t V) (k : string) (v : V).

Lemma get_set_eq k v d : PyDict.get k (PyDict.set k v d) = Some v.
Proof.
  induction d as [|[k' v'] d IH]; simpl.
  - by rewrite String.eqb_refl.
  - destruct (String.eqb k k') eqn:E; simpl; by rewrite E.
Qed.

Lemma get_set_ne k k' v d :
  k ≠ k' → PyDict.get k' (PyDict.set k v d) = PyDict.get k' d.
Proof.
  intros Hne. induction d as [|[k0 v0] d IH]; simpl.
  - apply not_eq_sym, String.eqb_neq in Hne. by rewrite Hne.
  - destruct (String.eqb_spec k k0) as [-> | Hk]; simpl.
    + apply not_eq_sym, String.eqb_neq in Hne. by rewrite Hne.
    + by rewrite IH.
Qed.

Lemma mem_keys k d : PyDict.mem k d = existsb (String.eqb k) (PyDict.keys d).
Proof.
  unfold PyDict.mem. induction d as [|[k' v'] d IH]; simpl; [done |].
  by destruct (String.eqb k k').
Qed.

(** A new key goes to the end; a key that is present keeps its place. *)
Lemma set_fresh k v d :
  PyDict.mem k d = false → PyDict.set k v d = d ++ [(k, v)].
Proof.
  unfold PyDict.mem. induction d as [|[k' v'] d IH]; simpl; [done |].
  destruct (String.eqb k k'); [done |]. intros H. by rewrite IH.
Qed.

Lemma keys_set k v d :
  PyDict.keys (PyDict.set k v d) =
  if PyDict.mem k d then PyDict.keys d else PyDict.keys d ++ [k].
Proof.
  unfold PyDict.mem, PyDict.keys. induction d as [|[k' v'] d IH]; simpl; [done |].
  destruct (String.eqb k k'); simpl; [done |].
  rewrite IH. by destruct (PyDict.get k d).
Qed.

Lemma get_app k d1 d2 :
  PyDict.get k (d1 ++ d2) =
  match PyDict.get k d1 with Some v => Some v | None => PyDict.get k d2 end.
Proof.
  induction d1 as [|[k' v'] d1 IH]; simpl; [done |].
  by destruct (String.eqb k k').
Qed.

Lemma fold_set_keys (decls : list (string * V)) d :
  PyDict.keys (fold_left (λ d e, PyDict.set e.1 e.2 d) decls d) =
  fold_left (λ acc t, if existsb (String.eqb t) acc then acc else acc ++ [t])
            (map fst decls) (PyDict.keys d).
Proof.
  revert d. induction decls as [|[k v] decls IH]; intros d; simpl; [done |].
  by rewrite IH, keys_set, mem_keys.
Qed.

Lemma fold_set_get (decls : list (string * V)) d k :
  PyDict.get k (fold_left (λ d e, PyDict.set e.1 e.2 d) decls d) =
  match PyDict.get k (rev decls) with
  | Some v => Some v
  | None => PyDict.get k d
  end.
Proof.
  revert d. induction decls as [|[k' v'] decls IH]; intros d; simpl; [done |].
  rewrite IH, get_app. destruct (PyDict.get k (rev decls)); [done |]. simpl.
  destruct (String.eqb_spec k k') as [-> | Hne].
  - apply get_set_eq.
  - by apply get_set_ne.
Qed.

Lemma fold_set_fresh (decls : list (string * V)) d :
  NoDup (PyDict.keys d ++ map fst decls) →
  fold_left (λ d e, PyDict.set e.1 e.2 d) decls d = d ++ decls.
Proof.
  revert d. induction decls as [|[k v] decls IH]; intros d Hnd; simpl.
  - by rewrite app_nil_r.
  - simpl in Hnd. rewrite set_fresh.
    + rewrite IH.
      * by rewrite <- app_assoc.
      * unfold PyDict.keys. rewrite map_app. simpl.
        by rewrite <- app_assoc.
    + apply NoDup_app in Hnd as (_ & Hdisj & _).
      rewrite mem_keys. apply not_true_is_false. intros Hex.
      apply existsb_exists in Hex as (k' & Hin & ->%String.eqb_eq).
      apply (Hdisj k'); [by apply list_elem_of_In | by left].
Qed.

Lemma mem_set k k' v d :
  PyDict.mem k (PyDict.set k' v d) = String.eqb k k' || PyDict.mem k d.
Proof.
  unfold PyDict.mem. induction d as [|[k0 v0] d IH]; simpl.
  - by destruct (String.eqb k k').
  - destruct (String.eqb_spec k' k0) as [-> | Hne]; simpl.
    + by destruct (String.eqb k k0).
    + destruct (String.eqb_spec k k0) as [-> | Hne'].
      * by rewrite orb_true_r.
      * apply IH.
Qed.

Lemma mem_get k d :
  PyDict.mem k d = true → ∃ v, PyDict.get k d = Some v.
Proof. unfold PyDict.mem. destruct (PyDict.get k d) as [v|]; [by exists v | done]. Qed.

(** The table that the declarations build: its tags stand in the order of
    their first declaration, each with the value of its last one; when no
    tag is declared twice it is the list of the declarations. *)
Lemma table_of_spec (decls : list (string * V)) :
  PyDict.keys (table_of decls) = first_tags (map fst decls) ∧
  (∀ t, PyDict.get t (table_of decls) = last_decl t decls) ∧
  (NoDup (map fst decls) → table_of decls = decls).
Proof.
  unfold table_of, first_tags, last_decl. split; [|split].
  - apply fold_set_keys.
  - intros t. rewrite fold_set_get. by destruct (PyDict.get t (rev decls)).
  - intros Hnd. by rewrite fold_set_fresh.
Qed.

End DictFacts.

Section ConfigFacts.
Context `{RE : ReEngine} `{DL : DecimalLib} `{PS : PySet}.

(** The loop over a file cut in two: the second part starts from the
    configuration and the line number the first part ends with. *)
Lemma load_lines_app fno pre rest c :
  load_lines fno (pre ++ rest) c =
  (c' ← load_lines fno pre c; load_lines (fno + length pre) rest c').
Proof.
  revert fno c. induction pre as [|raw pre IH]; intros fno c; simpl.
  - by rewrite Nat.add_0_r.
  - destruct (String.eqb (strip_comment raw) "").
    + rewrite IH. by rewrite Nat.add_succ_r.
    + destruct (process_line (strip_comment raw) c) as [c'|e]; simpl; [|done].
      rewrite IH. by rewrite Nat.add_succ_r.
Qed.

(** A line that the [try] block rejects ends the loop with the error of
    its own line number. *)
Lemma load_lines_raise fno pre raw rest c c' e :
  load_lines fno pre c = Ok c' →
  strip_comment raw ≠ "" →
  process_line (strip_comment raw) c' = Raise e →
  load_lines fno (pre ++ raw :: rest) c =
  Raise (SyntaxError (syntax_error_msg (fno + length pre))).
Proof.
  intros Hpre Hne Hraise. rewrite load_lines_app, Hpre. simpl.
  apply String.eqb_neq in Hne. by rewrite Hne, Hraise.
Qed.

(** A line that the [try] block accepts is one step of the loop. *)
Lemma load_lines_step fno raw rest c c' :
  strip_comment raw ≠ "" →
  process_line (strip_comment raw) c = Ok c' →
  load_lines fno (raw :: rest) c = load_lines (S fno) rest c'.
Proof.
  intros Hne Hok. simpl. apply String.eqb_neq in Hne. by rewrite Hne, Hok.
Qed.

Lemma compile_ok p : is_ok (compile p) = compiles p.
Proof. unfold compile, compiles. by destruct (re_compile p). Qed.

Lemma map_result_compile_ok pat :
  is_ok (map_result compile pat) = forallb compiles pat.
Proof.
  induction pat as [|p pat IH]; simpl; [done |].
  rewrite <- compile_ok, <- IH.
  destruct (compile p); simpl; [|done].
  by destruct (map_result compile pat).
Qed.

Lemma recognized_false key :
  recognized key = false →
  PyDict.get key attr = None ∧ Forall (λ k, String.eqb key k = false) handler_keys.
Proof.
  unfold recognized, PyDict.mem. intros [H1 H2]%orb_false_elim. split.
  - by destruct (PyDict.get key attr).
  - apply Forall_forall. intros k Hk.
    destruct (String.eqb key k) eqn:E; [|done].
    assert (existsb (String.eqb key) handler_keys = true); [|congruence].
    apply existsb_exists. exists k. split; [by apply list_elem_of_In | done].
Qed.

(** The handlers accept exactly the values that the grammar allows:
    [handle] raises if and only if the value is malformed for its key. *)
Lemma handle_ok_iff key value c :
  is_ok (handle key value c) = value_ok key value.
Proof.
  unfold handle, value_ok, PyDict.mem.
  destruct (PyDict.get key attr) as [[nm d]|]; [by case_match |].
  destruct (String.eqb key "bds"); [by destruct (split_ws value) |].
  destruct (String.eqb key "ckt").
  { destruct (split_ws value) as [|tag [|pat [|? ?]]]; simpl; try done.
    rewrite <- compile_ok. destruct (compile pat); simpl; [|by rewrite andb_false_r].
    rewrite andb_true_r. by repeat case_match. }
  destruct (String.eqb key "ckp").
  { destruct (split_ws value) as [|type_ pat]; simpl; [done |].
    destruct (String.eqb type_ "c"); [done |].
    destruct (String.eqb type_ "i"); [done |].
    destruct (String.eqb type_ "r"); simpl; [|done].
    rewrite <- map_result_compile_ok. by destruct (map_result compile pat). }
  destruct (String.eqb key "ckm").
  { destruct (split_ws value) as [|p0 ?]; simpl; [done |].
    rewrite <- compile_ok. by destruct (compile p0). }
  destruct (String.eqb key "dpc"); [done |].
  destruct (String.eqb key "pc"); simpl.
  { destruct (split_ws value) as [|tag [|pat [|? ?]]]; simpl; try done.
    rewrite <- compile_ok. by destruct (compile pat). }
  destruct (String.eqb key "cc"); simpl.
  { destruct (split_ws value) as [|tag [|pat [|? ?]]]; simpl; try done.
    rewrite <- compile_ok. by destruct (compile pat). }
  destruct (String.eqb key "dc").
  { destruct (split_ws value) as [|v1 [|v2 ?]]; simpl; try done.
    destruct (String.eqb v1 "r").
    - rewrite <- compile_ok. by destruct (compile v2).
    - unfold is_decimal. by destruct (Decimal v1). }
  destruct (String.eqb key "hcd"); [|done].
  destruct (split_on DQUOTE value) as [|t0 [|t1 ?]]; simpl; [done | |].
  - destruct (split_ws t0) as [|? [|? [|? [|? [|? ?]]]]]; reflexivity.
  - destruct (split_ws t0) as [|? [|? [|? [|? [|? ?]]]]]; reflexivity.
Qed.

(** The same for a whole line: the [try] block raises if and only if the
    line is malformed. Whether it does is independent of the
    configuration built so far. *)
Lemma process_line_ok_iff line c :
  is_ok (process_line line c) = line_ok line.
Proof.
  unfold process_line, split_key_value, line_ok.
  destruct (split_on ":" line) as [|k [|v [|? ?]]]; simpl; try done.
  apply handle_ok_iff.
Qed.

Lemma process_line_raises line c :
  line_ok line = false → ∃ e, process_line line c = Raise e.
Proof.
  rewrite <- (process_line_ok_iff line c).
  destruct (process_line line c) as [|e]; [done | by exists e].
Qed.

(** A key that no handler knows: the chain falls through and the
    configuration is returned as it was. *)
Lemma handle_unknown key value c :
  recognized key = false → handle key value c = Ok c.
Proof.
  intros [Hattr Hkeys]%recognized_false. unfold handle. rewrite Hattr.
  unfold handler_keys in Hkeys.
  repeat (apply Forall_cons in Hkeys as [-> Hkeys]). done.
Qed.

Lemma split_on_length sep s :
  length (split_on sep s) = S (count_char sep s).
Proof.
  induction s as [|c s IH]; simpl; [done |].
  destruct (Ascii.eqb c sep); simpl.
  - by rewrite IH.
  - destruct (split_on sep s); simpl in *; [done | by rewrite <- IH].
Qed.

(** A line is cut at every colon: with two or more of them there are at
    least three parts, and the unpacking into [key, value] fails. *)
Lemma line_ok_colons line :
  (2 ≤ count_char ":" line)%nat → line_ok line = false.
Proof.
  intros H. unfold line_ok.
  pose proof (split_on_length ":" line) as Hlen.
  destruct (split_on ":" line) as [|k [|v [|? ?]]]; simpl in *; try done. lia.
Qed.

End ConfigFacts.

(** ** C1: the boolean options *)

Section Toggles.
Context `{RE : ReEngine} `{DL : DecimalLib} `{PS : PySet}.

(** C1. For each of the seventeen boolean keys, with option [name] and
    default [d]: a line [key: value] is accepted, and the option becomes
    [not d] if and only if the value, compared without regard to case,
    equals the string form of [not d]; every other value sets it to [d].
    The other options keep their values. *)
Theorem C1_toggle_on_explicit_opposite (key name : string) (d : bool)
    (line k v : string) (c : cons_cfg) :
  In (key, (name, d)) attr →
  split_on ":" line = [k; v] →
  strip k = key →
  ∃ c', process_line line c = Ok c' ∧
    flags c' !! name =
      Some (if String.eqb (lower (strip v)) (lower (str_of_bool (negb d)))
            then negb d else d) ∧
    (flags c' !! name = Some (negb d) ↔
       lower (strip v) = lower (str_of_bool (negb d))) ∧
    (lower (strip v) ≠ lower (str_of_bool (negb d)) → flags c' !! name = Some d) ∧
    (∀ other, other ≠ name → flags c' !! other = flags c !! other).
Proof.
  intros Hin Hsplit Hkey.
  unfold process_line, split_key_value. rewrite Hsplit. simpl.
  rewrite Hkey. unfold handle. rewrite (attr_get _ _ _ Hin).
  destruct (String.eqb_spec (lower (strip v)) (lower (str_of_bool (negb d))))
    as [Heq | Hne].
  - eexists. split; [done |]. simpl. rewrite lookup_insert_eq.
    repeat split; try done.
    intros other Hother. by rewrite lookup_insert_ne.
  - eexists. split; [done |]. simpl. rewrite lookup_insert_eq.
    repeat split; try done.
    + intros [= H]. by destruct d.
    + intros other Hother. by rewrite lookup_insert_ne.
Qed.

End Toggles.

(** A false-default and a true-default key, each switched by the opposite
    value in capitals. *)
Lemma C1_toggle_witness :
  (∃ c', process_line "clock_check_enable: TRUE" default_cfg = Ok c' ∧
         flags c' !! "ckc_en" = Some true) ∧
  (∃ c', process_line "slack_on_report : False" default_cfg = Ok c' ∧
         flags c' !! "slk_on_rpt" = Some false).
Proof.
  split.
  - destruct (C1_toggle_on_explicit_opposite
                "clock_check_enable" "ckc_en" false
                "clock_check_enable: TRUE" "clock_check_enable" " TRUE"
                default_cfg) as (c' & Hc & Hv & _).
    + simpl. tauto.
    + reflexivity.
    + reflexivity.
    + exists c'. split; [exact Hc | exact Hv].
  - destruct (C1_toggle_on_explicit_opposite
                "slack_on_report" "slk_on_rpt" true
                "slack_on_report : False" "slack_on_report " " False"
                default_cfg) as (c' & Hc & Hv & _).
    + simpl. tauto.
    + reflexivity.
    + reflexivity.
    + exists c'. split; [exact Hc | exact Hv].
Defined.

(** ** The classification walk *)

Section Walk.
Context `{RE : ReEngine} `{DL : DecimalLib} `{PS : PySet} `{PN : PyNumber}.

Lemma first_match_None seg s :
  first_match seg s = None ↔ none_matches seg s.
Proof.
  unfold none_matches. induction seg as [|[k r] seg IH]; simpl.
  - split; [constructor | done].
  - destruct (re_fullmatch r s) eqn:Hr.
    + split; [done |]. intros H. inversion H as [|? ? Hh Ht]; simpl in *. congruence.
    + rewrite IH. split.
      * intros H. by constructor.
      * intros H. by inversion H.
Qed.

(** The lookup returns the key of the first entry, in the order of the
    table, whose pattern full-matches. *)
Lemma first_match_Some seg s k :
  first_match seg s = Some k ↔
  ∃ l1 r l2, seg = l1 ++ (k, r) :: l2 ∧ none_matches l1 s ∧ re_fullmatch r s = true.
Proof.
  unfold none_matches. induction seg as [|[k' r'] seg IH]; simpl.
  - split; [done |]. intros (l1 & r & l2 & H & _). by destruct l1.
  - destruct (re_fullmatch r' s) eqn:Hr.
    + split.
      * intros [= ->]. exists [], r', seg. by repeat split.
      * intros (l1 & r & l2 & H & Hl1 & Hm). destruct l1 as [|e l1]; simpl in H.
        -- by injection H as -> _ _.
        -- injection H as <- _. inversion Hl1; simpl in *. congruence.
    + rewrite IH. split.
      * intros (l1 & r & l2 & -> & Hl1 & Hm).
        exists ((k', r') :: l1), r, l2. repeat split; [by constructor | done].
      * intros (l1 & r & l2 & H & Hl1 & Hm). destruct l1 as [|e l1]; simpl in H.
        -- injection H as _ <- _. congruence.
        -- injection H as _ ->. inversion Hl1; subst. by exists l1, r, l2.
Qed.

Lemma first_match_mem seg s k :
  first_match seg s = Some k → PyDict.mem k seg = true.
Proof.
  unfold PyDict.mem. induction seg as [|[k' r'] seg IH]; simpl; [done |].
  destruct (re_fullmatch r' s).
  - intros [= ->]. by rewrite String.eqb_refl.
  - intros H. destruct (String.eqb k k'); [done | by apply IH].
Qed.

Lemma init_tag_mem default_tag seg t :
  init_tag default_tag seg = Some t → PyDict.mem t seg = true.
Proof.
  unfold init_tag. destruct (PyDict.len seg =? 0)%nat; [done |].
  destruct (PyDict.mem default_tag seg) eqn:H; [|done]. by intros [= <-].
Qed.

(** The walk keeps its tag among the keys of the table, so that
    [seg_dict[tag]] never raises [KeyError]: each cell gets a tag. *)
Lemma next_tag_total default_tag seg tg s :
  (∀ t, tg = Some t → PyDict.mem t seg = true) →
  ∃ tg', next_tag seg (init_tag default_tag seg) tg s = Ok tg' ∧
         ∀ t, tg' = Some t → PyDict.mem t seg = true.
Proof.
  intros Htg. unfold next_tag.
  destruct (PyDict.len seg =? 0)%nat; [by eexists |].
  assert (Hnew : ∀ t,
    match first_match seg s with
    | Some key => Some key
    | None => init_tag default_tag seg
    end = Some t → PyDict.mem t seg = true).
  { intros t. destruct (first_match seg s) eqn:Hf.
    - intros [= <-]. by eapply first_match_mem.
    - apply init_tag_mem. }
  destruct tg as [t|]; simpl.
  - specialize (Htg t eq_refl). unfold PyDict.mem in Htg.
    destruct (PyDict.get t seg) as [r|] eqn:Hget; [|done]. simpl.
    destruct (re_fullmatch r s); simpl.
    + eexists. split; [done |]. intros t' [= <-].
      unfold PyDict.mem. by rewrite Hget.
    + by eexists.
  - by eexists.
Qed.

Lemma walk_tags_total default_tag seg tg attrs :
  (∀ t, tg = Some t → PyDict.mem t seg = true) →
  ∃ tgs, walk_tags default_tag seg tg attrs = Ok tgs ∧ length tgs = length attrs.
Proof.
  revert tg. induction attrs as [|s attrs IH]; intros tg Htg; simpl.
  - by exists [].
  - destruct (next_tag_total default_tag seg tg s Htg) as (tg' & -> & Htg'). simpl.
    destruct (IH tg' Htg') as (tgs & -> & Hlen). simpl.
    eexists. split; [done |]. simpl. by rewrite Hlen.
Qed.

(** The tag that [bar_cell_step] leaves is the one [next_tag] computes. *)
Lemma bar_cell_step_tag aid default_tag seg bar_ptype path type_ n_ha cid p st st' :
  bar_cell_step aid default_tag seg bar_ptype path type_ n_ha cid p st = Ok st' →
  next_tag seg (init_tag default_tag seg) (tag st) (pin_attr aid p) = Ok (tag st').
Proof.
  unfold bar_cell_step.
  destruct (next_tag seg (init_tag default_tag seg) (tag st) (pin_attr aid p))
    as [tg|e]; simpl; [|done].
  match goal with |- context [if PyDict.mem ?k ?d then _ else _] =>
    destruct (PyDict.mem k d) end; simpl.
  - match goal with |- context [of_option ?o _] => destruct o end; simpl; [|done].
    repeat case_match; by intros [= <-].
  - match goal with |- context [of_option ?o _] => destruct o end; simpl; [|done].
    match goal with |- context [of_option ?o _] => destruct o end; simpl; [|done].
    repeat case_match; by intros [= <-].
Qed.

(** *** [get_time_bar_info] returns

    Neither [seg_dict[tag]] nor [bar_palette[key]] nor [bar_lg_path[key]]
    can raise [KeyError]. *)

(** Every key of the table has its colour in the palette. *)
Lemma bar_palette_mem seg k :
  PyDict.mem k seg = true → PyDict.mem k (bar_palette seg) = true.
Proof.
  unfold bar_palette. intros Hk.
  assert (Hlen : (PyDict.len seg =? 0)%nat = false) by by destruct seg.
  rewrite Hlen. rewrite mem_keys in Hk.
  assert (Hfold : ∀ (l : list (nat * string)) acc,
    PyDict.mem k (fold_left (λ acc ik,
        PyDict.set ik.2 (nth (ik.1 mod length Palette.bar) Palette.bar "") acc) l acc)
    = PyDict.mem k acc || existsb (String.eqb k) (map snd l)).
  { induction l as [|[i k'] l IH]; intros acc; simpl.
    - by rewrite orb_false_r.
    - rewrite IH, mem_set. by destruct (String.eqb k k'), (PyDict.mem k acc). }
  rewrite Hfold. apply orb_true_iff. right.
  assert (Himap : ∀ (l : list string) n, map snd (imap (λ i x, (n + i, x)) l) = l).
  { induction l as [|x l IH]; intros n; simpl; [done |]. f_equal.
    rewrite <- (IH (S n)) at 2. f_equal. apply imap_ext.
    intros i y _. simpl. by rewrite Nat.add_succ_r. }
  by rewrite (Himap _ 0).
Qed.

Lemma init_bar_lg_path_mem aid default_tag seg :
  init_tag default_tag seg = None →
  PyDict.mem default_tag (init_bar_lg_path aid default_tag seg) = true.
Proof.
  unfold init_bar_lg_path. intros ->. unfold PyDict.mem. simpl.
  by rewrite String.eqb_refl.
Qed.

Lemma bar_cell_step_total aid default_tag seg bar_ptype path type_ n_ha cid p st :
  walk_inv default_tag seg st →
  ∃ st', bar_cell_step aid default_tag seg bar_ptype path type_ n_ha cid p st = Ok st'
         ∧ walk_inv default_tag seg st'
         ∧ lv_ce_path st' = (if bool_decide (spin path = Some cid)
                                && String.eqb type_ "d" && negb (set_mem "f" bar_ptype)
                             then [] else lv_ce_path st) ++ [p].
Proof.
  intros (Htag & Hnone & Hlg). unfold bar_cell_step.
  destruct (next_tag_total default_tag seg (tag st) (pin_attr aid p) Htag)
    as (tg & Hnext & Htg).
  assert (Htg_none : tg = None → init_tag default_tag seg = None).
  { intros ->. revert Hnext. unfold next_tag.
    destruct (PyDict.len seg =? 0)%nat eqn:Hlen.
    - intros [= E]. by apply Hnone.
    - destruct (tag st) as [t|] eqn:Et; simpl.
      + destruct (PyDict.get t seg) as [r|]; simpl; [|done].
        destruct (re_fullmatch r (pin_attr aid p)); simpl; [done |].
        by destruct (first_match seg (pin_attr aid p)); intros [= ?].
      + by destruct (first_match seg (pin_attr aid p)); intros [= ?]. }
  rewrite Hnext. simpl.
  set (reset := bool_decide (spin path = Some cid) && String.eqb type_ "d"
                && negb (set_mem "f" bar_ptype)).
  set (lg0 := bar_lg_path (if reset then _ else _)).
  assert (Hlg0 : init_tag default_tag seg = None → PyDict.mem default_tag lg0 = true).
  { intros Hi. subst lg0. destruct reset; simpl.
    - by apply init_bar_lg_path_mem.
    - by apply Hlg. }
  set (key := default default_tag tg).
  assert (Hkey : PyDict.mem key lg0 = false → PyDict.mem key (bar_palette seg) = true).
  { intros Hno. subst key. destruct tg as [t|]; simpl in *.
    - apply bar_palette_mem. by apply Htg.
    - rewrite Hlg0 in Hno; [done | by apply Htg_none]. }
  destruct (PyDict.mem key lg0) eqn:Hmem; simpl.
  - destruct (mem_get _ _ Hmem) as [col ->]. simpl.
    destruct (bool_decide (spin path = Some cid) && String.eqb type_ "d");
      eexists; (split; [done |]); (split; [|by subst reset; destruct (negb _)]);
      repeat split; simpl; try done.
  - destruct (mem_get _ _ (Hkey eq_refl)) as [col ->]. simpl.
    rewrite get_set_eq. simpl.
    assert (Hlg1 : init_tag default_tag seg = None
                   → PyDict.mem default_tag (PyDict.set key col lg0) = true).
    { intros Hi. rewrite mem_set, (Hlg0 Hi). by rewrite orb_true_r. }
    destruct (bool_decide (spin path = Some cid) && String.eqb type_ "d");
      eexists; (split; [done |]); (split; [|by subst reset; destruct (negb _)]);
      repeat split; simpl; try done.
Qed.

Lemma bar_path_loop_total aid default_tag seg bar_ptype path type_ n_ha cid cells st :
  walk_inv default_tag seg st →
  ∃ st', bar_path_loop aid default_tag seg bar_ptype path type_ n_ha cid cells st
         = Ok st'.
Proof.
  revert cid st. induction cells as [|p cells IH]; intros cid st Hinv; simpl.
  - by exists st.
  - destruct (bar_cell_step_total aid default_tag seg bar_ptype path type_ n_ha
                cid p st Hinv) as (st1 & -> & Hinv1 & _).
    simpl. by apply IH.
Qed.

(** The function returns for every table, default tag, set of path types
    and path. *)
Lemma get_time_bar_info_total aid default_tag seg bar_ptype path :
  ∃ info, get_time_bar_info aid default_tag seg bar_ptype path = Ok info.
Proof.
  assert (Hstep : ∀ type_ info,
    ∃ info', bar_type_step aid default_tag seg bar_ptype path type_ info = Ok info').
  { intros type_ info. unfold bar_type_step.
    destruct (set_mem type_ bar_ptype); [|by eexists].
    edestruct (bar_path_loop_total aid default_tag seg bar_ptype path type_
                 (length (bi_ha info)) 0
                 (if String.eqb type_ "c" then cpath path else lpath path))
      as [st ->].
    - repeat split; simpl.
      + apply init_tag_mem.
      + done.
      + apply init_bar_lg_path_mem.
    - simpl. by eexists. }
  unfold get_time_bar_info.
  destruct (Hstep "l" (mk_bar_info [] [] [] [] [] None None)) as [i1 ->]. simpl.
  destruct (Hstep "c" i1) as [i2 ->]. simpl.
  apply Hstep.
Qed.

(** C2, amended. In the walk of [get_time_bar_info] over a sub-path, with
    a table that is not empty:
    - a cell whose attribute full-matches the pattern of the current tag
      keeps that tag, and the table is not consulted, whatever else it
      holds;
    - otherwise (no current tag, or no full match of its pattern) the
      entries are tried in the order of the table and the first one that
      full-matches gives the new tag;
    - when none matches, the tag is set back to the initial tag (the
      default tag if it is a key of the table, no tag otherwise) and not
      kept. *)
Theorem C2_sticky_walk (default_tag : string) (seg : PyDict.t regex)
    (tg : option string) (s : string) :
  seg ≠ [] →
  let init := init_tag default_tag seg in
  let stale := tg = None ∨
               ∃ t r, tg = Some t ∧ PyDict.get t seg = Some r ∧ re_fullmatch r s = false in
  (∀ t r, tg = Some t → PyDict.get t seg = Some r → re_fullmatch r s = true →
     next_tag seg init tg s = Ok (Some t)) ∧
  (stale → ∀ l1 k r l2,
     seg = l1 ++ (k, r) :: l2 → none_matches l1 s → re_fullmatch r s = true →
     next_tag seg init tg s = Ok (Some k)) ∧
  (stale → none_matches seg s → next_tag seg init tg s = Ok init).
Proof.
  intros Hne init stale.
  assert (Hlen : (PyDict.len seg =? 0)%nat = false) by by destruct seg.
  assert (Hstale : stale →
    next_tag seg init tg s =
    Ok (match first_match seg s with Some key => Some key | None => init end)).
  { unfold next_tag. rewrite Hlen.
    intros [-> | (t & r & -> & Hget & Hr)]; simpl; [done |].
    rewrite Hget. simpl. by rewrite Hr. }
  split; [|split].
  - intros t r -> Hget Hr. unfold next_tag. rewrite Hlen. simpl.
    rewrite Hget. simpl. by rewrite Hr.
  - intros Hs l1 k r l2 Hseg Hl1 Hr. rewrite (Hstale Hs).
    assert (first_match seg s = Some k) as ->; [|done].
    apply first_match_Some. by exists l1, r, l2.
  - intros Hs Hnone. rewrite (Hstale Hs).
    apply first_match_None in Hnone. by rewrite Hnone.
Qed.

End Walk.

(** The rules compile to [seg_AB] with default tag [A]. *)
Example seg_AB_loaded :
  ∃ c, load_times_cfg (Some ["pc: A a.*"; "pc: B b.*"; "dpc: A"]) = Ok (c, [])
       ∧ pc c = seg_AB ∧ dpc c = Some "A".
Proof. eexists. split; [reflexivity |]. split; reflexivity. Qed.

(** The fixture of four cells [a1, a2, b1, a3] under the default tag [A]:
    three runs, [A A], [B], [A]. *)
Example walk_a1_a2_b1_a3 :
  walk_tags "A" seg_AB (init_tag "A" seg_AB) ["a1"; "a2"; "b1"; "a3"]
  = Ok [Some "A"; Some "A"; Some "B"; Some "A"].
Proof. reflexivity. Qed.

(** C2 as stated fails: under the current tag [B], the cell [c1] matches
    neither the pattern of [B] nor any entry of the table, and the walk
    does not go on under [B], it falls back to the default tag [A]. The bar
    of [c1] is drawn in the colour of [A]. *)
Lemma C2_counterexample :
  none_matches seg_AB "c1" ∧
  next_tag seg_AB (init_tag "A" seg_AB) (Some "B") "c1" ≠ Ok (Some "B") ∧
  next_tag seg_AB (init_tag "A" seg_AB) (Some "B") "c1" = Ok (Some "A") ∧
  walk_tags "A" seg_AB (init_tag "A" seg_AB) ["a1"; "b1"; "c1"]
    = Ok [Some "A"; Some "B"; Some "A"] ∧
  bi_c <$> get_time_bar_info AidName "A" seg_AB (set_of_list ["l"]) path_abc
    = Ok [["#84bd00"; "#efdf00"; "#84bd00"]].
Proof.
  split; [repeat constructor |].
  split; [by vm_compute |].
  repeat split; reflexivity.
Qed.

(** The three cases of the walk on [seg_AB]: [a2] stays under [A], [b1]
    leaves [A] for [B], [c1] leaves [B] for the default tag. *)
Lemma C2_sticky_walk_witness :
  next_tag seg_AB (init_tag "A" seg_AB) (Some "A") "a2" = Ok (Some "A") ∧
  next_tag seg_AB (init_tag "A" seg_AB) (Some "A") "b1" = Ok (Some "B") ∧
  next_tag seg_AB (init_tag "A" seg_AB) (Some "B") "c1" = Ok (Some "A").
Proof.
  split; [|split].
  - apply (proj1 (C2_sticky_walk (RE := MiniRe.engine) "A" seg_AB (Some "A") "a2" ltac:(discriminate))
             "A" re_a_any); reflexivity.
  - apply (proj1 (proj2 (C2_sticky_walk (RE := MiniRe.engine) "A" seg_AB (Some "A") "b1" ltac:(discriminate)))
             (or_intror (ex_intro _ "A" (ex_intro _ re_a_any
                (conj eq_refl (conj eq_refl eq_refl)))))
             [("A", re_a_any)] "B" re_b_any []).
    + reflexivity.
    + repeat constructor.
    + reflexivity.
  - apply (proj2 (proj2 (C2_sticky_walk (RE := MiniRe.engine) "A" seg_AB (Some "B") "c1" ltac:(discriminate)))
             (or_intror (ex_intro _ "B" (ex_intro _ re_b_any
                (conj eq_refl (conj eq_refl eq_refl)))))).
    repeat constructor.
Defined.

(** ** C3: the clock skew *)

(** The numbers [2.0], [1.2], [0.3] and [0.5] as [Decimal] reads them. *)
Example decimal_literals :
  Decimal "2.0" = Some (MiniDecimal.mk 20 (-1)) ∧
  Decimal "1.2" = Some (MiniDecimal.mk 12 (-1)) ∧
  Decimal "0.3" = Some (MiniDecimal.mk 3 (-1)) ∧
  Decimal "0.5" = Some (MiniDecimal.mk 5 (-1)).
Proof. repeat split; reflexivity. Qed.

(** C3. The skew of a path is its launch clock latency minus its capture
    clock latency minus its CRPR, in this order. For the latencies 2.0 and
    1.2 and the CRPR 0.3 the result is exactly 0.5: in binary64 arithmetic,
    where 1.2 and 0.3 are rounded and both subtractions round to nearest,
    and in decimal arithmetic. *)
#[warnings="-inexact-float"]
Theorem C3_clock_skew `{DL : DecimalLib} (lp cp : list Pin) (sp : option nat) :
  (∀ (PN : PyNumber) (path : TimePath),
     skew path = num_sub (num_sub (llat path) (clat path)) (crpr path)) ∧
  skew (mk_path (PN := PyFloat.numbers) lp cp sp 2.0%float 1.2%float 0.3%float)
    = 0.5%float ∧
  skew (mk_path (PN := MiniDecimal.numbers) lp cp sp
          (MiniDecimal.mk 20 (-1)) (MiniDecimal.mk 12 (-1)) (MiniDecimal.mk 3 (-1)))
    = MiniDecimal.mk 5 (-1).
Proof. repeat split; reflexivity. Qed.

(** ** C4, C5, C9: syntax errors *)

Section Errors.
Context `{RE : ReEngine} `{DL : DecimalLib} `{PS : PySet}.

Lemma line_ok_nonempty line : line_ok line = true → line ≠ "".
Proof. by intros H ->. Qed.

(** The first malformed line of a file ends the compilation with the
    error that carries its number, whatever follows it. *)
Lemma load_malformed pre raw rest c :
  load_lines 1 pre default_cfg = Ok c →
  strip_comment raw ≠ "" →
  line_ok (strip_comment raw) = false →
  load_times_cfg (Some (pre ++ raw :: rest))
  = Raise (SyntaxError (syntax_error_msg (S (length pre)))).
Proof.
  intros Hpre Hne Hbad. unfold load_times_cfg.
  destruct (process_line_raises _ c Hbad) as [e He].
  by rewrite (load_lines_raise 1 pre raw rest _ c e Hpre Hne He).
Qed.

(** C4, amended. A line with one colon whose key is none of the
    recognized keys raises nothing: the [try] block returns the
    configuration unchanged and the loop goes on with the next line, as
    for a blank line. *)
Theorem C4_unknown_key_is_ignored (fno : nat) (pre : list string)
    (raw : string) (rest : list string) (k v : string) (c : cons_cfg) :
  split_on ":" (strip_comment raw) = [k; v] →
  recognized (strip k) = false →
  strip_comment raw ≠ "" ∧
  (∀ c', process_line (strip_comment raw) c' = Ok c') ∧
  load_lines fno (pre ++ raw :: rest) c =
    (c' ← load_lines fno pre c; load_lines (S (fno + length pre)) rest c').
Proof.
  intros Hsplit Hkey.
  assert (Hne : strip_comment raw ≠ "").
  { intros E. by rewrite E in Hsplit. }
  assert (Hok : ∀ c', process_line (strip_comment raw) c' = Ok c').
  { intros c'. unfold process_line, split_key_value. rewrite Hsplit. simpl.
    by apply handle_unknown. }
  split; [done |]. split; [done |].
  rewrite load_lines_app.
  destruct (load_lines fno pre c) as [c'|e]; simpl; [|done].
  apply String.eqb_neq in Hne. by rewrite Hne, Hok.
Qed.

(** C5. A line whose key is recognized and whose value is malformed for
    the handler of that key, all lines before it being accepted, makes the
    compilation raise the syntax error with the 1-based number of that very
    line; no configuration is returned, and the lines after it play no
    part. *)
Theorem C5_malformed_value_aborts (pre : list string) (raw : string)
    (rest : list string) (k v : string) (c : cons_cfg) :
  load_lines 1 pre default_cfg = Ok c →
  split_on ":" (strip_comment raw) = [k; v] →
  recognized (strip k) = true →
  value_ok (strip k) (strip v) = false →
  load_times_cfg (Some (pre ++ raw :: rest))
    = Raise (SyntaxError (syntax_error_msg (S (length pre)))) ∧
  is_ok (load_times_cfg (Some (pre ++ raw :: rest))) = false.
Proof.
  intros Hpre Hsplit _ Hbad.
  assert (H : load_times_cfg (Some (pre ++ raw :: rest))
              = Raise (SyntaxError (syntax_error_msg (S (length pre))))).
  { apply (load_malformed pre raw rest c Hpre).
    - intros E. by rewrite E in Hsplit.
    - unfold line_ok. by rewrite Hsplit. }
  by rewrite H.
Qed.

(** C9. A line that, once its comment is removed, holds two colons or
    more makes the compilation raise the syntax error with the number of
    that line, whatever its key and its value are: [split(':')] cuts at
    every colon, and the unpacking wants two parts. *)
Theorem C9_second_colon_is_an_error (pre : list string) (raw : string)
    (rest : list string) (c : cons_cfg) :
  load_lines 1 pre default_cfg = Ok c →
  (2 ≤ count_char ":" (strip_comment raw))%nat →
  load_times_cfg (Some (pre ++ raw :: rest))
    = Raise (SyntaxError (syntax_error_msg (S (length pre)))).
Proof.
  intros Hpre Hcolons. apply (load_malformed pre raw rest c Hpre).
  - intros E. rewrite E in Hcolons. simpl in Hcolons. lia.
  - by apply line_ok_colons.
Qed.

End Errors.

(** C4 as stated fails: the key [foo] is not recognized, and the file
    compiles, to the default configuration. *)
Lemma C4_counterexample :
  recognized "foo" = false ∧
  load_times_cfg (Some ["foo: bar"]) = Ok (default_cfg, []) ∧
  ¬ ∃ msg, load_times_cfg (Some ["foo: bar"]) = Raise (SyntaxError msg).
Proof.
  split; [reflexivity |].
  assert (H : load_times_cfg (Some ["foo: bar"]) = Ok (default_cfg, []))
    by reflexivity.
  split; [exact H |]. rewrite H. by intros [msg Hmsg].
Qed.

(** A misspelt option between two valid lines: the file compiles as if the
    line were not there. *)
Lemma C4_unknown_key_witness :
  load_lines 1 ["pc: A a.*"; "path_segment_enabel: true"; "dpc: A"] default_cfg
  = (c' ← load_lines 1 ["pc: A a.*"] default_cfg; load_lines 3 ["dpc: A"] c').
Proof.
  apply (proj2 (proj2 (C4_unknown_key_is_ignored 1 ["pc: A a.*"]
    "path_segment_enabel: true" ["dpc: A"] "path_segment_enabel" " true"
    default_cfg eq_refl eq_refl))).
Defined.

(** The example of the specification, behind one valid line and before a
    line that is never read: the error names line 2. *)
Lemma C5_malformed_value_witness :
  load_times_cfg (Some (["pc: A a.*"] ++ "ckp: x foo" :: ["pc: B ("]))
  = Raise (SyntaxError "config syntax error (ln:2)").
Proof.
  eapply (λ c H, proj1 (C5_malformed_value_aborts ["pc: A a.*"] "ckp: x foo"
    ["pc: B ("] "ckp" " x foo" c H eq_refl eq_refl eq_refl)).
  reflexivity.
Defined.

(** The same line without its colon is no better. *)
Example ckp_without_colon :
  load_times_cfg (Some ["pc: A a.*"; "ckp x foo"])
  = Raise (SyntaxError "config syntax error (ln:2)").
Proof. reflexivity. Qed.

(** A pattern that holds a colon, on the third line. *)
Lemma C9_second_colon_witness :
  load_times_cfg (Some (["# rules"; "pc: A a.*"] ++ "cc: B b:.*" :: []))
  = Raise (SyntaxError "config syntax error (ln:3)").
Proof.
  eapply (C9_second_colon_is_an_error ["# rules"; "pc: A a.*"] "cc: B b:.*" []).
  - reflexivity.
  - vm_compute. lia.
Defined.

(** A colon behind the comment sign is not part of the line. *)
Example colon_in_comment :
  is_ok (load_times_cfg (Some ["pc: A a.* # note: first"])) = true.
Proof. reflexivity. Qed.

(** ** C10: the key ['re'] of the driving-cell table *)

Section DrivingCell.
Context `{RE : ReEngine} `{DL : DecimalLib} `{PS : PySet}.

(** The handler of [dc], lines 119 to 124. *)
Lemma handle_dc value c :
  handle "dc" value c =
  match split_ws value with
  | v1 :: v2 :: _ =>
      if String.eqb v1 "r" then
        mbind (M := result) (λ r, Ok (with_dc (<["re" := DcRe r]> (dc c)) c))
              (compile v2)
      else
        mbind (M := result) (λ d, Ok (with_dc (<[v2 := DcVal d]> (dc c)) c))
              (of_option (Decimal v1) InvalidOperation)
  | _ => Raise ValueError
  end.
Proof. reflexivity. Qed.

(** C10. The table [dc] is one mapping. A line [dc: r pattern] stores
    the compiled pattern under the key ['re'] and touches no other key; a
    line [dc: number re] stores the number under the same key. Whichever
    of the two lines comes second overwrites what the first one stored. *)
Theorem C10_re_key_is_shared (c : cons_cfg) (value_r value_n pat v : string)
    (rest_r rest_n : list string) (r : regex) (d : decimal) :
  split_ws value_r = "r" :: pat :: rest_r →
  re_compile pat = Some r →
  split_ws value_n = v :: "re" :: rest_n →
  v ≠ "r" →
  Decimal v = Some d →
  handle "dc" value_r c = Ok (with_dc (<["re" := DcRe r]> (dc c)) c) ∧
  handle "dc" value_n c = Ok (with_dc (<["re" := DcVal d]> (dc c)) c) ∧
  (∃ c1 c2, handle "dc" value_r c = Ok c1 ∧ handle "dc" value_n c1 = Ok c2 ∧
            dc c1 !! "re" = Some (DcRe r) ∧ dc c2 !! "re" = Some (DcVal d)) ∧
  (∃ c1 c2, handle "dc" value_n c = Ok c1 ∧ handle "dc" value_r c1 = Ok c2 ∧
            dc c1 !! "re" = Some (DcVal d) ∧ dc c2 !! "re" = Some (DcRe r)).
Proof.
  intros Hr Hpat Hn Hv Hd.
  assert (Er : ∀ c0, handle "dc" value_r c0
                     = Ok (with_dc (<["re" := DcRe r]> (dc c0)) c0)).
  { intros c0. rewrite handle_dc, Hr. simpl. unfold compile. by rewrite Hpat. }
  assert (En : ∀ c0, handle "dc" value_n c0
                     = Ok (with_dc (<["re" := DcVal d]> (dc c0)) c0)).
  { intros c0. rewrite handle_dc, Hn.
    apply String.eqb_neq in Hv. rewrite Hv, Hd. done. }
  split; [apply Er |]. split; [apply En |]. split.
  - eexists _, _. split; [apply Er |]. split; [apply En |]. simpl.
    rewrite insert_insert_eq. by rewrite !lookup_insert_eq.
  - eexists _, _. split; [apply En |]. split; [apply Er |]. simpl.
    rewrite insert_insert_eq. by rewrite !lookup_insert_eq.
Qed.

End DrivingCell.

(** The catch-all [x.*] and the number 1.5 for a cell called [re], in
    both orders. *)
Lemma C10_re_key_witness :
  (∃ c1 c2, handle "dc" "r x.*" default_cfg = Ok c1 ∧ handle "dc" "1.5 re" c1 = Ok c2 ∧
     dc c1 !! "re" = Some (DcRe [(MiniRe.Lit "x", false); (MiniRe.Any, true)]) ∧
     dc c2 !! "re" = Some (DcVal (MiniDecimal.mk 15 (-1)))) ∧
  (∃ c1 c2, handle "dc" "1.5 re" default_cfg = Ok c1 ∧ handle "dc" "r x.*" c1 = Ok c2 ∧
     dc c1 !! "re" = Some (DcVal (MiniDecimal.mk 15 (-1))) ∧
     dc c2 !! "re" = Some (DcRe [(MiniRe.Lit "x", false); (MiniRe.Any, true)])).
Proof.
  refine (proj2 (proj2 (C10_re_key_is_shared default_cfg "r x.*" "1.5 re" "x.*" "1.5"
    [] [] [(MiniRe.Lit "x", false); (MiniRe.Any, true)] (MiniDecimal.mk 15 (-1))
    eq_refl eq_refl eq_refl _ eq_refl))).
  discriminate.
Defined.

(** The same through the rules file. *)
Example dc_re_overwritten :
  ∃ c, load_times_cfg (Some ["dc: r x.*"; "dc: 1.5 re"]) = Ok (c, []) ∧
       dc c = {["re" := DcVal (MiniDecimal.mk 15 (-1))]}.
Proof. eexists. split; reflexivity. Qed.

(** ** C7: advisory messages *)

Section Advisories.
Context `{RE : ReEngine} `{DL : DecimalLib} `{PS : PySet} `{PN : PyNumber}.

(** What the loop over the launch path prints: the warnings of the cells
    it visits, and nothing else. *)
Lemma dc_launch_loop_out bar_ptype sp cid cells data db out :
  (dc_launch_loop bar_ptype sp cid cells data db out).2 =
  out ++ concat (map drv_warning (take
    match sp with
    | Some i =>
        if negb (set_mem "d" bar_ptype) && Nat.leb cid i
           && Nat.ltb i (cid + length cells)
        then S (i - cid) else length cells
    | None => length cells
    end cells)).
Proof.
  revert cid data db out.
  induction cells as [|p rest IH]; intros cid data db out; simpl.
  - rewrite take_nil. simpl. by rewrite app_nil_r.
  - case_bool_decide as Hsp.
    + subst sp. rewrite Nat.leb_refl, andb_true_r.
      assert (Nat.ltb cid (cid + S (length rest)) = true) as ->
        by (apply Nat.ltb_lt; lia).
      rewrite andb_true_r.
      destruct (set_mem "d" bar_ptype); simpl.
      * rewrite IH.
        assert (Nat.leb (S cid) cid = false) as -> by (apply Nat.leb_gt; lia).
        simpl. rewrite firstn_all. by rewrite <- app_assoc.
      * rewrite Nat.sub_diag. simpl. by rewrite app_nil_r.
    + rewrite IH. rewrite <- app_assoc. f_equal.
      destruct sp as [i|]; [|done].
      assert (i ≠ cid) by congruence.
      replace (S cid + length rest) with (cid + S (length rest)) by lia.
      destruct (set_mem "d" bar_ptype); [done |].
      destruct (Nat.leb_spec cid i), (Nat.leb_spec (S cid) i); try lia;
        destruct (Nat.ltb_spec i (cid + S (length rest))); try done.
      replace (i - cid) with (S (i - S cid)) by lia. done.
Qed.

(** The loop over the capture path keeps the value of every cell. *)
Lemma dc_bar_data_capture bar_ptype path :
  set_mem "c" bar_ptype = true →
  In ("Capture Cell Type", map drv (cpath path)) (dc_bar_data bar_ptype path).1.
Proof.
  intros Hc. unfold dc_bar_data.
  destruct (dc_launch_loop _ _ _ _ _ _ _) as [[ddata db] out].
  rewrite Hc. destruct ddata; simpl; rewrite !in_app_iff; simpl; tauto.
Qed.

Lemma dc_bar_data_out bar_ptype path :
  (dc_bar_data bar_ptype path).2 =
  concat (map drv_warning (take (launch_scanned bar_ptype path) (lpath path)))
  ++ (if set_mem "c" bar_ptype then concat (map drv_warning (cpath path)) else []).
Proof.
  unfold dc_bar_data.
  pose proof (dc_launch_loop_out bar_ptype (spin path) 0 (lpath path) [] [] []) as H.
  destruct (dc_launch_loop _ _ _ _ _ _ _) as [[ddata db] out]. simpl in H.
  subst out. unfold launch_scanned.
  assert (E : match spin path with
              | Some i => if negb (set_mem "d" bar_ptype) && true
                             && Nat.ltb i (length (lpath path))
                          then S (i - 0) else length (lpath path)
              | None => length (lpath path)
              end = match spin path with
              | Some i => if negb (set_mem "d" bar_ptype)
                             && Nat.ltb i (length (lpath path))
                          then S i else length (lpath path)
              | None => length (lpath path)
              end).
  { destruct (spin path); [|done]. rewrite andb_true_r, Nat.sub_0_r. done. }
  rewrite E.
  destruct (set_mem "c" bar_ptype); destruct ddata; simpl; by rewrite ?app_nil_r.
Qed.

(** C7. The three advisory conditions print a message and let the
    computation go on:
    - a default tag that is no key of [pc] is dropped: the compilation
      succeeds, with [dpc] unset and one message printed;
    - a [-bars] tag that the configuration does not define prints the
      warning, and the rest of [report_summary] runs as if the option had
      not been given;
    - in the driving-cell series, the output consists of one warning for
      each visited cell whose value is negative, and the series keep the
      values of those cells like any other. *)
Theorem C7_advisories_are_not_fatal :
  (∀ (fp : list string) (c : cons_cfg) (t : string),
     load_lines 1 fp default_cfg = Ok c →
     dpc c = Some t → PyDict.mem t (pc c) = false →
     load_times_cfg (Some fp) = Ok (with_dpc None c, [dpc_info_msg])) ∧
  (∀ (c : cons_cfg) (tag : string) (bar_dtype bar_ptype : option (list string)),
     bds c !! tag = None →
     bar_chart_request c (Some tag) bar_dtype bar_ptype
     = ((bar_chart_request c None bar_dtype bar_ptype).1, [bars_warning_msg])) ∧
  (∀ (bar_ptype : pyset) (path : TimePath),
     (dc_bar_data bar_ptype path).2 =
       concat (map drv_warning (take (launch_scanned bar_ptype path) (lpath path)))
       ++ (if set_mem "c" bar_ptype
           then concat (map drv_warning (cpath path)) else []) ∧
     (set_mem "c" bar_ptype = true →
        In ("Capture Cell Type", map drv (cpath path)) (dc_bar_data bar_ptype path).1) ∧
     (∀ p, dec_neg (drv p) = true → drv_warning p = [unknown_drv_msg p])).
Proof.
  split; [|split].
  - intros fp c t Hload Hdpc Hmem. unfold load_times_cfg. rewrite Hload. simpl.
    unfold check_dpc. by rewrite Hdpc, Hmem.
  - intros c tag bd bp Hnone. unfold bar_chart_request, select_bar_dtype.
    rewrite Hnone.
    destruct (negb (size (bds c) =? 0)%nat); simpl;
      by destruct (set_is_empty _).
  - intros bar_ptype path. split; [apply dc_bar_data_out |].
    split; [apply dc_bar_data_capture |].
    intros p Hneg. unfold drv_warning. by rewrite Hneg.
Qed.

End Advisories.

(** ** C6: the order of the rules *)


Section RuleOrder.
Context `{RE : ReEngine} `{DL : DecimalLib} `{PS : PySet}.

Lemma attr_not_handler key :
  PyDict.mem key attr = true → existsb (String.eqb key) handler_keys = false.
Proof.
  unfold PyDict.mem. destruct (PyDict.get key attr) as [[nm d]|] eqn:E; [|done].
  intros _. apply attr_get_In in E. unfold attr in E.
  repeat (destruct E as [E | E]; [by inversion E |]).
  destruct E.
Qed.

(** One accepted pair [key], [value] changes the three rule tables by the
    rule it declares, and by nothing else. *)
Lemma handle_tables key value c c' :
  handle key value c = Ok c' →
  pc c' = table_after (rule_of "pc" key value) (pc c) ∧
  cc c' = table_after (rule_of "cc" key value) (cc c) ∧
  ckt c' = ckt c ++ option_list (ckt_rule_of key value).
Proof.
  unfold handle, rule_of, ckt_rule_of.
  destruct (PyDict.get key attr) as [[nm d]|] eqn:Hattr.
  { assert (H : existsb (String.eqb key) handler_keys = false).
    { apply attr_not_handler. unfold PyDict.mem. by rewrite Hattr. }
    simpl in H. repeat (apply orb_false_elim in H as [? H]).
    repeat match goal with E : String.eqb key _ = false |- _ => rewrite E; clear E end.
    case_match; intros [= <-]; simpl; by rewrite app_nil_r. }
  destruct (String.eqb_spec key "bds") as [-> | _].
  { simpl. destruct (split_ws value); [done |]. intros [= <-]. simpl.
    by rewrite app_nil_r. }
  destruct (String.eqb_spec key "ckt") as [-> | _].
  { simpl. destruct (split_ws value) as [|tag [|pat [|? ?]]]; try done.
    unfold compile. destruct (re_compile pat) as [r|]; simpl; [|done].
    destruct (String.eqb (lower tag) "y"); [by intros [= <-] |].
    destruct (String.eqb (lower tag) "n"); [by intros [= <-] | done]. }
  destruct (String.eqb_spec key "ckp") as [-> | _].
  { simpl. destruct (split_ws value) as [|type_ pat]; [done |].
    destruct (String.eqb type_ "c"); [intros [= <-]; simpl; by rewrite app_nil_r |].
    destruct (String.eqb type_ "i"); [intros [= <-]; simpl; by rewrite app_nil_r |].
    destruct (String.eqb type_ "r"); [|done].
    destruct (map_result compile pat); simpl; [|done].
    intros [= <-]. simpl. by rewrite app_nil_r. }
  destruct (String.eqb_spec key "ckm") as [-> | _].
  { simpl. destruct (split_ws value) as [|p0 ?]; [done |].
    destruct (compile p0); simpl; [|done].
    intros [= <-]. simpl. by rewrite app_nil_r. }
  destruct (String.eqb_spec key "dpc") as [-> | _].
  { simpl. intros [= <-]. simpl. by rewrite app_nil_r. }
  destruct (String.eqb_spec key "pc") as [-> | _].
  { simpl. destruct (split_ws value) as [|tag [|pat [|? ?]]]; try done.
    unfold compile. destruct (re_compile pat) as [r|]; simpl; [|done].
    intros [= <-]. simpl. by rewrite app_nil_r. }
  destruct (String.eqb_spec key "cc") as [-> | _].
  { simpl. destruct (split_ws value) as [|tag [|pat [|? ?]]]; try done.
    unfold compile. destruct (re_compile pat) as [r|]; simpl; [|done].
    intros [= <-]. simpl. by rewrite app_nil_r. }
  destruct (String.eqb_spec key "dc") as [-> | _].
  { simpl. destruct (split_ws value) as [|v1 [|v2 ?]]; try done.
    destruct (String.eqb v1 "r").
    - destruct (compile v2); simpl; [|done]. intros [= <-]. simpl. by rewrite app_nil_r.
    - destruct (Decimal v1); simpl; [|done]. intros [= <-]. simpl. by rewrite app_nil_r. }
  destruct (String.eqb_spec key "hcd") as [-> | _].
  { simpl.
    match goal with |- context [mbind _ ?m] => destruct m as [fields|] end;
      simpl; [|done].
    destruct fields as [|? [|? [|? [|? [|? ?]]]]]; try done.
    intros [= <-]. simpl. by rewrite app_nil_r. }
  intros [= <-]. simpl. by rewrite app_nil_r.
Qed.

Lemma process_line_tables raw c c' :
  process_line (strip_comment raw) c = Ok c' →
  pc c' = table_after (table_decl "pc" raw) (pc c) ∧
  cc c' = table_after (table_decl "cc" raw) (cc c) ∧
  ckt c' = ckt c ++ option_list (ckt_decl raw).
Proof.
  unfold process_line, split_key_value, table_decl, ckt_decl.
  destruct (split_on ":" (strip_comment raw)) as [|k [|v [|? ?]]]; simpl; try done.
  apply handle_tables.
Qed.

Lemma blank_declares_nothing raw :
  strip_comment raw = "" →
  table_decl "pc" raw = None ∧ table_decl "cc" raw = None ∧ ckt_decl raw = None.
Proof. unfold table_decl, ckt_decl. by intros ->. Qed.

(** The loop builds the three tables from the declarations of the lines,
    in the order of the lines. *)
Lemma load_lines_tables fno fp c c' :
  load_lines fno fp c = Ok c' →
  pc c' = fold_left (λ d e, PyDict.set e.1 e.2 d) (table_decls "pc" fp) (pc c) ∧
  cc c' = fold_left (λ d e, PyDict.set e.1 e.2 d) (table_decls "cc" fp) (cc c) ∧
  ckt c' = ckt c ++ ckt_decls fp.
Proof.
  unfold table_decls, ckt_decls.
  revert fno c. induction fp as [|raw fp IH]; intros fno c; simpl.
  - intros [= <-]. by rewrite app_nil_r.
  - destruct (String.eqb_spec (strip_comment raw) "") as [Hblank | Hline].
    + destruct (blank_declares_nothing raw Hblank) as (-> & -> & ->).
      apply IH.
    + destruct (process_line (strip_comment raw) c) as [c1|e] eqn:Hstep; [|done].
      intros Hrest. destruct (IH _ _ Hrest) as (Hpc & Hcc & Hckt).
      destruct (process_line_tables raw c c1 Hstep) as (Hpc1 & Hcc1 & Hckt1).
      rewrite Hpc, Hcc, Hckt, Hpc1, Hcc1, Hckt1.
      repeat split.
      * by destruct (table_decl "pc" raw).
      * by destruct (table_decl "cc" raw).
      * destruct (ckt_decl raw); simpl; [|by rewrite app_nil_r].
        by rewrite <- app_assoc.
Qed.

Lemma load_times_cfg_tables fp c out :
  load_times_cfg (Some fp) = Ok (c, out) →
  pc c = table_of (table_decls "pc" fp) ∧
  cc c = table_of (table_decls "cc" fp) ∧
  ckt c = ckt_decls fp.
Proof.
  unfold load_times_cfg.
  destruct (load_lines 1 fp default_cfg) as [c0|e] eqn:Hload; simpl; [|done].
  destruct (load_lines_tables _ _ _ _ Hload) as (Hpc & Hcc & Hckt).
  unfold check_dpc.
  destruct (dpc c0); [destruct (negb _) |]; intros [= <- <-]; by simpl.
Qed.

(** C6, amended. After a rules file has compiled:
    - [ckt] is the list of the [ckt] rules of the file, in the order of
      their lines, repeated rules included;
    - [pc] and [cc] hold the tags in the order of their first declaration,
      each with the pattern of its last declaration: a later line for a tag
      that exists replaces the pattern where the tag stands;
    - the lookup of [get_time_bar_info] returns the first entry, in that
      order, whose pattern full-matches;
    - so, when no tag of the table is declared twice, the table is the list
      of its declarations and the lookup returns the earliest declared rule
      that matches. *)
Theorem C6_first_match_in_table_order (fp : list string) (c : cons_cfg)
    (out : list string) :
  load_times_cfg (Some fp) = Ok (c, out) →
  ckt c = ckt_decls fp ∧
  (∀ key table, (key = "pc" ∧ table = pc c) ∨ (key = "cc" ∧ table = cc c) →
     let decls := table_decls key fp in
     table = table_of decls ∧
     PyDict.keys table = first_tags (map fst decls) ∧
     (∀ t, PyDict.get t table = last_decl t decls) ∧
     (∀ s k, first_match table s = Some k ↔
        ∃ l1 r l2, table = l1 ++ (k, r) :: l2 ∧ none_matches l1 s
                   ∧ re_fullmatch r s = true) ∧
     (∀ s, first_match table s = None ↔ none_matches table s) ∧
     (NoDup (map fst decls) →
        table = decls ∧ ∀ s, first_match table s = first_match decls s)).
Proof.
  intros Hload.
  destruct (load_times_cfg_tables fp c out Hload) as (Hpc & Hcc & Hckt).
  split; [done |].
  intros key table Hkey decls.
  assert (Htable : table = table_of decls).
  { destruct Hkey as [[-> ->] | [-> ->]]; done. }
  destruct (table_of_spec decls) as (Hkeys & Hget & Hnodup).
  rewrite Htable.
  split; [done |]. split; [done |]. split; [done |].
  split; [intros s k; apply first_match_Some |].
  split; [intros s; apply first_match_None |].
  intros Hnd. by rewrite (Hnodup Hnd).
Qed.

End RuleOrder.

(** C6 as stated fails. Of the two rules that match [a1], the rule of [B]
    is declared on line 2 and the rule of [A] on line 3; the table keeps
    [A] at the place of its first declaration, and the lookup answers [A],
    the rule declared later. *)
Lemma C6_counterexample :
  ∃ c, load_times_cfg (Some rules_A_B_A) = Ok (c, []) ∧
       table_decls "pc" rules_A_B_A
         = [("A", [(MiniRe.Lit "x", false)]); ("B", re_a_any); ("A", re_a_any)] ∧
       pc c = [("A", re_a_any); ("B", re_a_any)] ∧
       first_match (table_decls "pc" rules_A_B_A) "a1" = Some "B" ∧
       first_match (pc c) "a1" = Some "A" ∧
       first_match (pc c) "a1" ≠ first_match (table_decls "pc" rules_A_B_A) "a1".
Proof.
  eexists. split; [reflexivity |].
  repeat split; try reflexivity. by vm_compute.
Qed.

Lemma C6_first_match_witness :
  ∃ c, load_times_cfg (Some rules_overlap) = Ok (c, []) ∧
       ckt c = [(true, re_a_any); (false, [(MiniRe.Any, true)])] ∧
       pc c = [("A", re_a_any); ("B", [(MiniRe.Any, true); (MiniRe.Lit "b", false)])] ∧
       first_match (pc c) "ab" = Some "A".
Proof.
  eexists. split; [reflexivity |].
  match goal with |- ckt ?c = _ ∧ _ =>
    destruct (C6_first_match_in_table_order rules_overlap c [] eq_refl)
      as (Hckt & Htab)
  end.
  split; [exact Hckt |].
  destruct (Htab "pc" _ (or_introl (conj eq_refl eq_refl)))
    as (_ & _ & _ & _ & _ & Hnodup).
  destruct Hnodup as (Hpc & Hfirst).
  - compute_done.
  - split; [exact Hpc |]. rewrite Hfirst. reflexivity.
Defined.

(** The three advisories on concrete inputs: a default tag [Z] that [pc]
    does not define, a [-bars] tag with no [bds] line, and the path
    [path_unknown_drv] drawn with its data and capture parts. *)
Lemma C7_advisories_witness :
  (∃ c, load_times_cfg (Some ["pc: A a.*"; "dpc: Z"]) = Ok (c, [dpc_info_msg])
        ∧ dpc c = None ∧ pc c = [("A", re_a_any)]) ∧
  bar_chart_request default_cfg (Some "fast") (Some ["p"]) None
    = (Some (set_of_list ["p"], set_of_list ["f"; "d"]), [bars_warning_msg]) ∧
  dc_bar_data (set_of_list ["c"; "d"]) path_unknown_drv
    = ([("Capture Cell Type", [MiniDecimal.mk (-1) 0]);
        ("Path Cell Type", [MiniDecimal.mk 2 0; MiniDecimal.mk (-1) 0])],
       ["WARNING: Unknown driving cell. (XYZ, ln:12)";
        "WARNING: Unknown driving cell. (PQR, ln:20)"]).
Proof.
  destruct (C7_advisories_are_not_fatal (PN := MiniDecimal.numbers))
    as (Hdpc & Hbars & Hdrv).
  split; [|split].
  - eexists. split.
    + eapply Hdpc; reflexivity.
    + split; reflexivity.
  - rewrite Hbars; reflexivity.
  - destruct (Hdrv (set_of_list ["c"; "d"]) path_unknown_drv) as (Hout & _).
    rewrite (surjective_pairing (dc_bar_data _ _)), Hout. reflexivity.
Defined.

(** ** C8: determinism *)

Section Determinism.
Context `{RE : ReEngine} `{DL : DecimalLib}.
Context {PS1 PS2 : PySet}.


Lemma set_update_equiv l (s1 : @pyset PS1) (s2 : @pyset PS2) :
  set_equiv s1 s2 → set_equiv (set_update l s1) (set_update l s2).
Proof.
  unfold set_update. revert s1 s2.
  induction l as [|y l IH]; intros s1 s2 H; simpl; [done |].
  apply IH. intros x. by rewrite !set_mem_add, H.
Qed.

Lemma default_cfg_equiv :
  cfg_equiv (default_cfg (PS := PS1)) (default_cfg (PS := PS2)).
Proof.
  unfold cfg_equiv, set_equiv. simpl.
  repeat split; try done; intros x; by rewrite !set_mem_empty.
Qed.

Lemma cfg_equiv_decisions (c1 : @cons_cfg RE DL PS1)
    (c2 : @cons_cfg RE DL PS2) : cfg_equiv c1 c2 → same_decisions c1 c2.
Proof.
  intros (_ & _ & Hc & Hi & Hr & _ & _ & _ & _ & Hpc & Hcc & _).
  unfold same_decisions. rewrite Hr, Hpc, Hcc. by repeat split.
Qed.

(** A handler does the same to two equal configurations. *)
Lemma handle_equiv key value (c1 : @cons_cfg RE DL PS1)
    (c2 : @cons_cfg RE DL PS2) :
  cfg_equiv c1 c2 →
  result_equiv cfg_equiv (handle key value c1) (handle key value c2).
Proof.
  intros (Hf & Hb & Hc & Hi & Hr & Hh & Ht & Hm & Hd & Hpc & Hcc & Hdc).
  pose proof (λ l, set_update_equiv l _ _ Hc) as Hc'.
  pose proof (λ l, set_update_equiv l _ _ Hi) as Hi'.
  assert (Hleaf : ∀ f g b h t m d p q x,
    result_equiv cfg_equiv
      (Ok (mk_cfg (f (flags c1)) (g (bds c1)) (ckpc c1) (ckpi c1) (b (ckpr c1))
                  (h (hcd c1)) (t (ckt c1)) (m (ckm c1)) (d (dpc c1))
                  (p (pc c1)) (q (cc c1)) (x (dc c1))))
      (Ok (mk_cfg (f (flags c2)) (g (bds c2)) (ckpc c2) (ckpi c2) (b (ckpr c2))
                  (h (hcd c2)) (t (ckt c2)) (m (ckm c2)) (d (dpc c2))
                  (p (pc c2)) (q (cc c2)) (x (dc c2))))).
  { intros. simpl. unfold cfg_equiv. simpl.
    rewrite Hf, Hb, Hr, Hh, Ht, Hm, Hd, Hpc, Hcc, Hdc. by repeat split. }
  unfold handle.
  destruct (PyDict.get key attr) as [[nm d]|].
  { case_match.
    - apply (Hleaf (λ m, <[nm := negb d]> m) id id id id id id id id id).
    - apply (Hleaf (λ m, <[nm := d]> m) id id id id id id id id id). }
  destruct (String.eqb key "bds").
  { destruct (split_ws value) as [|tg pat]; [done |].
    apply (Hleaf id (λ m, <[tg := pat]> m) id id id id id id id id). }
  destruct (String.eqb key "ckt").
  { destruct (split_ws value) as [|tg [|pat [|? ?]]]; try done.
    destruct (compile pat) as [r|]; simpl; [|done].
    destruct (String.eqb (lower tg) "y").
    { apply (Hleaf id id id id (λ l, l ++ [(true, r)]) id id id id id). }
    destruct (String.eqb (lower tg) "n"); [|done].
    apply (Hleaf id id id id (λ l, l ++ [(false, r)]) id id id id id). }
  destruct (String.eqb key "ckp").
  { destruct (split_ws value) as [|type_ pat]; [done |].
    destruct (String.eqb type_ "c").
    { simpl. unfold cfg_equiv. simpl. by repeat split. }
    destruct (String.eqb type_ "i").
    { simpl. unfold cfg_equiv. simpl. by repeat split. }
    destruct (String.eqb type_ "r"); [|done].
    destruct (map_result compile pat) as [rs|]; simpl; [|done].
    apply (Hleaf id id (λ l, l ++ rs) id id id id id id id). }
  destruct (String.eqb key "ckm").
  { destruct (split_ws value) as [|p0 ?]; [done |].
    destruct (compile p0) as [r|]; simpl; [|done].
    apply (Hleaf id id id id id (λ l, l ++ [r]) id id id id). }
  destruct (String.eqb key "dpc").
  { apply (Hleaf id id id id id id (λ _, Some value) id id id). }
  destruct (String.eqb key "pc").
  { destruct (split_ws value) as [|tg [|pat [|? ?]]]; try done.
    destruct (compile pat) as [r|]; simpl; [|done].
    apply (Hleaf id id id id id id id (PyDict.set tg r) id id). }
  destruct (String.eqb key "cc").
  { destruct (split_ws value) as [|tg [|pat [|? ?]]]; try done.
    destruct (compile pat) as [r|]; simpl; [|done].
    apply (Hleaf id id id id id id id id (PyDict.set tg r) id). }
  destruct (String.eqb key "dc").
  { destruct (split_ws value) as [|v1 [|v2 ?]]; try done.
    destruct (String.eqb v1 "r").
    - destruct (compile v2) as [r|]; simpl; [|done].
      apply (Hleaf id id id id id id id id id (λ m, <["re" := DcRe r]> m)).
    - destruct (Decimal v1) as [x|]; simpl; [|done].
      apply (Hleaf id id id id id id id id id (λ m, <[v2 := DcVal x]> m)). }
  destruct (String.eqb key "hcd"); [|apply (Hleaf id id id id id id id id id id)].
  match goal with |- context [mbind _ ?m] => destruct m as [fields|] end;
    simpl; [|done].
  destruct fields as [|ty [|pi [|po [|tg [|? ?]]]]]; try done.
  rewrite Hh.
  apply (Hleaf id id id
           (λ _, <[ty := <[pi +:+ ":" +:+ po := tg]> (default ∅ (hcd c2 !! ty))]> (hcd c2))
           id id id id id id).
Qed.

Lemma load_lines_equiv fno fp (c1 : @cons_cfg RE DL PS1)
    (c2 : @cons_cfg RE DL PS2) :
  cfg_equiv c1 c2 →
  result_equiv cfg_equiv (load_lines fno fp c1) (load_lines fno fp c2).
Proof.
  revert fno c1 c2. induction fp as [|raw fp IH]; intros fno c1 c2 H; simpl.
  - done.
  - destruct (String.eqb (strip_comment raw) ""); [by apply IH |].
    unfold process_line.
    destruct (split_key_value (strip_comment raw)) as [[k v]|e]; simpl; [|done].
    pose proof (handle_equiv k v c1 c2 H) as Hstep.
    destruct (handle k v c1), (handle k v c2); simpl in *; try done.
    by apply IH.
Qed.

Lemma check_dpc_equiv (c1 : @cons_cfg RE DL PS1)
    (c2 : @cons_cfg RE DL PS2) :
  cfg_equiv c1 c2 →
  cfg_equiv (check_dpc c1).1 (check_dpc c2).1 ∧ (check_dpc c1).2 = (check_dpc c2).2.
Proof.
  intros H. pose proof H as (Hf & Hb & Hc & Hi & Hr & Hh & Ht & Hm & Hd & Hpc & Hcc & Hdc).
  unfold check_dpc. rewrite Hd, Hpc.
  destruct (dpc c2); [destruct (negb _) |]; simpl; try done.
Qed.

(** C8. Two runs of the compiler on the same rules file, whatever the
    two runs' implementations of [set] are, end alike: either both raise
    the same error, or both return configurations that are equal as Python
    compares them (the same options, lists and tables, and sets with the
    same elements), with the same messages printed, and the two
    configurations give the same decisions for every name. *)
Theorem C8_compilation_is_deterministic (cfg_fp : option (list string)) :
  result_equiv
    (λ r1 r2, cfg_equiv r1.1 r2.1 ∧ r1.2 = r2.2 ∧ same_decisions r1.1 r2.1)
    (load_times_cfg (PS := PS1) cfg_fp)
    (load_times_cfg (PS := PS2) cfg_fp).
Proof.
  unfold load_times_cfg. destruct cfg_fp as [fp|]; simpl.
  - pose proof (load_lines_equiv 1 fp _ _ default_cfg_equiv) as H.
    destruct (load_lines 1 fp default_cfg) as [c1|e1],
             (load_lines 1 fp default_cfg) as [c2|e2]; simpl in *; try done.
    destruct (check_dpc_equiv c1 c2 H) as [Hc Hout].
    split; [done |]. split; [done |]. by apply cfg_equiv_decisions.
  - split; [apply default_cfg_equiv |]. split; [done |].
    apply cfg_equiv_decisions, default_cfg_equiv.
Qed.

End Determinism.

(** The same file compiled with the two implementations of [set]: the set
    of clock cells is laid out differently in the two runs. *)
Example clock_cells_in_list_set :
  (λ r, ckpc r.1) <$> load_times_cfg (PS := ListSet.impl) (Some rules_sets)
  = Ok ["u2"; "u1"].
Proof. vm_compute. reflexivity. Qed.

Example clock_cells_in_stack_set :
  (λ r, ckpc r.1) <$> load_times_cfg (PS := StackSet.impl) (Some rules_sets)
  = Ok ["u1"; "u2"].
Proof. vm_compute. reflexivity. Qed.

(** The two runs end alike all the same. *)
Lemma C8_two_runs_witness :
  result_equiv
    (λ r1 r2, cfg_equiv r1.1 r2.1 ∧ r1.2 = r2.2 ∧ same_decisions r1.1 r2.1)
    (load_times_cfg (PS := ListSet.impl) (Some rules_sets))
    (load_times_cfg (PS := StackSet.impl) (Some rules_sets)).
Proof.
  exact (C8_compilation_is_deterministic (PS1 := ListSet.impl)
           (PS2 := StackSet.impl) (Some rules_sets)).
Defined.

(** * utils/common.py: [str2int] *)

Section Str2Int.
Context `{PI : PyInt}.
Import Common.
Local Open Scope Z_scope.

Lemma shiftr_zero_iff num bits :
  0 ≤ bits → (Z.shiftr num bits = 0 ↔ 0 ≤ num < 2 ^ bits).
Proof.
  intros Hb. rewrite Z.shiftr_div_pow2 by done.
  assert (0 < 2 ^ bits) by (apply Z.pow_pos_nonneg; lia).
  split.
  - intros H0. apply Z.div_small_iff in H0; lia.
  - intros H0. by apply Z.div_small.
Qed.

(** Setting all the bits from [bits] upwards of a [bits]-bit number
    subtracts [2 ^ bits] from it. *)
Lemma lor_high_bits num bits :
  0 ≤ bits → 0 ≤ num < 2 ^ bits →
  Z.lor num (Z.lnot (2 ^ bits - 1)) = num - 2 ^ bits.
Proof.
  intros Hb Hnum.
  assert (E : Z.lnot (2 ^ bits - 1) = - 2 ^ bits).
  { unfold Z.lnot. lia. }
  rewrite E. symmetry. rewrite <- Z.add_opp_r.
  apply Z.add_nocarry_lor.
  rewrite <- E. replace (2 ^ bits - 1) with (Z.ones bits)
    by (rewrite Z.ones_equiv; lia).
  rewrite <- Z.ldiff_land, Z.ldiff_ones_r by done.
  assert (Z.shiftr num bits = 0) as -> by by apply shiftr_zero_iff.
  apply Z.shiftl_0_l.
Qed.

Lemma sign_bit num bits :
  0 < bits → 0 ≤ num < 2 ^ bits →
  Z.shiftr num (bits - 1) = if num <? 2 ^ (bits - 1) then 0 else 1.
Proof.
  intros Hb Hnum. rewrite Z.shiftr_div_pow2 by lia.
  assert (Hp : 2 ^ bits = 2 * 2 ^ (bits - 1)).
  { rewrite <- Z.pow_succ_r by lia. f_equal. lia. }
  assert (0 < 2 ^ (bits - 1)) by (apply Z.pow_pos_nonneg; lia).
  destruct (Z.ltb_spec num (2 ^ (bits - 1))).
  - apply Z.div_small. lia.
  - symmetry. apply (Z.div_unique num _ 1 (num - 2 ^ (bits - 1))); lia.
Qed.

(** The hexadecimal branch, for a literal of value [num]. *)
Lemma str2int_hex str_ is_signed bits num :
  is_hex str_ = true → int_of_str 16 str_ = Some num → 0 < bits →
  str2int str_ is_signed bits =
    if (0 <=? num) && (num <? 2 ^ bits)
    then Ok (if is_signed && negb (num <? 2 ^ (bits - 1))
             then num - 2 ^ bits else num)
    else Raise ValueError.
Proof.
  intros Hhex Hnum Hb. unfold str2int.
  rewrite Hhex, Hnum. simpl. unfold py_shiftr, py_shiftl.
  destruct (Z.ltb_spec bits 0); [lia |]. simpl.
  destruct (Z.eqb_spec (Z.shiftr num bits) 0) as [H0 | H0]; simpl.
  - apply shiftr_zero_iff in H0; [|lia].
    destruct (Z.leb_spec 0 num), (Z.ltb_spec num (2 ^ bits)); try lia. simpl.
    destruct is_signed; [|done]. simpl.
    destruct (Z.ltb_spec (bits - 1) 0); [lia |]. simpl.
    rewrite (sign_bit num bits) by lia.
    destruct (Z.ltb_spec num (2 ^ (bits - 1))); simpl.
    + rewrite Z.shiftl_0_l. simpl. by rewrite Z.lor_0_r.
    + rewrite Z.shiftl_1_l. by rewrite lor_high_bits by lia.
  - destruct (Z.leb_spec 0 num), (Z.ltb_spec num (2 ^ bits)); try done.
    exfalso. apply H0. apply shiftr_zero_iff; lia.
Qed.

(** The decimal branch, for a string of value [num]. *)
Lemma str2int_dec str_ is_signed bits num :
  is_hex str_ = false → int_of_str 10 str_ = Some num → 0 < bits →
  str2int str_ is_signed bits =
    if fits is_signed bits num then Ok num else Raise ValueError.
Proof.
  intros Hhex Hnum Hb. unfold str2int, fits.
  rewrite Hhex, Hnum. simpl. unfold py_shiftl.
  assert (0 < 2 ^ (bits - 1)) by (apply Z.pow_pos_nonneg; lia).
  assert (0 < 2 ^ bits) by (apply Z.pow_pos_nonneg; lia).
  destruct is_signed; simpl.
  - destruct (Z.ltb_spec (bits - 1) 0); [lia |].
    rewrite Z.shiftl_1_l.
    destruct (Z.ltb_spec 0 num); simpl.
    + destruct (Z.leb_spec (- 2 ^ (bits - 1)) num); [|lia]. simpl.
      destruct (Z.geb_spec (Z.abs num) (2 ^ (bits - 1))),
               (Z.ltb_spec num (2 ^ (bits - 1))); try done; lia.
    + destruct (Z.ltb_spec num 0); simpl.
      * destruct (Z.ltb_spec num (2 ^ (bits - 1))); [|lia].
        rewrite andb_true_r.
        destruct (Z.gtb_spec (Z.abs num) (2 ^ (bits - 1))),
                 (Z.leb_spec (- 2 ^ (bits - 1)) num); try done; lia.
      * destruct (Z.leb_spec (- 2 ^ (bits - 1)) num),
                 (Z.ltb_spec num (2 ^ (bits - 1))); try done; lia.
  - destruct (Z.ltb_spec bits 0); [lia |].
    rewrite Z.shiftl_1_l.
    destruct (Z.ltb_spec num 0); simpl.
    + destruct (Z.leb_spec 0 num); [lia | done].
    + destruct (Z.leb_spec 0 num); [|lia]. simpl.
      destruct (Z.ltb_spec 0 num); simpl.
      * destruct (Z.geb_spec (Z.abs num) (2 ^ bits)),
                 (Z.ltb_spec num (2 ^ bits)); try done; lia.
      * destruct (Z.ltb_spec num (2 ^ bits)); [done | lia].
Qed.

(** A hexadecimal literal read as a signed number of [bits] bits is
    accepted exactly when its value fits [bits] bits unsigned, and the
    result is the two's complement reading of that value. *)
Theorem str2int_hex_twos_complement (str_ : string) (bits num : Z) :
  is_hex str_ = true →
  int_of_str 16 str_ = Some num →
  0 < bits →
  str2int str_ true bits =
    if fits false bits num
    then Ok (if num <? 2 ^ (bits - 1) then num else num - 2 ^ bits)
    else Raise ValueError.
Proof.
  intros Hhex Hnum Hb. rewrite (str2int_hex _ _ _ _ Hhex Hnum Hb).
  unfold fits. simpl. by destruct (num <? 2 ^ (bits - 1)).
Qed.

(** A decimal string is accepted exactly when its value fits: between 0
    and [2 ^ bits - 1] unsigned, between [- 2 ^ (bits - 1)] and
    [2 ^ (bits - 1) - 1] signed; the value is returned unchanged, and
    anything else raises [ValueError]. *)
Theorem str2int_decimal_bounds (str_ : string) (is_signed : bool) (bits num : Z) :
  is_hex str_ = false →
  int_of_str 10 str_ = Some num →
  0 < bits →
  str2int str_ is_signed bits =
    if is_signed
    then (if (- 2 ^ (bits - 1) <=? num) && (num <? 2 ^ (bits - 1))
          then Ok num else Raise ValueError)
    else (if (0 <=? num) && (num <? 2 ^ bits)
          then Ok num else Raise ValueError).
Proof.
  intros Hhex Hnum Hb. rewrite (str2int_dec _ _ _ _ Hhex Hnum Hb).
  unfold fits. by destruct is_signed.
Qed.

(** Whatever the string is, a result fits the requested width. *)
Theorem str2int_result_fits (str_ : string) (is_signed : bool) (bits r : Z) :
  0 < bits →
  str2int str_ is_signed bits = Ok r →
  fits is_signed bits r = true.
Proof.
  intros Hb. destruct (is_hex str_) eqn:Hhex.
  - destruct (int_of_str 16 str_) as [num|] eqn:Hnum.
    + rewrite (str2int_hex _ _ _ _ Hhex Hnum Hb).
      assert (Hp : 2 ^ bits = 2 * 2 ^ (bits - 1)).
      { rewrite <- Z.pow_succ_r by lia. f_equal. lia. }
      destruct (Z.leb_spec 0 num), (Z.ltb_spec num (2 ^ bits)); simpl; try done.
      intros [= <-]. unfold fits. destruct is_signed; simpl.
      * destruct (Z.ltb_spec num (2 ^ (bits - 1))); simpl;
          apply andb_true_iff; split;
          [apply Z.leb_le | apply Z.ltb_lt | apply Z.leb_le | apply Z.ltb_lt]; lia.
      * apply andb_true_iff. split; [apply Z.leb_le | apply Z.ltb_lt]; lia.
    + unfold str2int. by rewrite Hhex, Hnum.
  - destruct (int_of_str 10 str_) as [num|] eqn:Hnum.
    + rewrite (str2int_dec _ _ _ _ Hhex Hnum Hb).
      by destruct (fits is_signed bits num) eqn:E; intros [= <-].
    + unfold str2int. by rewrite Hhex, Hnum.
Qed.

(** The two notations agree: the hexadecimal literal of the low [bits]
    bits of [v] and the decimal string of [v] give the same signed
    number, [v] itself. *)
Theorem str2int_hex_decimal_agree (hex dec : string) (bits v : Z) :
  is_hex hex = true → is_hex dec = false →
  int_of_str 16 hex = Some (v mod 2 ^ bits) →
  int_of_str 10 dec = Some v →
  0 < bits →
  - 2 ^ (bits - 1) ≤ v < 2 ^ (bits - 1) →
  str2int hex true bits = Ok v ∧ str2int dec true bits = Ok v.
Proof.
  intros Hhex Hdec Hh Hd Hb Hv.
  assert (Hp : 2 ^ bits = 2 * 2 ^ (bits - 1)).
  { rewrite <- Z.pow_succ_r by lia. f_equal. lia. }
  assert (0 < 2 ^ bits) by (apply Z.pow_pos_nonneg; lia).
  split.
  - rewrite (str2int_hex _ _ _ _ Hhex Hh Hb).
    pose proof (Z.mod_pos_bound v (2 ^ bits) ltac:(lia)) as Hm.
    destruct (Z.leb_spec 0 (v mod 2 ^ bits)),
             (Z.ltb_spec (v mod 2 ^ bits) (2 ^ bits)); try lia. simpl.
    f_equal. destruct (Z.ltb_spec v 0).
    + assert (E : v mod 2 ^ bits = v + 2 ^ bits).
      { symmetry. apply (Z.mod_unique v _ (-1)); lia. }
      rewrite E. destruct (Z.ltb_spec (v + 2 ^ bits) (2 ^ (bits - 1))); simpl; lia.
    + rewrite Z.mod_small by lia.
      destruct (Z.ltb_spec v (2 ^ (bits - 1))); simpl; lia.
  - rewrite (str2int_dec _ _ _ _ Hdec Hd Hb). unfold fits.
    destruct (Z.leb_spec (- 2 ^ (bits - 1)) v),
             (Z.ltb_spec v (2 ^ (bits - 1))); try lia. done.
Qed.

End Str2Int.

(** [0xFFFFFFFF] is -1 on 32 bits and 4294967295 on 33. *)
Lemma str2int_hex_twos_complement_witness :
  Common.str2int "0xFFFFFFFF" true 32 = Ok (-1)%Z ∧
  Common.str2int "0xFFFFFFFF" true 33 = Ok 4294967295%Z ∧
  Common.str2int "0x1FFFFFFFF" true 32 = Raise ValueError.
Proof.
  split; [|split].
  - rewrite (str2int_hex_twos_complement "0xFFFFFFFF" 32 4294967295);
      [reflexivity | reflexivity | reflexivity | lia].
  - rewrite (str2int_hex_twos_complement "0xFFFFFFFF" 33 4294967295);
      [reflexivity | reflexivity | reflexivity | lia].
  - rewrite (str2int_hex_twos_complement "0x1FFFFFFFF" 32 8589934591);
      [reflexivity | reflexivity | reflexivity | lia].
Defined.

(** The ends of the signed and unsigned ranges of eight bits. *)
Lemma str2int_decimal_bounds_witness :
  Common.str2int "-128" true 8 = Ok (-128)%Z ∧
  Common.str2int "128" true 8 = Raise ValueError ∧
  Common.str2int "255" false 8 = Ok 255%Z ∧
  Common.str2int "-1" false 8 = Raise ValueError.
Proof.
  split; [|split; [|split]].
  - rewrite (str2int_decimal_bounds "-128" true 8 (-128));
      [reflexivity | reflexivity | reflexivity | lia].
  - rewrite (str2int_decimal_bounds "128" true 8 128);
      [reflexivity | reflexivity | reflexivity | lia].
  - rewrite (str2int_decimal_bounds "255" false 8 255);
      [reflexivity | reflexivity | reflexivity | lia].
  - rewrite (str2int_decimal_bounds "-1" false 8 (-1));
      [reflexivity | reflexivity | reflexivity | lia].
Defined.

Lemma str2int_result_fits_witness :
  Common.fits true 16 (-32768) = true.
Proof.
  apply (str2int_result_fits "0x8000" true 16 (-32768)); [lia | reflexivity].
Defined.

Lemma str2int_hex_decimal_agree_witness :
  Common.str2int "0xfffe" true 16 = Ok (-2)%Z ∧
  Common.str2int "-2" true 16 = Ok (-2)%Z.
Proof.
  apply (str2int_hex_decimal_agree "0xfffe" "-2" 16 (-2));
    try reflexivity; lia.
Defined.

(** * pt_ana_ts.py: the scan ranges of [main] *)

Section Ranges.
Import Main.

(** The decimal form of a number holds digits only. *)
Lemma count_char_uint c d :
  (nat_of_ascii c < 48 ∨ 57 < nat_of_ascii c)%nat →
  count_char c (NilEmpty.string_of_uint d) = 0.
Proof.
  intros Hc.
  assert (Hne : ∀ c', (48 ≤ nat_of_ascii c' ≤ 57)%nat → Ascii.eqb c' c = false).
  { intros c' Hc'. apply Ascii.eqb_neq. intros ->. lia. }
  induction d; cbn [NilEmpty.string_of_uint count_char]; [done | ..];
    rewrite Hne by (vm_compute; lia); done.
Qed.

Lemma str_of_nat_nonempty n : str_of_nat n ≠ "".
Proof.
  unfold str_of_nat. intros E.
  assert (Hn : Nat.to_uint n = Decimal.Nil).
  { destruct (Nat.to_uint n); simpl in E; congruence. }
  pose proof (DecimalNat.Unsigned.to_of (Nat.to_uint n)) as H.
  rewrite DecimalNat.Unsigned.of_to, Hn in H. discriminate.
Qed.

(** Reading back what [str] wrote. *)
Lemma int_digits_str_of_nat n : int_digits (str_of_nat n) = Some n.
Proof.
  unfold int_digits. pose proof (str_of_nat_nonempty n) as Hne.
  destruct (str_of_nat n) eqn:E; [done |]. rewrite <- E. unfold str_of_nat.
  rewrite NilEmpty.usu. simpl. by rewrite DecimalNat.Unsigned.of_to.
Qed.

Lemma count_char_app c s1 s2 :
  count_char c (s1 +:+ s2) = count_char c s1 + count_char c s2.
Proof.
  induction s1 as [|c' s1 IH]; [done |].
  change (String c' s1 +:+ s2) with (String c' (s1 +:+ s2)).
  simpl. rewrite IH. lia.
Qed.

(** Cutting at a separator that the first part does not hold. *)
Lemma split_on_app sep s1 s2 :
  count_char sep s1 = 0 →
  split_on sep (s1 +:+ String sep s2) = s1 :: split_on sep s2.
Proof.
  induction s1 as [|c s1 IH].
  - intros _. change ("" +:+ String sep s2) with (String sep s2). simpl.
    by rewrite Ascii.eqb_refl.
  - change (String c s1 +:+ String sep s2) with (String c (s1 +:+ String sep s2)).
    simpl. destruct (Ascii.eqb c sep) eqn:E; [done |]. simpl. intros H.
    by rewrite IH.
Qed.

Lemma split_on_none sep s :
  count_char sep s = 0 → split_on sep s = [s].
Proof.
  induction s as [|c s IH]; simpl; [done |].
  destruct (Ascii.eqb c sep) eqn:E; [done |]. simpl. intros H.
  by rewrite IH.
Qed.

Lemma count_char_str_of_nat c n :
  (nat_of_ascii c < 48 ∨ 57 < nat_of_ascii c)%nat → count_char c (str_of_nat n) = 0.
Proof. apply count_char_uint. Qed.

Lemma show_range_no_comma r : count_char "," (show_range r) = 0.
Proof.
  destruct r as [[st ed] nu]. unfold show_range. simpl.
  rewrite !count_char_app, count_char_str_of_nat by (vm_compute; lia).
  destruct ed, nu; simpl;
    rewrite ?count_char_app, ?count_char_str_of_nat by (vm_compute; lia); done.
Qed.

Lemma append_cons c s1 s2 : String c s1 +:+ s2 = String c (s1 +:+ s2).
Proof. reflexivity. Qed.

Lemma append_one c s : String c "" +:+ s = String c s.
Proof. reflexivity. Qed.

Lemma append_empty_r s : s +:+ "" = s.
Proof. induction s as [|c s IH]; [done | by rewrite append_cons, IH]. Qed.

Lemma append_assoc s1 s2 s3 : (s1 +:+ s2) +:+ s3 = s1 +:+ (s2 +:+ s3).
Proof. induction s1 as [|c s1 IH]; [done | by rewrite !append_cons, IH]. Qed.

(** A range written in the syntax of the option is read back as it was. *)
Lemma range_fullmatch_show r : range_fullmatch (show_range r) = Some r.
Proof.
  destruct r as [[st ed] nu]. unfold show_range, range_fullmatch. simpl.
  set (a := str_of_nat st +:+
            match ed with Some e => ":" +:+ str_of_nat e | None => "" end).
  assert (Ha : count_char "+" a = 0).
  { subst a. rewrite count_char_app, count_char_str_of_nat by (vm_compute; lia).
    destruct ed; simpl;
      rewrite ?count_char_app, ?count_char_str_of_nat by (vm_compute; lia); done. }
  assert (Hbody : ∀ nu', range_body a nu' = Some (st, ed, nu')).
  { intros nu'. unfold range_body. subst a. destruct ed as [e|]; simpl.
    - rewrite append_one, split_on_app by (apply count_char_str_of_nat; vm_compute; lia).
      rewrite split_on_none by (apply count_char_str_of_nat; vm_compute; lia).
      by rewrite !int_digits_str_of_nat.
    - rewrite append_empty_r.
      rewrite split_on_none by (apply count_char_str_of_nat; vm_compute; lia).
      by rewrite int_digits_str_of_nat. }
  destruct nu as [n|]; simpl.
  - rewrite <- append_assoc. fold a.
    rewrite append_one, split_on_app by done.
    rewrite split_on_none by (apply count_char_str_of_nat; vm_compute; lia).
    rewrite int_digits_str_of_nat. simpl. apply Hbody.
  - rewrite append_empty_r. fold a. rewrite split_on_none by done. apply Hbody.
Qed.

Lemma omap_ranges_show r l :
  omap range_fullmatch (split_on "," (show_ranges (r :: l))) = r :: l.
Proof.
  revert r. induction l as [|r' l IH]; intros r.
  - simpl show_ranges. rewrite split_on_none by apply show_range_no_comma.
    simpl. by rewrite range_fullmatch_show.
  - change (show_ranges (r :: r' :: l))
      with (show_range r +:+ "," +:+ show_ranges (r' :: l)).
    rewrite append_one, split_on_app by apply show_range_no_comma.
    simpl omap. rewrite range_fullmatch_show. simpl. f_equal. apply IH.
Qed.

(** The option [-r] reads back every list of ranges written in its own
    syntax, in the same order; the empty string, like the absence of the
    option, gives the default: one path from line 0. *)
Theorem range_list_reads_back (l : list (nat * option nat * option nat)) :
  range_list (Some (show_ranges l)) =
    match l with
    | [] => [(0, None, Some 1)]
    | _ => l
    end
  ∧ range_list None = [(0, None, Some 1)].
Proof.
  split; [|done]. destruct l as [|r l]; [done |].
  unfold range_list. by rewrite omap_ranges_show.
Qed.

End Ranges.

(** The ranges of the help text of the option. *)
Example ranges_of_help :
  Main.range_list (Some "6,16+2,26:100,26:100+2")
  = [(6, None, None); (16, None, Some 2); (26, Some 100, None);
     (26, Some 100, Some 2)].
Proof. reflexivity. Qed.

(** An item that is no range is left out, silently. *)
Example range_garbage_dropped :
  Main.range_list (Some "6,x7,8:") = [(6, None, None)] ∧
  Main.range_list (Some "a+b") = [(0, None, Some 1)].
Proof. split; reflexivity. Qed.

(** * [load_times_cfg]: what a whole file does *)

Section LoadFacts.
Context `{RE : ReEngine} `{DL : DecimalLib} `{PS : PySet}.

(** Every accepted pair [key], [value] makes one of the assignments of
    [cfg_step]. *)
Lemma handle_step key value c c' :
  handle key value c = Ok c' → cfg_step c c'.
Proof.
  unfold handle.
  destruct (PyDict.get key attr) as [[nm d]|] eqn:Hattr.
  { apply attr_get_In in Hattr.
    case_match; intros [= <-]; by eapply step_flag. }
  destruct (String.eqb key "bds").
  { destruct (split_ws value); [done |]. intros [= <-]. constructor. }
  destruct (String.eqb key "ckt").
  { destruct (split_ws value) as [|tag [|pat [|? ?]]]; try done.
    destruct (compile pat) as [r|]; simpl; [|done].
    destruct (String.eqb (lower tag) "y"); [intros [= <-]; constructor |].
    destruct (String.eqb (lower tag) "n"); [intros [= <-]; constructor | done]. }
  destruct (String.eqb key "ckp").
  { destruct (split_ws value) as [|type_ pat]; [done |].
    destruct (String.eqb type_ "c"); [intros [= <-]; constructor |].
    destruct (String.eqb type_ "i"); [intros [= <-]; constructor |].
    destruct (String.eqb type_ "r"); [|done].
    destruct (map_result compile pat); simpl; [|done].
    intros [= <-]. constructor. }
  destruct (String.eqb key "ckm").
  { destruct (split_ws value) as [|p0 ?]; [done |].
    destruct (compile p0); simpl; [|done]. intros [= <-]. constructor. }
  destruct (String.eqb key "dpc"); [intros [= <-]; constructor |].
  destruct (String.eqb key "pc").
  { destruct (split_ws value) as [|tag [|pat [|? ?]]]; try done.
    destruct (compile pat) as [r|]; simpl; [|done]. intros [= <-]. constructor. }
  destruct (String.eqb key "cc").
  { destruct (split_ws value) as [|tag [|pat [|? ?]]]; try done.
    destruct (compile pat) as [r|]; simpl; [|done]. intros [= <-]. constructor. }
  destruct (String.eqb key "dc").
  { destruct (split_ws value) as [|v1 [|v2 ?]]; try done.
    destruct (String.eqb v1 "r").
    - destruct (compile v2); simpl; [|done]. intros [= <-]. constructor.
    - destruct (Decimal v1); simpl; [|done]. intros [= <-]. constructor. }
  destruct (String.eqb key "hcd"); [|intros [= <-]; constructor].
  match goal with |- context [mbind _ ?m] => destruct m as [fields|] end;
    simpl; [|done].
  destruct fields as [|? [|? [|? [|? [|? ?]]]]]; try done.
  intros [= <-]. constructor.
Qed.

(** A property that every assignment keeps is kept by the whole loop. *)
Lemma load_lines_invariant (P : cons_cfg → Prop) fno fp c c' :
  (∀ c1 c2, cfg_step c1 c2 → P c1 → P c2) →
  P c → load_lines fno fp c = Ok c' → P c'.
Proof.
  intros Hstep. revert fno c. induction fp as [|raw fp IH]; intros fno c Hc; simpl.
  - by intros [= <-].
  - destruct (String.eqb (strip_comment raw) ""); [by apply IH |].
    unfold process_line.
    destruct (split_key_value (strip_comment raw)) as [[k v]|]; simpl; [|done].
    destruct (handle k v c) as [c1|] eqn:Hh; [|done].
    apply IH. eapply Hstep; [by eapply handle_step | done].
Qed.

(** The same for a relation between the configuration before and after. *)
Lemma load_lines_preorder (R : cons_cfg → cons_cfg → Prop) fno fp c c' :
  (∀ c0, R c0 c0) →
  (∀ c0 c1 c2, R c0 c1 → cfg_step c1 c2 → R c0 c2) →
  load_lines fno fp c = Ok c' → R c c'.
Proof.
  intros Hrefl Hstep.
  apply (load_lines_invariant (R c) fno fp c c'); [|apply Hrefl].
  intros c1 c2 Hs Hr. by eapply Hstep.
Qed.

(** [s.update(l)] adds the elements of [l] and keeps those of [s]. *)
Lemma set_update_mem l (s : pyset) x :
  set_mem x (set_update l s) = existsb (String.eqb x) l || set_mem x s.
Proof.
  unfold set_update. revert s. induction l as [|y l IH]; intros s; simpl; [done |].
  rewrite IH, set_mem_add.
  by destruct (String.eqb x y), (existsb (String.eqb x) l), (set_mem x s).
Qed.

Lemma load_lines_error fno fp c e :
  load_lines fno fp c = Raise e →
  ∃ pre raw rest c',
    fp = pre ++ raw :: rest ∧ load_lines fno pre c = Ok c' ∧
    nonblank raw = true ∧ line_ok (strip_comment raw) = false ∧
    e = SyntaxError (syntax_error_msg (fno + length pre)).
Proof.
  revert fno c. induction fp as [|raw fp IH]; intros fno c; simpl; [done |].
  destruct (String.eqb (strip_comment raw) "") eqn:Hblank.
  - intros H. destruct (IH _ _ H) as (pre & raw' & rest & c' & -> & Hpre & Hnb & Hbad & ->).
    exists (raw :: pre), raw', rest, c'. simpl. rewrite Hblank.
    repeat split; try done. by rewrite Nat.add_succ_r.
  - destruct (process_line (strip_comment raw) c) as [c1|e1] eqn:Hstep.
    + intros H. destruct (IH _ _ H) as (pre & raw' & rest & c' & -> & Hpre & Hnb & Hbad & ->).
      exists (raw :: pre), raw', rest, c'. simpl. rewrite Hblank, Hstep.
      repeat split; try done. by rewrite Nat.add_succ_r.
    + intros [= <-]. exists [], raw, fp, c. simpl.
      unfold nonblank. rewrite Hblank, Nat.add_0_r. repeat split; try done.
      rewrite <- (process_line_ok_iff _ c). by rewrite Hstep.
Qed.

Lemma load_lines_ok fno fp c :
  is_ok (load_lines fno fp c) = forallb line_accepted fp.
Proof.
  revert fno c. induction fp as [|raw fp IH]; intros fno c; simpl; [done |].
  unfold line_accepted at 1.
  destruct (String.eqb (strip_comment raw) ""); simpl; [apply IH |].
  rewrite <- (process_line_ok_iff _ c).
  destruct (process_line (strip_comment raw) c); simpl; [apply IH | done].
Qed.

(** The only exception that leaves [load_times_cfg] is the syntax error
    of the first line that is neither blank nor well formed; its number
    counts all the lines before it, blank ones and comments included. *)
Theorem load_error_is_first_bad_line (fp : list string) (e : exn) :
  load_times_cfg (Some fp) = Raise e →
  ∃ pre raw rest,
    fp = pre ++ raw :: rest ∧
    forallb line_accepted pre = true ∧
    line_accepted raw = false ∧
    e = SyntaxError (syntax_error_msg (S (length pre))).
Proof.
  unfold load_times_cfg.
  destruct (load_lines 1 fp default_cfg) as [c|e0] eqn:Hload; simpl; [done |].
  intros [= <-].
  destruct (load_lines_error _ _ _ _ Hload) as (pre & raw & rest & c' & -> & Hpre & Hnb & Hbad & ->).
  exists pre, raw, rest. repeat split; try done.
  - rewrite <- (load_lines_ok 1 pre default_cfg). by rewrite Hpre.
  - unfold line_accepted. unfold nonblank in Hnb.
    destruct (String.eqb (strip_comment raw) ""); [done |]. by rewrite Hbad.
Qed.

(** A rules file compiles if and only if each of its lines is blank, a
    comment, or a line with one colon whose value suits its key. *)
Theorem load_accepts_iff_every_line (fp : list string) :
  is_ok (load_times_cfg (Some fp)) = forallb line_accepted fp.
Proof.
  unfold load_times_cfg. rewrite <- (load_lines_ok 1 fp default_cfg).
  by destruct (load_lines 1 fp default_cfg).
Qed.

(** For every key, the handler raises exactly on the values that the
    grammar of the key excludes; whether it raises does not depend on the
    configuration built so far. *)
Theorem handle_raises_iff_malformed (key value : string) (c : cons_cfg) :
  (∃ e, handle key value c = Raise e) ↔ value_ok key value = false.
Proof.
  rewrite <- (handle_ok_iff key value c).
  destruct (handle key value c) as [c'|e]; simpl; split; try done.
  - by intros [e He].
  - intros _. by exists e.
Qed.

(** In a configuration that [load_times_cfg] returns, the default tag is
    unset or a key of [pc]; at most the one message about it is printed. *)
Theorem loaded_dpc_is_pc_tag (cfg_fp : option (list string)) (c : cons_cfg)
    (out : list string) :
  load_times_cfg cfg_fp = Ok (c, out) →
  (∀ t, dpc c = Some t → PyDict.mem t (pc c) = true) ∧
  (out = [] ∨ out = [dpc_info_msg]).
Proof.
  unfold load_times_cfg. destruct cfg_fp as [fp|].
  - destruct (load_lines 1 fp default_cfg) as [c0|]; simpl; [|done].
    unfold check_dpc. destruct (dpc c0) as [t|] eqn:Hd.
    + destruct (PyDict.mem t (pc c0)) eqn:Hm; simpl; intros [= <- <-].
      * split; [|by left]. intros t'. rewrite Hd. by intros [= <-].
      * split; [done | by right].
    + intros [= <- <-]. split; [|by left]. intros t'. by rewrite Hd.
  - intros [= <- <-]. split; [done | by left].
Qed.

End LoadFacts.

Lemma load_error_witness :
  ∃ pre raw rest,
    ["# rules"; ""; "pc: A ("; "ckt: x y"] = pre ++ raw :: rest ∧
    forallb line_accepted pre = true ∧ line_accepted raw = false ∧
    SyntaxError "config syntax error (ln:3)"
      = SyntaxError (syntax_error_msg (S (length pre))).
Proof.
  apply (load_error_is_first_bad_line ["# rules"; ""; "pc: A ("; "ckt: x y"]).
  reflexivity.
Defined.

Lemma handle_raises_witness :
  ∃ e, handle "dc" "fast BUFX2" default_cfg = Raise e.
Proof. apply handle_raises_iff_malformed. reflexivity. Defined.

Lemma loaded_dpc_witness :
  (∀ t, dpc (with_pc [("A", re_a_any)] (with_dpc (Some "A") default_cfg)) = Some t →
        PyDict.mem t (pc (with_pc [("A", re_a_any)] (with_dpc (Some "A") default_cfg)))
        = true) ∧
  (([] : list string) = [] ∨ [] = [dpc_info_msg]).
Proof.
  apply (loaded_dpc_is_pc_tag (Some ["pc: A a.*"; "dpc: A"])). reflexivity.
Defined.
(** * [load_times_cfg]: what the configuration keeps *)

Section LoadInvariants.
Context `{RE : ReEngine} `{DL : DecimalLib} `{PS : PySet}.

Lemma fold_insert_is_Some (l : list (string * bool)) (m : gmap string bool) k :
  is_Some (fold_left (λ m kv, <[kv.1 := kv.2]> m) l m !! k) ↔
  is_Some (m !! k) ∨ In k (map fst l).
Proof.
  revert m. induction l as [|[k' v'] l IH]; intros m; simpl.
  - tauto.
  - rewrite IH, lookup_insert_is_Some. split.
    + intros [[-> | [_ H]] | H]; tauto.
    + intros [H | [-> | H]]; [|tauto..].
      destruct (decide (k' = k)) as [-> | Hne]; [tauto |]. left. by right.
Qed.

(** The names of the options: the first components of the values of
    [attr]. *)
Lemma option_name_iff name :
  In name (map fst (map snd attr)) ↔ ∃ key d, In (key, (name, d)) attr.
Proof.
  rewrite in_map_iff. split.
  - intros ([n d] & <- & Hin). apply in_map_iff in Hin as ([key [n' d']] & [= -> ->] & Hin).
    by exists key, d.
  - intros (key & d & Hin). exists (name, d). split; [done |].
    apply in_map_iff. by exists (key, (name, d)).
Qed.

Lemma cfg_step_flags c c' :
  cfg_step c c' →
  flags c' = flags c ∨ ∃ key name d b, In (key, (name, d)) attr
                                       ∧ flags c' = <[name := b]> (flags c).
Proof.
  intros [key name d b Hin | | | | | | | | | | | |]; simpl;
    [right; by exists key, name, d, b | by left ..].
Qed.

(** A configuration that [load_times_cfg] returns defines the seventeen
    options and no other: an option line sets an option that exists, and
    no handler adds or removes one. *)
Theorem loaded_flags_are_the_options (cfg_fp : option (list string))
    (c : cons_cfg) (out : list string) (name : string) :
  load_times_cfg cfg_fp = Ok (c, out) →
  is_Some (flags c !! name) ↔ ∃ key d, In (key, (name, d)) attr.
Proof.
  set (P := λ c0 : cons_cfg,
    is_Some (flags c0 !! name) ↔ ∃ key d, In (key, (name, d)) attr).
  assert (Hdef : P default_cfg).
  { unfold P.
    change (flags default_cfg) with
      (fold_left (λ (m : gmap string bool) kv, <[kv.1 := kv.2]> m) (map snd attr) ∅).
    rewrite fold_insert_is_Some, lookup_empty, option_name_iff.
    split; [intros [[? H] | H]; [done | exact H] | by right]. }
  assert (Hstep : ∀ c1 c2, cfg_step c1 c2 → P c1 → P c2).
  { intros c1 c2 Hs. unfold P.
    destruct (cfg_step_flags _ _ Hs) as [-> | (key & nm & d & b & Hin & ->)]; [done |].
    rewrite lookup_insert_is_Some. intros H. split.
    - intros [<- | [_ H']]; [by exists key, d | by apply H].
    - intros H'. apply H in H'.
      destruct (decide (nm = name)); [by left | by right]. }
  unfold load_times_cfg. destruct cfg_fp as [fp|].
  - destruct (load_lines 1 fp default_cfg) as [c0|] eqn:Hload; simpl; [|done].
    pose proof (load_lines_invariant P 1 fp _ _ Hstep Hdef Hload) as H0.
    unfold check_dpc.
    destruct (dpc c0); [destruct (negb _) |]; by intros [= <- <-].
  - by intros [= <- <-].
Qed.

Lemma cfg_grows_refl c : cfg_grows c c.
Proof. unfold cfg_grows. by repeat split. Qed.

Lemma cfg_grows_trans c1 c2 c3 : cfg_grows c1 c2 → cfg_grows c2 c3 → cfg_grows c1 c3.
Proof.
  intros (A1 & A2 & A3 & A4 & A5 & A6 & A7 & A8 & A9 & A10 & A11)
         (B1 & B2 & B3 & B4 & B5 & B6 & B7 & B8 & B9 & B10 & B11).
  unfold cfg_grows.
  repeat split; try (by etrans); intros; auto.
Qed.

Lemma cfg_step_grows c c' : cfg_step c c' → cfg_grows c c'.
Proof.
  intros [key name d b Hin | tag pat | b r | pat | pat | rs | r | v | tag r | tag r
          | k v | ty k tag | ];
    unfold cfg_grows; simpl; repeat split; try done;
    try (by apply prefix_app_r);
    try (intros x Hx; rewrite set_update_mem, Hx; by rewrite orb_true_r);
    try (intros k0 Hk; rewrite mem_set, Hk; by rewrite orb_true_r);
    try (intros k0 Hk; apply lookup_insert_is_Some;
         destruct (decide (name = k0)); [by left | by right]);
    try (intros k0 Hk; apply lookup_insert_is_Some;
         destruct (decide (tag = k0)); [by left | by right]);
    try (intros k0 Hk; apply lookup_insert_is_Some;
         destruct (decide (k = k0)); [by left | by right]).
  intros ty0 k0. destruct (decide (ty = ty0)) as [-> | Hne].
  - rewrite lookup_insert_eq. simpl.
    destruct (hcd c !! ty0) as [inner|]; simpl; [|by intros [? ?]].
    intros H. apply lookup_insert_is_Some.
    destruct (decide (k = k0)); [by left | by right].
  - by rewrite lookup_insert_ne.
Qed.

(** Lines added at the end of a rules file take nothing away: the longer
    file compiles only if the shorter one does, and its sets, lists and
    tables extend those of the shorter one. Only the default tag can be
    lost. *)
Theorem appended_lines_only_add (fp more : list string) (c' : cons_cfg) :
  load_lines 1 (fp ++ more) default_cfg = Ok c' →
  ∃ c, load_lines 1 fp default_cfg = Ok c ∧ cfg_grows c c'.
Proof.
  rewrite load_lines_app.
  destruct (load_lines 1 fp default_cfg) as [c|]; simpl; [|done].
  intros H. exists c. split; [done |].
  eapply (load_lines_preorder cfg_grows); [apply cfg_grows_refl | | exact H].
  intros c0 c1 c2 H01 Hs. eapply cfg_grows_trans; [done | by apply cfg_step_grows].
Qed.

(** The tables [pc] and [cc] never hold a tag twice. *)
Theorem loaded_tables_have_unique_tags (cfg_fp : option (list string))
    (c : cons_cfg) (out : list string) :
  load_times_cfg cfg_fp = Ok (c, out) →
  NoDup (PyDict.keys (pc c)) ∧ NoDup (PyDict.keys (cc c)).
Proof.
  set (P := λ c0 : cons_cfg, NoDup (PyDict.keys (pc c0)) ∧ NoDup (PyDict.keys (cc c0))).
  assert (Hset : ∀ (d : PyDict.t regex) k r,
    NoDup (PyDict.keys d) → NoDup (PyDict.keys (PyDict.set k r d))).
  { intros d k r Hnd. rewrite keys_set.
    destruct (PyDict.mem k d) eqn:Hm; [done |].
    apply NoDup_app. split; [done |]. split; [|apply NoDup_singleton].
    intros x Hx ->%list_elem_of_singleton.
    rewrite mem_keys in Hm. apply not_true_iff_false in Hm. apply Hm.
    apply existsb_exists. exists k. split; [by apply list_elem_of_In |].
    apply String.eqb_refl. }
  assert (Hstep : ∀ c1 c2, cfg_step c1 c2 → P c1 → P c2).
  { intros c1 c2 [] [H1 H2]; unfold P; simpl; split; try done; by apply Hset. }
  assert (Hdef : P default_cfg) by (split; constructor).
  unfold load_times_cfg. destruct cfg_fp as [fp|].
  - destruct (load_lines 1 fp default_cfg) as [c0|] eqn:Hload; simpl; [|done].
    pose proof (load_lines_invariant P 1 fp _ _ Hstep Hdef Hload) as H0.
    unfold check_dpc.
    destruct (dpc c0); [destruct (negb _) |]; by intros [= <- <-].
  - by intros [= <- <-].
Qed.

(** Blank lines and comments change no configuration: a file compiles to
    what the file without them compiles to. *)
Theorem blank_lines_do_not_matter (fp : list string) (c : cons_cfg)
    (out : list string) :
  load_times_cfg (Some fp) = Ok (c, out) ↔
  load_times_cfg (Some (filter (λ raw, nonblank raw = true) fp)) = Ok (c, out).
Proof.
  assert (H : ∀ fno fno' c0 c1,
    load_lines fno fp c0 = Ok c1 ↔
    load_lines fno' (filter (λ raw, nonblank raw = true) fp) c0 = Ok c1).
  { induction fp as [|raw fp IH]; intros fno fno' c0 c1; [done |].
    rewrite filter_cons. case_decide as Hd; unfold nonblank in Hd; simpl;
      destruct (String.eqb (strip_comment raw) "") eqn:Hb; try done;
      try apply IH.
    destruct (process_line (strip_comment raw) c0); [apply IH | done]. }
  unfold load_times_cfg. split.
  - destruct (load_lines 1 fp default_cfg) as [c0|] eqn:E; simpl; [|done].
    intros Hc. apply (H 1 1) in E. by rewrite E.
  - destruct (load_lines 1 (filter _ fp) default_cfg) as [c0|] eqn:E; simpl; [|done].
    intros Hc. apply (H 1 1) in E. by rewrite E.
Qed.

(** The handler of [hcd]: after an accepted line, the tag is found under
    its type and its pair of pins, and every other entry is as before. A
    tag between double quotes is stored as it stands, and what follows the
    closing quote is not read. *)
Theorem hcd_line_lookup (value : string) (c : cons_cfg)
    (type_ pi po tag : string) :
  (split_on DQUOTE value = [value] ∧ split_ws value = [type_; pi; po; tag]) ∨
  (∃ t0 rest, split_on DQUOTE value = t0 :: tag :: rest
              ∧ split_ws t0 = [type_; pi; po]) →
  ∃ c', handle "hcd" value c = Ok c' ∧
    hcd c' !! type_ ≫= (.!! (pi +:+ ":" +:+ po)) = Some tag ∧
    ∀ ty k, (ty, k) ≠ (type_, pi +:+ ":" +:+ po) →
            hcd c' !! ty ≫= (.!! k) = hcd c !! ty ≫= (.!! k).
Proof.
  intros Hv.
  assert (Hh : handle "hcd" value c =
    Ok (with_hcd (<[type_ := <[pi +:+ ":" +:+ po := tag]>
                               (default ∅ (hcd c !! type_))]> (hcd c)) c)).
  { change (handle "hcd" value c) with
      (fields ← match split_on DQUOTE value with
                | t0 :: t1 :: _ => Ok (split_ws t0 ++ [t1])
                | [t0] => Ok (split_ws t0)
                | [] => Raise IndexError
                end;
       match fields with
       | [ty; p1; p2; tg] =>
           Ok (with_hcd (<[ty := <[p1 +:+ ":" +:+ p2 := tg]>
                                   (default ∅ (hcd c !! ty))]> (hcd c)) c)
       | _ => Raise ValueError
       end).
    destruct Hv as [[-> ->] | (t0 & rest & -> & ->)]; done. }
  eexists. split; [exact Hh |]. simpl. split.
  - by rewrite lookup_insert_eq; simpl; rewrite lookup_insert_eq.
  - intros ty k Hne. destruct (decide (type_ = ty)) as [<- | Hty].
    + rewrite lookup_insert_eq. simpl.
      rewrite lookup_insert_ne by congruence.
      by destruct (hcd c !! type_).
    + by rewrite lookup_insert_ne.
Qed.

(** The handler of [ckp]: a line of type [c] makes its names clock cells,
    a line of type [i] clock instances; the names known before stay, and
    the other set is untouched. *)
Theorem ckp_line_membership (value ty : string) (names : list string)
    (c : cons_cfg) :
  split_ws value = ty :: names →
  ty = "c" ∨ ty = "i" →
  ∃ c', handle "ckp" value c = Ok c' ∧
    ∀ x,
      set_mem x (ckpc c') =
        (String.eqb ty "c" && existsb (String.eqb x) names) || set_mem x (ckpc c) ∧
      set_mem x (ckpi c') =
        (String.eqb ty "i" && existsb (String.eqb x) names) || set_mem x (ckpi c).
Proof.
  intros Hv Hty.
  assert (Hh : handle "ckp" value c =
    match split_ws value with
    | type_ :: pat =>
        if String.eqb type_ "c" then Ok (with_ckpc (set_update pat (ckpc c)) c)
        else if String.eqb type_ "i" then Ok (with_ckpi (set_update pat (ckpi c)) c)
        else if String.eqb type_ "r" then
          mbind (M := result) (λ rs, Ok (with_ckpr (ckpr c ++ rs) c))
                (map_result compile pat)
        else Raise (SyntaxError "")
    | [] => Raise ValueError
    end) by reflexivity.
  rewrite Hh, Hv.
  destruct Hty as [-> | ->]; simpl; eexists; (split; [done |]);
    intros x; simpl; by rewrite set_update_mem.
Qed.

End LoadInvariants.

Lemma loaded_flags_witness :
  is_Some (flags (with_flags (<["slk_on_rpt" := false]> (flags default_cfg)) default_cfg)
           !! "seg_en")
  ↔ ∃ key d, In (key, ("seg_en", d)) attr.
Proof.
  apply (loaded_flags_are_the_options (Some ["slack_on_report: false"]) _ []).
  reflexivity.
Defined.

Lemma appended_lines_witness :
  ∃ c, load_lines 1 ["pc: A a.*"] default_cfg = Ok c ∧
       cfg_grows c (with_cc [("B", re_b_any)] (with_pc [("A", re_a_any)] default_cfg)).
Proof.
  apply (appended_lines_only_add ["pc: A a.*"] ["cc: B b.*"]). reflexivity.
Defined.

Lemma unique_tags_witness :
  NoDup (PyDict.keys (pc (with_pc [("A", re_b_any); ("B", re_b_any)] default_cfg))) ∧
  NoDup (PyDict.keys (cc (with_pc [("A", re_b_any); ("B", re_b_any)] default_cfg))).
Proof.
  apply (loaded_tables_have_unique_tags
           (Some ["pc: A a.*"; "pc: B b.*"; "pc: A b.*"]) _ []).
  reflexivity.
Defined.

Lemma hcd_line_witness :
  ∃ c', handle "hcd"
          ("BUFX2 A Y " +:+ String DQUOTE ("my tag" +:+ String DQUOTE " rest"))
          default_cfg = Ok c' ∧
    hcd c' !! "BUFX2" ≫= (.!! ("A" +:+ ":" +:+ "Y")) = Some "my tag" ∧
    ∀ ty k, (ty, k) ≠ ("BUFX2", "A" +:+ ":" +:+ "Y") →
            hcd c' !! ty ≫= (.!! k) = hcd default_cfg !! ty ≫= (.!! k).
Proof.
  apply hcd_line_lookup. right. exists "BUFX2 A Y ", [" rest"]. split; reflexivity.
Defined.

Lemma ckp_line_witness :
  ∃ c', handle "ckp" "c U1 U2" default_cfg = Ok c' ∧
    ∀ x,
      set_mem x (ckpc c') =
        (String.eqb "c" "c" && existsb (String.eqb x) ["U1"; "U2"])
        || set_mem x (ckpc default_cfg) ∧
      set_mem x (ckpi c') =
        (String.eqb "c" "i" && existsb (String.eqb x) ["U1"; "U2"])
        || set_mem x (ckpi default_cfg).
Proof.
  apply ckp_line_membership; [reflexivity | left; reflexivity].
Defined.

(** * The selections of [report_summary] and the driving-cell series *)

Section BarSelection.
Context `{RE : ReEngine} `{DL : DecimalLib} `{PS : PySet} `{PN : PyNumber}.

Lemma set_of_list_mem l x :
  set_mem x (set_of_list l) = existsb (String.eqb x) l.
Proof.
  unfold set_of_list. rewrite set_update_mem, set_mem_empty. apply orb_false_r.
Qed.

Lemma select_bar_dtype_eq c bar_set arg :
  (select_bar_dtype c bar_set arg).1 =
    let s1 := set_update
                match bar_set with
                | Some tag => default [] (bds c !! tag)
                | None => []
                end set_empty in
    let s2 := set_update
                match arg with
                | None => []
                | Some [] => ["p"; "c"; "t"; "d"; "i"; "ct"]
                | Some l => l
                end s1 in
    if set_mem "ct" s2 then set_add "i" s2 else s2.
Proof.
  unfold select_bar_dtype.
  assert (Hsz : ∀ tag pat, bds c !! tag = Some pat →
                           negb (Nat.eqb (size (bds c)) 0) = true).
  { intros tag pat Hl. destruct (Nat.eqb_spec (size (bds c)) 0) as [Hz|]; [|done].
    apply map_size_empty_iff in Hz. by rewrite Hz, lookup_empty in Hl. }
  destruct bar_set as [tag|]; simpl.
  - destruct (bds c !! tag) as [pat|] eqn:Hl; simpl.
    + rewrite (Hsz _ _ Hl). by destruct arg as [[|a l]|].
    + destruct (negb _); by destruct arg as [[|a l]|].
  - by destruct arg as [[|a l]|].
Qed.

Lemma select_bar_dtype_mem c bar_set arg y :
  set_mem y (select_bar_dtype c bar_set arg).1 =
    let chosen := match arg with
                  | None => []
                  | Some [] => ["p"; "c"; "t"; "d"; "i"; "ct"]
                  | Some l => l
                  end ++
                  match bar_set with
                  | Some tag => default [] (bds c !! tag)
                  | None => []
                  end in
    existsb (String.eqb y) chosen
    || (String.eqb y "i" && existsb (String.eqb "ct") chosen).
Proof.
  rewrite select_bar_dtype_eq. cbv zeta.
  set (from_bars := match bar_set with
                    | Some tag => default [] (bds c !! tag)
                    | None => []
                    end).
  set (from_bard := match arg with
                    | None => []
                    | Some [] => ["p"; "c"; "t"; "d"; "i"; "ct"]
                    | Some l => l
                    end).
  assert (H2 : ∀ z, set_mem z (set_update from_bard (set_update from_bars set_empty))
                    = existsb (String.eqb z) (from_bard ++ from_bars)).
  { intros z. rewrite !set_update_mem, set_mem_empty, orb_false_r.
    by rewrite existsb_app. }
  rewrite (H2 "ct").
  destruct (existsb (String.eqb "ct") (from_bard ++ from_bars)).
  - rewrite set_mem_add, H2, andb_true_r. apply orb_comm.
  - by rewrite H2, andb_false_r, orb_false_r.
Qed.

(** The data types of the bar charts are those of the set that [-bars]
    names in the configuration, those of [-bard] (all six when the option
    has no argument), and [i] whenever [ct] is among them: the selection
    never holds [ct] without [i]. *)
Theorem bar_dtype_selection (c : cons_cfg) (bar_set : option string)
    (bar_dtype_arg : option (list string)) (x : string) :
  let from_bars := match bar_set with
                   | Some tag => default [] (bds c !! tag)
                   | None => []
                   end in
  let from_bard := match bar_dtype_arg with
                   | None => []
                   | Some [] => ["p"; "c"; "t"; "d"; "i"; "ct"]
                   | Some l => l
                   end in
  let sel := (select_bar_dtype c bar_set bar_dtype_arg).1 in
  set_mem x sel =
    existsb (String.eqb x) (from_bard ++ from_bars)
    || (String.eqb x "i" && existsb (String.eqb "ct") (from_bard ++ from_bars))
  ∧ (set_mem "ct" sel = true → set_mem "i" sel = true).
Proof.
  intros from_bars from_bard sel. subst sel.
  split; [apply select_bar_dtype_mem |].
  rewrite !select_bar_dtype_mem. cbv zeta. fold from_bars. fold from_bard.
  simpl String.eqb at 3. simpl.
  intros H. apply orb_true_iff in H as [H | H]; [|done].
  rewrite H. apply orb_true_r.
Qed.

(** The path types of the bar charts: full path and data path when
    [-barp] gives none; otherwise those of [-barp], and [d] whenever [f]
    is among them. The set is never empty. *)
Theorem bar_ptype_selection (bar_ptype_arg : option (list string)) (x : string) :
  let sel := select_bar_ptype bar_ptype_arg in
  set_mem x sel =
    match bar_ptype_arg with
    | None | Some [] => String.eqb x "f" || String.eqb x "d"
    | Some l => existsb (String.eqb x) l
                || (String.eqb x "d" && existsb (String.eqb "f") l)
    end
  ∧ set_is_empty sel = false
  ∧ (set_mem "f" sel = true → set_mem "d" sel = true).
Proof.
  intros sel.
  assert (Hmem : ∀ y, set_mem y sel =
    match bar_ptype_arg with
    | None | Some [] => String.eqb y "f" || String.eqb y "d"
    | Some l => existsb (String.eqb y) l
                || (String.eqb y "d" && existsb (String.eqb "f") l)
    end).
  { intros y. subst sel. unfold select_bar_ptype.
    destruct bar_ptype_arg as [[|a l]|].
    - rewrite set_of_list_mem. simpl. by rewrite orb_false_r.
    - rewrite (set_of_list_mem (a :: l) "f").
      destruct (existsb (String.eqb "f") (a :: l)).
      + rewrite set_mem_add, set_of_list_mem, andb_true_r. apply orb_comm.
      + by rewrite set_of_list_mem, andb_false_r, orb_false_r.
    - rewrite set_of_list_mem. simpl. by rewrite orb_false_r. }
  split; [apply Hmem |]. split.
  - destruct (set_is_empty sel) eqn:He; [|done].
    pose proof (proj1 (set_is_empty_spec sel) He) as He'. clear He. rename He' into He.
    destruct bar_ptype_arg as [[|a l]|].
    + specialize (He "f"). by rewrite Hmem in He.
    + specialize (He a). rewrite Hmem in He. simpl in He.
      by rewrite String.eqb_refl in He.
    + specialize (He "f"). by rewrite Hmem in He.
  - rewrite !Hmem. destruct bar_ptype_arg as [[|a l]|]; [done | | done].
    intros H. simpl String.eqb at 1 in H. simpl in H |- *.
    rewrite orb_false_r in H.
    change (String.eqb "f" a || existsb (String.eqb "f") l)
      with (existsb (String.eqb "f") (a :: l)) in H.
    change (String.eqb "f" a || existsb (String.eqb "f") l)
      with (existsb (String.eqb "f") (a :: l)).
    rewrite H. apply orb_true_r.
Qed.


(** The results of the loop over the launch path. *)
Lemma dc_launch_loop_data bar_ptype sp cid cells data db out :
  (dc_launch_loop bar_ptype sp cid cells data db out).1 =
    match sp with
    | Some i =>
        if Nat.leb cid i && Nat.ltb i (cid + length cells) then
          let upto := data ++ map drv (take (S (i - cid)) cells) in
          (if set_mem "d" bar_ptype
           then Some ((if set_mem "f" bar_ptype then data ++ map drv (take (i - cid) cells)
                       else []) ++ map drv (drop (i - cid) cells))
           else None,
           db ++ (if set_mem "l" bar_ptype then [("Launch Cell Type", upto)] else []))
        else (Some (data ++ map drv cells), db)
    | None => (Some (data ++ map drv cells), db)
    end.
Proof.
  revert cid data db out.
  induction cells as [|p rest IH]; intros cid data db out.
  - simpl. rewrite app_nil_r. destruct sp as [i|]; [|done].
    destruct (Nat.leb_spec cid i), (Nat.ltb_spec i (cid + 0)); simpl; try done; lia.
  - cbn [dc_launch_loop]. case_bool_decide as Hsp.
    + subst sp. rewrite Nat.leb_refl.
      assert (Nat.ltb cid (cid + length (p :: rest)) = true) as ->
        by (apply Nat.ltb_lt; simpl; lia).
      rewrite Nat.sub_diag. cbn [andb take drop map].
      destruct (set_mem "d" bar_ptype); cbn [negb].
      * rewrite IH.
        assert (Nat.leb (S cid) cid = false) as -> by (apply Nat.leb_gt; lia).
        cbn [andb]. destruct (set_mem "f" bar_ptype); cbn [negb].
        -- destruct (set_mem "l" bar_ptype); simpl;
             rewrite ?app_nil_r, <- ?app_assoc; done.
        -- destruct (set_mem "l" bar_ptype); simpl;
             rewrite ?app_nil_r, <- ?app_assoc; done.
      * destruct (set_mem "l" bar_ptype); simpl;
          rewrite ?app_nil_r, <- ?app_assoc; done.
    + rewrite IH. destruct sp as [i|]; [|by rewrite <- app_assoc].
      assert (i ≠ cid) by congruence.
      replace (S cid + length rest) with (cid + length (p :: rest)) by (simpl; lia).
      destruct (Nat.leb_spec cid i), (Nat.leb_spec (S cid) i); try lia;
        destruct (Nat.ltb_spec i (cid + length (p :: rest))); cbn [andb];
        try (by rewrite <- app_assoc).
      replace (i - cid) with (S (i - S cid)) by lia.
      cbn [take drop map]. cbv zeta.
      rewrite <- !app_assoc. done.
Qed.

(** The driving-cell series, in the order of the chart. When the
    startpoint clock pin is at index [i] of the launch path: the launch
    series (under [l]) holds the cells up to that pin; the path series
    (under [d]) holds the whole launch path under [f] and the cells from
    that pin on otherwise, and is absent without [d]. When the launch path
    holds no such pin, the path series is the whole launch path, whatever
    the path types. The capture series (under [c]) comes between the
    two. *)
Theorem dc_bar_data_series (bar_ptype : pyset) (path : TimePath) :
  let vals := map drv (lpath path) in
  let hit := match spin path with
             | Some i => if Nat.ltb i (length (lpath path)) then Some i else None
             | None => None
             end in
  (dc_bar_data bar_ptype path).1 =
    match hit with
    | Some i => if set_mem "l" bar_ptype
                then [("Launch Cell Type", take (S i) vals)] else []
    | None => []
    end
    ++ (if set_mem "c" bar_ptype
        then [("Capture Cell Type", map drv (cpath path))] else [])
    ++ match hit with
       | Some i => if set_mem "d" bar_ptype
                   then [("Path Cell Type",
                          if set_mem "f" bar_ptype then vals else drop i vals)]
                   else []
       | None => [("Path Cell Type", vals)]
       end.
Proof.
  intros vals hit. unfold dc_bar_data.
  pose proof (dc_launch_loop_data bar_ptype (spin path) 0 (lpath path) [] [] []) as H.
  destruct (dc_launch_loop _ _ _ _ _ _ _) as [[ddata db] out]. simpl in H.
  subst hit vals. destruct (spin path) as [i|].
  - rewrite Nat.sub_0_r in H.
    destruct (Nat.ltb i (length (lpath path))); injection H as -> ->.
    + rewrite ?firstn_map, ?skipn_map.
      destruct (set_mem "l" bar_ptype), (set_mem "c" bar_ptype),
        (set_mem "d" bar_ptype), (set_mem "f" bar_ptype); simpl;
        rewrite <- ?map_app, ?take_drop; done.
    + by destruct (set_mem "c" bar_ptype).
  - injection H as -> ->. by destruct (set_mem "c" bar_ptype).
Qed.

End BarSelection.
(** * [get_time_bar_info]: the series *)

Section TimeBarFacts.
Context `{RE : ReEngine} `{DL : DecimalLib} `{PS : PySet} `{PN : PyNumber}.
Variables (aid : attr_id) (default_tag : string) (seg_dict : PyDict.t regex)
          (bar_ptype : pyset) (path : TimePath).

Local Notation "'init'" := (init_tag default_tag seg_dict).
Local Notation "'winv'" := (walk_inv default_tag seg_dict).
Local Notation "'lok'" := (legend_ok aid default_tag seg_dict).
Local Notation "'tcol'" := (tag_color aid default_tag seg_dict).
Local Notation "'step'" := (bar_cell_step aid default_tag seg_dict bar_ptype path).
Local Notation "'loop'" := (bar_path_loop aid default_tag seg_dict bar_ptype path).
Local Notation "'spath'" := (sub_path path).
Local Notation "'dfrom'" := (drawn_from bar_ptype path).
Local Notation "'tags'" := (tags_of aid default_tag seg_dict path).
Local Notation "'mks'" := (marks bar_ptype path).
Local Notation "'sel'" := (selected_types bar_ptype).
Local Notation "'lshape'" := (legend_shape default_tag seg_dict).
Local Notation "'tstep'" := (bar_type_step aid default_tag seg_dict bar_ptype path).

Lemma init_legend_ok : lok (init_bar_lg_path aid default_tag seg_dict).
Proof.
  unfold legend_ok, init_bar_lg_path, key_color.
  destruct init as [t|] eqn:Hi; repeat split; try done.
  - simpl. intros key col. destruct (String.eqb key default_tag); [|done].
    by intros [= <-].
  - intros _. by eexists _, _.
  - unfold PyDict.mem. simpl. intros key.
    destruct (String.eqb_spec key default_tag); [by left | done].
Qed.

Lemma next_tag_none tg s :
  (tg = None → init = None) →
  next_tag seg_dict init tg s = Ok None → init = None.
Proof.
  intros Hnone. unfold next_tag.
  destruct (PyDict.len seg_dict =? 0)%nat.
  - intros [= E]. by apply Hnone.
  - destruct tg as [t|]; simpl.
    + destruct (PyDict.get t seg_dict) as [r|]; simpl; [|done].
      destruct (re_fullmatch r s); simpl; [done |].
      by destruct (first_match seg_dict s); intros [= ?].
    + by destruct (first_match seg_dict s); intros [= ?].
Qed.

(** One iteration of the loop over a sub-path. *)
Lemma bar_cell_step_spec type_ n_ha cid p st :
  winv st → lok (bar_lg_path st) →
  ∃ st' tg,
    step type_ n_ha cid p st = Ok st' ∧
    next_tag seg_dict init (tag st) (pin_attr aid p) = Ok tg ∧
    winv st' ∧ lok (bar_lg_path st') ∧ tag st' = tg ∧
    let hit := bool_decide (spin path = Some cid) && String.eqb type_ "d" in
    let reset := hit && negb (set_mem "f" bar_ptype) in
    lv_ce_path st' = (if reset then [] else lv_ce_path st) ++ [p] ∧
    lv_c_path st' = (if reset then [] else lv_c_path st) ++ [tcol tg] ∧
    lv_ha_path st' = (if reset then [] else lv_ha_path st)
                     ++ [if hit then "/" else ""] ∧
    lv_ec_path st' = (if reset then [] else lv_ec_path st)
                     ++ [if hit then "b" else "k"] ∧
    did st' = (if hit then Some n_ha else did st) ∧
    dsp st' = (if hit then Some (if reset then 0 else length (lv_ha_path st))
               else dsp st).
Proof.
  intros (Htag & Hnone & Hlg) Hlok. unfold bar_cell_step.
  destruct (next_tag_total default_tag seg_dict (tag st) (pin_attr aid p) Htag)
    as (tg & Hnext & Htg).
  assert (Htg_none : tg = None → init = None).
  { intros ->. by eapply next_tag_none. }
  rewrite Hnext. cbn [mbind result_bind].
  set (hit := bool_decide (spin path = Some cid) && String.eqb type_ "d").
  set (reset := hit && negb (set_mem "f" bar_ptype)).
  set (st0 := if reset then mk_lv tg (init_bar_lg_path aid default_tag seg_dict)
                                  [] [] [] [] (did st) (dsp st)
              else mk_lv tg (bar_lg_path st) (lv_ce_path st) (lv_c_path st)
                         (lv_ha_path st) (lv_ec_path st) (did st) (dsp st)).
  set (lg0 := bar_lg_path st0).
  assert (Hlok0 : lok lg0).
  { subst lg0 st0. destruct reset; simpl; [apply init_legend_ok | done]. }
  assert (Hlg0 : init = None → PyDict.mem default_tag lg0 = true).
  { intros Hi. subst lg0 st0. destruct reset; simpl.
    - by apply init_bar_lg_path_mem.
    - by apply Hlg. }
  set (key := default default_tag tg).
  assert (Hkeyseg : key = default_tag ∨ PyDict.mem key seg_dict = true).
  { subst key. destruct tg as [t|]; simpl; [right; by apply Htg | by left]. }
  assert (Hlists :
    lv_ce_path st0 = (if reset then [] else lv_ce_path st) ∧
    lv_c_path st0 = (if reset then [] else lv_c_path st) ∧
    lv_ha_path st0 = (if reset then [] else lv_ha_path st) ∧
    lv_ec_path st0 = (if reset then [] else lv_ec_path st) ∧
    did st0 = did st ∧ dsp st0 = dsp st).
  { subst st0. by destruct reset. }
  destruct Hlists as (Hce & Hc & Hha & Hec & Hdid & Hdsp).
  assert (Hlen : length (lv_ha_path st0) = if reset then 0 else length (lv_ha_path st)).
  { rewrite Hha. by destruct reset. }
  assert (Hfin : ∀ lg col,
    PyDict.get key lg = Some col → col = tcol tg → lok lg →
    (init = None → PyDict.mem default_tag lg = true) →
    ∃ st' tg',
      (if hit
       then Ok (mk_lv tg lg (lv_ce_path st0 ++ [p]) (lv_c_path st0 ++ [col])
                      (lv_ha_path st0 ++ ["/"]) (lv_ec_path st0 ++ ["b"])
                      (Some n_ha) (Some (length (lv_ha_path st0))))
       else Ok (mk_lv tg lg (lv_ce_path st0 ++ [p]) (lv_c_path st0 ++ [col])
                      (lv_ha_path st0 ++ [""]) (lv_ec_path st0 ++ ["k"])
                      (did st0) (dsp st0))) = Ok st' ∧
      Ok (A := option string) tg = Ok tg' ∧
      winv st' ∧ lok (bar_lg_path st') ∧ tag st' = tg' ∧
      lv_ce_path st' = (if reset then [] else lv_ce_path st) ++ [p] ∧
      lv_c_path st' = (if reset then [] else lv_c_path st) ++ [tcol tg'] ∧
      lv_ha_path st' = (if reset then [] else lv_ha_path st)
                       ++ [if hit then "/" else ""] ∧
      lv_ec_path st' = (if reset then [] else lv_ec_path st)
                       ++ [if hit then "b" else "k"] ∧
      did st' = (if hit then Some n_ha else did st) ∧
      dsp st' = (if hit then Some (if reset then 0 else length (lv_ha_path st))
                 else dsp st)).
  { intros lg col Hget -> Hl Hm.
    rewrite Hlen, Hce, Hc, Hha, Hec, Hdid, Hdsp.
    destruct hit; eexists _, tg; (split; [reflexivity |]); (split; [done |]);
      (split; [split; [exact Htg | split; [exact Htg_none | exact Hm]] |]);
      (split; [exact Hl |]); by repeat split. }
  change (bar_lg_path st0) with lg0.
  destruct (PyDict.mem key lg0) eqn:Hmem; cbn [mbind result_bind].
  - destruct (mem_get _ _ Hmem) as [col Hget]. rewrite Hget.
    cbn [of_option mbind result_bind].
    apply Hfin; try done.
    destruct Hlok0 as (Hc0 & _ & _). by apply Hc0.
  - assert (Hpal : PyDict.mem key (bar_palette seg_dict) = true).
    { destruct Hkeyseg as [Hd | Hs]; [|by apply bar_palette_mem].
      subst key. destruct tg as [t|]; simpl in *.
      - apply bar_palette_mem. by apply Htg.
      - rewrite Hlg0 in Hmem; [done | by apply Htg_none]. }
    destruct (mem_get _ _ Hpal) as [col Hget]. rewrite Hget.
    cbn [of_option mbind result_bind]. rewrite get_set_eq.
    cbn [of_option mbind result_bind].
    assert (Hcol : col = key_color aid default_tag seg_dict key).
    { unfold key_color. destruct init eqn:Hi; rewrite Hget; [done |].
      destruct (String.eqb_spec key default_tag) as [E|]; [|done].
      rewrite E, Hlg0 in Hmem; done. }
    apply Hfin; try done.
    + apply get_set_eq.
    + destruct Hlok0 as (Hc0 & Hh0 & Hk0). repeat split.
      * intros key' col'. destruct (decide (key = key')) as [<- | Hne].
        -- rewrite get_set_eq. by intros [= <-].
        -- rewrite get_set_ne by done. apply Hc0.
      * intros Hi. destruct (Hh0 Hi) as (c0 & rest & E). rewrite E.
        assert (String.eqb key default_tag = false) as Hneq.
        { apply String.eqb_neq. intros E'. rewrite E', Hlg0 in Hmem; done. }
        simpl. rewrite Hneq. by eexists _, _.
      * intros key'. rewrite mem_set. intros H.
        apply orb_true_iff in H as [H | H]; [|by apply Hk0].
        apply String.eqb_eq in H. by subst key'.
    + intros Hi. rewrite mem_set, (Hlg0 Hi). apply orb_true_r.
Qed.

(** The loop over cells none of which is marked. *)
Lemma bar_path_loop_plain type_ n_ha cells : ∀ cid st,
  winv st → lok (bar_lg_path st) →
  (∀ i, spin path = Some i → String.eqb type_ "d" = true →
        (i < cid ∨ cid + length cells ≤ i)%nat) →
  ∃ st' tgs,
    loop type_ n_ha cid cells st = Ok st' ∧
    walk_tags default_tag seg_dict (tag st) (map (pin_attr aid) cells) = Ok tgs ∧
    winv st' ∧ lok (bar_lg_path st') ∧ length tgs = length cells ∧
    lv_ce_path st' = lv_ce_path st ++ cells ∧
    lv_c_path st' = lv_c_path st ++ map tcol tgs ∧
    lv_ha_path st' = lv_ha_path st ++ replicate (length cells) "" ∧
    lv_ec_path st' = lv_ec_path st ++ replicate (length cells) "k" ∧
    did st' = did st ∧ dsp st' = dsp st.
Proof.
  induction cells as [|p rest IH]; intros cid st Hw Hl Hno.
  - exists st, []. simpl. rewrite !app_nil_r.
    split; [done |]. split; [done |]. split; [exact Hw |]. split; [exact Hl |].
    by repeat split.
  - destruct (bar_cell_step_spec type_ n_ha cid p st Hw Hl)
      as (st1 & tg & Hstep & Hnext & Hw1 & Hl1 & Htag & Hrest).
    assert (Hh : bool_decide (spin path = Some cid) && String.eqb type_ "d" = false).
    { case_bool_decide as Hsp; [|done]. simpl.
      destruct (String.eqb type_ "d") eqn:Hd; [|done].
      destruct (Hno cid Hsp eq_refl); simpl in *; lia. }
    cbv zeta in Hrest. rewrite Hh in Hrest. simpl in Hrest.
    destruct Hrest as (Hce & Hc & Hha & Hec & Hdid & Hdsp).
    destruct (IH (S cid) st1 Hw1 Hl1) as
      (st2 & tgs & Hloop & Hwalk & Hw2 & Hl2 & Hlen & Hce2 & Hc2 & Hha2 & Hec2
       & Hdid2 & Hdsp2).
    { intros i Hsp Hd. destruct (Hno i Hsp Hd); simpl in *; lia. }
    exists st2, (tg :: tgs). simpl. rewrite Hstep, Hnext. simpl.
    rewrite Htag in Hwalk. rewrite Hwalk. simpl.
    rewrite Hce2, Hc2, Hha2, Hec2, Hdid2, Hdsp2, Hce, Hc, Hha, Hec, Hlen.
    rewrite <- !app_assoc.
    split; [done |]. split; [done |]. split; [exact Hw2 |]. split; [exact Hl2 |].
    by repeat split.
Qed.

(** The loop over cells one of which is marked. *)
Lemma bar_path_loop_marked type_ n_ha i cells : ∀ cid st,
  winv st → lok (bar_lg_path st) →
  spin path = Some i → String.eqb type_ "d" = true →
  (cid ≤ i < cid + length cells)%nat →
  ∃ st' tgs,
    loop type_ n_ha cid cells st = Ok st' ∧
    walk_tags default_tag seg_dict (tag st) (map (pin_attr aid) cells) = Ok tgs ∧
    winv st' ∧ lok (bar_lg_path st') ∧ length tgs = length cells ∧
    lv_ce_path st' = (if set_mem "f" bar_ptype then lv_ce_path st ++ cells
                      else drop (i - cid) cells) ∧
    lv_c_path st' = (if set_mem "f" bar_ptype then lv_c_path st ++ map tcol tgs
                     else map tcol (drop (i - cid) tgs)) ∧
    lv_ha_path st' = (if set_mem "f" bar_ptype
                      then lv_ha_path st ++ replicate (i - cid) "" else [])
                     ++ "/" :: replicate (length cells - S (i - cid)) "" ∧
    lv_ec_path st' = (if set_mem "f" bar_ptype
                      then lv_ec_path st ++ replicate (i - cid) "k" else [])
                     ++ "b" :: replicate (length cells - S (i - cid)) "k" ∧
    did st' = Some n_ha ∧
    dsp st' = Some (if set_mem "f" bar_ptype
                    then (length (lv_ha_path st) + (i - cid))%nat else 0).
Proof.
  induction cells as [|p rest IH]; intros cid st Hw Hl Hsp Hd Hin;
    [simpl in Hin; lia |].
  destruct (bar_cell_step_spec type_ n_ha cid p st Hw Hl)
    as (st1 & tg & Hstep & Hnext & Hw1 & Hl1 & Htag & Hrest).
  cbv zeta in Hrest. rewrite Hd, andb_true_r in Hrest.
  destruct (decide (i = cid)) as [-> | Hne].
  - rewrite bool_decide_true in Hrest by done. cbn [andb] in Hrest.
    destruct Hrest as (Hce & Hc & Hha & Hec & Hdid & Hdsp).
    destruct (bar_path_loop_plain type_ n_ha rest (S cid) st1 Hw1 Hl1) as
      (st2 & tgs & Hloop & Hwalk & Hw2 & Hl2 & Hlen & Hce2 & Hc2 & Hha2 & Hec2
       & Hdid2 & Hdsp2).
    { intros i' Hsp'. rewrite Hsp in Hsp'. injection Hsp' as <-. lia. }
    exists st2, (tg :: tgs). simpl. rewrite Hstep, Hnext. simpl.
    rewrite Htag in Hwalk. rewrite Hwalk. simpl.
    rewrite Hce2, Hc2, Hha2, Hec2, Hdid2, Hdsp2, Hce, Hc, Hha, Hec, Hlen, Hdid, Hdsp.
    rewrite Nat.sub_diag, Nat.sub_0_r. simpl.
    split; [done |]. split; [done |]. split; [exact Hw2 |]. split; [exact Hl2 |].
    destruct (set_mem "f" bar_ptype); simpl;
      rewrite <- ?app_assoc, ?app_nil_r, ?Nat.add_0_r; by repeat split.
  - rewrite bool_decide_false in Hrest by congruence. cbn [andb] in Hrest.
    destruct Hrest as (Hce & Hc & Hha & Hec & Hdid & Hdsp).
    destruct (IH (S cid) st1 Hw1 Hl1 Hsp Hd) as
      (st2 & tgs & Hloop & Hwalk & Hw2 & Hl2 & Hlen & Hce2 & Hc2 & Hha2 & Hec2
       & Hdid2 & Hdsp2).
    { simpl in Hin. lia. }
    exists st2, (tg :: tgs). simpl length. cbn [bar_path_loop map walk_tags].
    rewrite Hstep, Hnext. cbn [mbind result_bind].
    rewrite Htag in Hwalk. rewrite Hwalk. cbn [mbind result_bind].
    rewrite Hce2, Hc2, Hha2, Hec2, Hdid2, Hdsp2, Hce, Hc, Hha, Hec, Hlen.
    replace (i - cid) with (S (i - S cid)) by lia.
    rewrite length_app. simpl length.
    split; [done |]. split; [done |]. split; [exact Hw2 |]. split; [exact Hl2 |].
    destruct (set_mem "f" bar_ptype); simpl;
      rewrite <- ?app_assoc; repeat split; try done.
    f_equal. lia.
Qed.

Lemma merged_legend_shape lg :
  lok lg → lshape (merged_legend aid default_tag seg_dict lg).
Proof.
  intros (Hc & Hh & Hk). unfold merged_legend, legend_shape.
  destruct (PyDict.len seg_dict =? 0)%nat eqn:Hlen.
  - split; [|exact Hk]. apply Hh. unfold init_tag. by rewrite Hlen.
  - assert (Hfold : ∀ (l : list string) (m : PyDict.t string),
      (∀ k, In k l → PyDict.mem k seg_dict = true) →
      ((∃ col rest, m = (default_tag, col) :: rest) ∧
       (∀ key, PyDict.mem key m = true →
               key = default_tag ∨ PyDict.mem key seg_dict = true)) →
      let m' := fold_left (λ m key, match PyDict.get key lg with
                                    | Some col => PyDict.set key col m
                                    | None => m
                                    end) l m in
      (∃ col rest, m' = (default_tag, col) :: rest) ∧
      (∀ key, PyDict.mem key m' = true →
              key = default_tag ∨ PyDict.mem key seg_dict = true)).
    { induction l as [|k l IH]; intros m Hin Hm; [exact Hm |].
      simpl. apply IH; [intros k' Hk'; apply Hin; by right |].
      destruct (PyDict.get k lg) as [col|]; [|exact Hm].
      destruct Hm as ((c0 & rest & ->) & Hkeys). split.
      - simpl. destruct (String.eqb k default_tag) eqn:E; by eexists _, _.
      - intros key. rewrite mem_set. intros H.
        apply orb_true_iff in H as [H | H]; [|by apply Hkeys].
        apply String.eqb_eq in H. subst key. right. apply Hin. by left. }
    apply Hfold.
    + intros k Hin. rewrite mem_keys. apply existsb_exists.
      exists k. split; [done | apply String.eqb_refl].
    + split; [by eexists _, _ |].
      unfold PyDict.mem. simpl. intros key.
      destruct (String.eqb_spec key default_tag); [by left | done].
Qed.

Lemma marked_not_d type_ :
  String.eqb type_ "d" = false → marked path type_ = None.
Proof. unfold marked. intros ->. by destruct (spin path). Qed.

Lemma tags_of_walk type_ :
  walk_tags default_tag seg_dict init (map (pin_attr aid) (spath type_))
  = Ok (tags type_)
  ∧ length (tags type_) = length (spath type_).
Proof.
  unfold tags_of.
  destruct (walk_tags_total default_tag seg_dict init
              (map (pin_attr aid) (spath type_))) as (tgs & -> & Hlen).
  - apply init_tag_mem.
  - split; [done |]. by rewrite Hlen, length_map.
Qed.

(** The body of the loop over the path types, for a type of [bar_ptype]. *)
Lemma bar_type_step_spec type_ info :
  set_mem type_ bar_ptype = true →
  ∃ lg,
    lshape lg ∧
    tstep type_ info =
      Ok (mk_bar_info
            (bi_ce info ++ [drop (dfrom type_) (spath type_)])
            (bi_c info ++ [map tcol (drop (dfrom type_) (tags type_))])
            (bi_ha info ++ [mks "/" "" type_])
            (bi_ec info ++ [mks "b" "k" type_])
            (bi_lg info ++ [lg])
            (match marked path type_ with
             | Some _ => Some (length (bi_ha info))
             | None => bi_did info
             end)
            (match marked path type_ with
             | Some i => Some (i - dfrom type_)
             | None => bi_dsp info
             end)).
Proof.
  intros Hsel. unfold bar_type_step. rewrite Hsel.
  change (if String.eqb type_ "c" then cpath path else lpath path)
    with (spath type_).
  set (st0 := mk_lv init (init_bar_lg_path aid default_tag seg_dict) [] [] [] []
                    (bi_did info) (bi_dsp info)).
  assert (Hw : winv st0).
  { repeat split; simpl; [apply init_tag_mem | done | apply init_bar_lg_path_mem]. }
  assert (Hl : lok (bar_lg_path st0)) by apply init_legend_ok.
  destruct (tags_of_walk type_) as [Htags _].
  unfold marks, drawn_from.
  destruct (marked path type_) as [i|] eqn:Hm.
  - unfold marked in Hm. destruct (spin path) as [i'|] eqn:Hsp; [|done].
    destruct (String.eqb type_ "d") eqn:Hd; [|done].
    destruct (Nat.ltb_spec i' (length (spath type_))) as [Hlt|]; [|done].
    injection Hm as ->.
    destruct (bar_path_loop_marked type_ (length (bi_ha info)) i (spath type_)
                0 st0 Hw Hl Hsp Hd) as
      (st1 & tgs & Hloop & Hwalk & Hw1 & Hl1 & Hlen & Hce & Hc & Hha & Hec
       & Hdid & Hdsp); [lia |].
    simpl tag in Hwalk. rewrite Htags in Hwalk. injection Hwalk as <-.
    rewrite Hloop. cbn [mbind result_bind].
    exists (merged_legend aid default_tag seg_dict (bar_lg_path st1)).
    split; [by apply merged_legend_shape |].
    rewrite Hce, Hc, Hha, Hec, Hdid, Hdsp. rewrite !Nat.sub_0_r. simpl.
    destruct (set_mem "f" bar_ptype); simpl; by rewrite ?Nat.sub_0_r, ?Nat.sub_diag.
  - destruct (bar_path_loop_plain type_ (length (bi_ha info)) (spath type_)
                0 st0 Hw Hl) as
      (st1 & tgs & Hloop & Hwalk & Hw1 & Hl1 & Hlen & Hce & Hc & Hha & Hec
       & Hdid & Hdsp).
    { intros i Hsp Hd. right. unfold marked in Hm. rewrite Hsp, Hd in Hm.
      simpl in Hm. destruct (Nat.ltb_spec i (length (spath type_))); [done | lia]. }
    simpl tag in Hwalk. rewrite Htags in Hwalk. injection Hwalk as <-.
    rewrite Hloop. cbn [mbind result_bind].
    exists (merged_legend aid default_tag seg_dict (bar_lg_path st1)).
    split; [by apply merged_legend_shape |].
    by rewrite Hce, Hc, Hha, Hec, Hdid, Hdsp.
Qed.

(** The result of [get_time_bar_info], series by series. *)
Lemma get_time_bar_info_spec :
  ∃ info,
    get_time_bar_info aid default_tag seg_dict bar_ptype path = Ok info ∧
    bi_ce info = map (λ ty, drop (dfrom ty) (spath ty)) sel ∧
    bi_c info = map (λ ty, map tcol (drop (dfrom ty) (tags ty))) sel ∧
    bi_ha info = map (mks "/" "") sel ∧
    bi_ec info = map (mks "b" "k") sel ∧
    Forall2 (λ lg _, lshape lg) (bi_lg info) sel ∧
    (bi_did info, bi_dsp info) =
      match marked path "d" with
      | Some i =>
          if set_mem "d" bar_ptype
          then (Some (length sel - 1), Some (i - dfrom "d"))
          else (None, None)
      | None => (None, None)
      end.
Proof.
  assert (Hstep : ∀ type_ info,
    ∃ lg, lshape lg ∧
      tstep type_ info =
        Ok (if set_mem type_ bar_ptype
            then mk_bar_info
                   (bi_ce info ++ [drop (dfrom type_) (spath type_)])
                   (bi_c info ++ [map tcol (drop (dfrom type_) (tags type_))])
                   (bi_ha info ++ [mks "/" "" type_])
                   (bi_ec info ++ [mks "b" "k" type_])
                   (bi_lg info ++ [lg])
                   (match marked path type_ with
                    | Some _ => Some (length (bi_ha info))
                    | None => bi_did info
                    end)
                   (match marked path type_ with
                    | Some i => Some (i - dfrom type_)
                    | None => bi_dsp info
                    end)
            else info)).
  { intros type_ info. destruct (set_mem type_ bar_ptype) eqn:Hs.
    - by apply bar_type_step_spec.
    - exists (merged_legend aid default_tag seg_dict
                (init_bar_lg_path aid default_tag seg_dict)).
      split; [apply merged_legend_shape, init_legend_ok |].
      unfold bar_type_step. by rewrite Hs. }
  unfold get_time_bar_info.
  destruct (Hstep "l" (mk_bar_info [] [] [] [] [] None None)) as (lg1 & Hs1 & ->).
  cbn [mbind result_bind].
  match goal with |- context [tstep "c" ?i] =>
    destruct (Hstep "c" i) as (lg2 & Hs2 & ->) end.
  cbn [mbind result_bind].
  match goal with |- context [tstep "d" ?i] =>
    destruct (Hstep "d" i) as (lg3 & Hs3 & ->) end.
  eexists. split; [reflexivity |].
  rewrite (marked_not_d "l"), (marked_not_d "c") by done.
  unfold selected_types. simpl List.filter.
  destruct (set_mem "l" bar_ptype), (set_mem "c" bar_ptype),
    (set_mem "d" bar_ptype); simpl;
    repeat split; try done;
    try (by destruct (marked path "d"));
    repeat (constructor; try done).
Qed.

Lemma marked_lt type_ i :
  marked path type_ = Some i → (i < length (spath type_))%nat.
Proof.
  unfold marked. destruct (spin path) as [i'|]; [|done].
  destruct (String.eqb type_ "d"); [|done]. simpl.
  destruct (Nat.ltb_spec i' (length (spath type_))); [|done].
  by intros [= <-].
Qed.

Lemma drawn_from_le type_ :
  (dfrom type_ ≤ length (spath type_))%nat ∧
  ∀ i, marked path type_ = Some i → (dfrom type_ ≤ i)%nat.
Proof.
  unfold drawn_from. destruct (marked path type_) as [i|] eqn:Hm.
  - apply marked_lt in Hm. destruct (set_mem "f" bar_ptype).
    + split; [lia |]. intros i' _. lia.
    + split; [lia |]. by intros i' [= <-].
  - split; [lia | done].
Qed.

Lemma marks_length mark plain type_ :
  length (mks mark plain type_) = (length (spath type_) - dfrom type_)%nat.
Proof.
  unfold marks. destruct (drawn_from_le type_) as [_ Hle].
  destruct (marked path type_) as [i|] eqn:Hm.
  - pose proof (marked_lt _ _ Hm). specialize (Hle i eq_refl).
    rewrite length_app. simpl. rewrite !length_replicate. lia.
  - rewrite length_replicate. unfold drawn_from. rewrite Hm. lia.
Qed.

Lemma Forall2_fst {A B} (P : A → Prop) (l : list A) (l' : list B) :
  Forall2 (λ a _, P a) l l' → Forall P l ∧ length l = length l'.
Proof.
  induction 1 as [|a b l l' Ha _ [IH1 IH2]]; [by split |].
  split; [by constructor | simpl; by rewrite IH2].
Qed.

(** [get_time_bar_info] returns, for each path type of [bar_ptype] in the
    order launch, capture, data, one series of cells: the sub-path, or the
    sub-path from the startpoint clock pin when the data path is drawn
    without [f]. The colours, the hatch patterns and the edge colours of a
    series are as many as its cells, and there is one legend for each
    series. *)
Theorem time_bar_cells :
  ∃ info,
    get_time_bar_info aid default_tag seg_dict bar_ptype path = Ok info ∧
    bi_ce info = map (λ ty, drop (dfrom ty) (spath ty)) sel ∧
    map length (bi_c info) = map length (bi_ce info) ∧
    map length (bi_ha info) = map length (bi_ce info) ∧
    map length (bi_ec info) = map length (bi_ce info) ∧
    length (bi_lg info) = length (bi_ce info).
Proof.
  destruct get_time_bar_info_spec
    as (info & Hok & Hce & Hc & Hha & Hec & Hlg & _).
  exists info. split; [done |]. split; [done |].
  rewrite Hce, Hc, Hha, Hec, !map_map, length_map.
  repeat split.
  - apply map_ext. intros ty. destruct (tags_of_walk ty) as [_ Hlen].
    by rewrite length_map, !length_skipn, Hlen.
  - apply map_ext. intros ty. by rewrite marks_length, length_skipn.
  - apply map_ext. intros ty. by rewrite marks_length, length_skipn.
  - by apply Forall2_fst in Hlg as [_ ->].
Qed.

(** The colour of a bar depends on the tag of its cell alone: the colour
    of the tag in the palette, and the colour of [key_color] for a cell
    without tag. The tags are those of the walk from the first cell of
    the sub-path, also when the bars before the startpoint clock pin are
    not drawn. *)
Theorem time_bar_colors :
  ∃ info,
    get_time_bar_info aid default_tag seg_dict bar_ptype path = Ok info ∧
    bi_c info = map (λ ty, map tcol (drop (dfrom ty) (tags ty))) sel ∧
    (∀ ty, walk_tags default_tag seg_dict init (map (pin_attr aid) (spath ty))
           = Ok (tags ty)) ∧
    (∀ t, PyDict.mem t seg_dict = true →
          Some (tcol (Some t)) = PyDict.get t (bar_palette seg_dict)).
Proof.
  destruct get_time_bar_info_spec as (info & Hok & _ & Hc & _).
  exists info. split; [done |]. split; [done |]. split.
  - intros ty. apply tags_of_walk.
  - intros t Ht. unfold tag_color, key_color. simpl.
    destruct (mem_get _ _ (bar_palette_mem _ _ Ht)) as [col Hcol].
    rewrite Hcol. simpl.
    destruct init eqn:Hi; [done |].
    destruct (String.eqb_spec t default_tag) as [-> |]; [|done].
    revert Hi. unfold init_tag. rewrite Ht.
    destruct seg_dict; [done |]. done.
Qed.

(** When the data path is drawn and the startpoint clock pin is the cell
    [i] of the launch path, [did] and [dsp] locate that cell in the
    result: it is the bar [dsp] of the series [did], its hatch pattern is
    ["/"] and its edge colour ["b"]. The bar is the first one of its
    series unless [f] is a path type. *)
Theorem time_bar_startpoint (i : nat) (p : Pin) :
  set_mem "d" bar_ptype = true →
  spin path = Some i →
  lpath path !! i = Some p →
  ∃ info k j,
    get_time_bar_info aid default_tag seg_dict bar_ptype path = Ok info ∧
    bi_did info = Some k ∧ bi_dsp info = Some j ∧
    j = (if set_mem "f" bar_ptype then i else 0) ∧
    bi_ce info !! k ≫= (.!! j) = Some p ∧
    bi_ha info !! k ≫= (.!! j) = Some "/" ∧
    bi_ec info !! k ≫= (.!! j) = Some "b".
Proof.
  intros Hd Hsp Hp.
  destruct get_time_bar_info_spec
    as (info & Hok & Hce & _ & Hha & Hec & _ & Hds).
  assert (Hlt : (i < length (lpath path))%nat) by by eapply lookup_lt_Some.
  assert (Hm : marked path "d" = Some i).
  { unfold marked. rewrite Hsp. simpl.
    change (sub_path path "d") with (lpath path).
    by destruct (Nat.ltb_spec i (length (lpath path))); [|lia]. }
  assert (Hfrom : dfrom "d" = if set_mem "f" bar_ptype then 0 else i).
  { unfold drawn_from. by rewrite Hm. }
  rewrite Hm, Hd in Hds. injection Hds as Hdid Hdsp.
  assert (Hj : (i - dfrom "d")%nat = if set_mem "f" bar_ptype then i else 0).
  { rewrite Hfrom. destruct (set_mem "f" bar_ptype); lia. }
  assert (Hlast : ∀ {A} (f : string → A),
            map f sel !! (length sel - 1)%nat = Some (f "d")).
  { intros A f. unfold selected_types. simpl. rewrite Hd.
    by destruct (set_mem "l" bar_ptype), (set_mem "c" bar_ptype). }
  exists info, (length sel - 1)%nat, (i - dfrom "d")%nat.
  split; [done |]. split; [done |]. split; [done |]. split; [done |].
  rewrite Hce, Hha, Hec, !Hlast. simpl.
  assert (Hle : (dfrom "d" ≤ i)%nat) by (rewrite Hfrom; destruct (set_mem "f" _); lia).
  split; [|split].
  - rewrite lookup_drop. change (sub_path path "d") with (lpath path).
    by replace (dfrom "d" + (i - dfrom "d"))%nat with i by lia.
  - unfold marks. rewrite Hm.
    rewrite lookup_app_r by (by rewrite length_replicate).
    by rewrite length_replicate, Nat.sub_diag.
  - unfold marks. rewrite Hm.
    rewrite lookup_app_r by (by rewrite length_replicate).
    by rewrite length_replicate, Nat.sub_diag.
Qed.

(** Without the data path, or when the launch path does not reach the
    startpoint clock pin, [did] and [dsp] stay unset, every series is a
    whole sub-path, and no bar is hatched or edged in ["b"]. *)
Theorem time_bar_without_startpoint :
  set_mem "d" bar_ptype = false ∨ marked path "d" = None →
  ∃ info,
    get_time_bar_info aid default_tag seg_dict bar_ptype path = Ok info ∧
    bi_did info = None ∧ bi_dsp info = None ∧
    bi_ce info = map spath sel ∧
    bi_ha info = map (λ ty, replicate (length (spath ty)) "") sel ∧
    bi_ec info = map (λ ty, replicate (length (spath ty)) "k") sel.
Proof.
  intros Hno.
  destruct get_time_bar_info_spec
    as (info & Hok & Hce & _ & Hha & Hec & _ & Hds).
  assert (Hsel : ∀ ty, In ty sel → marked path ty = None).
  { intros ty. unfold selected_types. rewrite filter_In. intros [Hin Hty].
    simpl in Hin. destruct Hin as [<- | [<- | [<- | []]]];
      [by apply marked_not_d | by apply marked_not_d |].
    destruct Hno as [Hno | Hno]; [congruence | done]. }
  exists info. split; [done |].
  assert (Hdd : (bi_did info, bi_dsp info) = (None, None)).
  { rewrite Hds. destruct (marked path "d"); [|done].
    destruct Hno as [-> | ?]; done. }
  injection Hdd as -> ->. split; [done |]. split; [done |].
  rewrite Hce, Hha, Hec. repeat split; apply map_ext_in; intros ty Hty;
    unfold marks, drawn_from; by rewrite (Hsel ty Hty).
Qed.

(** Every legend starts with the default tag, whether a cell is drawn
    under it or not, and holds besides it only keys of the table. *)
Theorem time_bar_legends :
  ∃ info,
    get_time_bar_info aid default_tag seg_dict bar_ptype path = Ok info ∧
    length (bi_lg info) = length sel ∧
    Forall lshape (bi_lg info).
Proof.
  destruct get_time_bar_info_spec as (info & Hok & _ & _ & _ & _ & Hlg & _).
  exists info. apply Forall2_fst in Hlg as [H1 H2]. by repeat split.
Qed.

End TimeBarFacts.

Section PaletteFacts.
Context `{RE : ReEngine}.

Local Notation "'paint'" :=
  (λ (acc : PyDict.t string) (ik : nat * string),
     PyDict.set ik.2 (nth (ik.1 mod length Palette.bar) Palette.bar "") acc).

Lemma paint_other (l : list (nat * string)) (acc : PyDict.t string) k :
  ¬ In k (map snd l) → PyDict.get k (fold_left paint l acc) = PyDict.get k acc.
Proof.
  revert acc. induction l as [|[j k'] l IH]; intros acc Hk; [done |].
  simpl in *. rewrite IH by tauto. apply get_set_ne. tauto.
Qed.

Lemma paint_index (l : list (nat * string)) (acc : PyDict.t string) j k :
  NoDup (map snd l) → In (j, k) l →
  PyDict.get k (fold_left paint l acc)
  = Some (nth (j mod length Palette.bar) Palette.bar "").
Proof.
  revert acc. induction l as [|[j' k'] l IH]; intros acc Hnd Hin; [done |].
  simpl in Hnd. apply NoDup_cons in Hnd as [Hk' Hnd].
  destruct Hin as [[= -> ->] | Hin]; simpl.
  - rewrite paint_other by (by rewrite <- list_elem_of_In).
    apply get_set_eq.
  - by apply IH.
Qed.

Lemma imap_pair_from (l : list string) n :
  map snd (imap (λ i x, ((n + i)%nat, x)) l) = l
  ∧ ∀ i k, l !! i = Some k → In ((n + i)%nat, k) (imap (λ i x, ((n + i)%nat, x)) l).
Proof.
  revert n. induction l as [|x l IH]; intros n; [done |].
  assert (E : imap (λ i y, ((n + i)%nat, y)) (x :: l)
              = ((n + 0)%nat, x) :: imap (λ i y, ((S n + i)%nat, y)) l).
  { simpl. f_equal. apply imap_ext. intros i y _. simpl. f_equal. lia. }
  rewrite E. destruct (IH (S n)) as [IH1 IH2]. split.
  - rewrite map_cons. f_equal. exact IH1.
  - intros [|i] k Hl.
    + injection Hl as ->. by left.
    + right. replace (n + S i)%nat with (S n + i)%nat by lia. by apply IH2.
Qed.

(** The key at position [i] of the table is painted with the colour
    [i mod 26] of the palette: from the twenty-seventh key on, the colours
    are used again. *)
Theorem palette_wraps_around (seg_dict : PyDict.t regex) (i : nat) (k : string) :
  NoDup (PyDict.keys seg_dict) →
  PyDict.keys seg_dict !! i = Some k →
  PyDict.get k (bar_palette seg_dict) = Some (nth (i mod 26) Palette.bar "").
Proof.
  intros Hnd Hk. unfold bar_palette.
  assert (Hlen : (PyDict.len seg_dict =? 0)%nat = false).
  { destruct seg_dict; [done | done]. }
  rewrite Hlen.
  destruct (imap_pair_from (PyDict.keys seg_dict) 0) as [H1 H2].
  change (imap pair (PyDict.keys seg_dict))
    with (imap (λ i x, ((0 + i)%nat, x)) (PyDict.keys seg_dict)).
  change 26 with (length Palette.bar).
  apply paint_index; [by rewrite H1 |]. by apply (H2 i k).
Qed.

End PaletteFacts.

Lemma time_bar_startpoint_witness :
  ∃ info k j,
    get_time_bar_info (RE := MiniRe.engine) AidName "A" seg_AB
      (select_bar_ptype (PS := ListSet.impl) (Some ["l"; "d"])) path_unknown_drv
      = Ok info ∧
    bi_did info = Some k ∧ bi_dsp info = Some j ∧
    j = (if set_mem "f" (select_bar_ptype (PS := ListSet.impl) (Some ["l"; "d"]))
         then 0 else 0) ∧
    bi_ce info !! k ≫= (.!! j)
      = Some (mk_pin (DL := MiniDecimal.lib) "u1/Y" "BUFX2" (MiniDecimal.mk 2 0) 11) ∧
    bi_ha info !! k ≫= (.!! j) = Some "/" ∧
    bi_ec info !! k ≫= (.!! j) = Some "b".
Proof.
  apply (time_bar_startpoint (RE := MiniRe.engine) AidName "A" seg_AB
           (select_bar_ptype (PS := ListSet.impl) (Some ["l"; "d"]))
           path_unknown_drv 0 (mk_pin (DL := MiniDecimal.lib) "u1/Y" "BUFX2" (MiniDecimal.mk 2 0) 11));
    reflexivity.
Defined.

Lemma time_bar_without_startpoint_witness :
  ∃ info,
    get_time_bar_info (RE := MiniRe.engine) AidName "A" seg_AB
      (select_bar_ptype (PS := ListSet.impl) None) path_abc = Ok info ∧
    bi_did info = None ∧ bi_dsp info = None ∧
    bi_ce info = map (sub_path path_abc)
                   (selected_types (select_bar_ptype (PS := ListSet.impl) None)) ∧
    bi_ha info = map (λ ty, replicate (length (sub_path path_abc ty)) "")
                   (selected_types (select_bar_ptype (PS := ListSet.impl) None)) ∧
    bi_ec info = map (λ ty, replicate (length (sub_path path_abc ty)) "k")
                   (selected_types (select_bar_ptype (PS := ListSet.impl) None)).
Proof.
  apply (time_bar_without_startpoint (RE := MiniRe.engine) AidName "A" seg_AB
           (select_bar_ptype (PS := ListSet.impl) None) path_abc).
  right. reflexivity.
Defined.

Lemma palette_wraps_around_witness :
  PyDict.get "B" (bar_palette seg_AB) = Some (nth (1 mod 26) Palette.bar "").
Proof.
  apply (palette_wraps_around (RE := MiniRe.engine) seg_AB 1 "B");
    [apply (bool_decide_unpack _); vm_compute; reflexivity | reflexivity].
Defined.

(** * The default group of a compiled configuration *)

Section PathGroupFacts.
Context `{RE : ReEngine} `{DL : DecimalLib} `{PS : PySet} `{PN : PyNumber}.

Lemma walk_tags_tagged default_tag seg attrs : ∀ tg tgs,
  (∀ t, tg = Some t → PyDict.mem t seg = true) →
  (tg = None → init_tag default_tag seg = None) →
  walk_tags default_tag seg tg attrs = Ok tgs →
  ∀ tg', In tg' tgs →
    (∀ t, tg' = Some t → PyDict.mem t seg = true) ∧
    (tg' = None → init_tag default_tag seg = None).
Proof.
  induction attrs as [|s attrs IH]; intros tg tgs Hk Hn; simpl.
  - by intros [= <-].
  - destruct (next_tag_total default_tag seg tg s Hk) as (tg1 & Hnext & Hk1).
    rewrite Hnext. simpl.
    assert (Hn1 : tg1 = None → init_tag default_tag seg = None).
    { intros ->. by eapply next_tag_none. }
    destruct (walk_tags default_tag seg tg1 attrs) as [tgs1|] eqn:Hw; simpl; [|done].
    intros [= <-] tg' [<- | Hin]; [by split |].
    by eapply (IH tg1 tgs1).
Qed.

(** With a default group in the rules file, every cell of a sub-path is
    drawn under a group of [pc]: the configuration that [load_times_cfg]
    returns keeps [dpc] only when it is a tag of [pc], the walk of
    [ce_info] then starts under it, and comes back to it when no pattern
    matches. The series are those of [get_time_bar_info]. *)
Theorem default_group_tags_every_cell (cfg_fp : option (list string))
    (c : cons_cfg) (out : list string) (t : string)
    (bar_ptype : pyset) (path : TimePath) (ty : string) (tg : option string) :
  load_times_cfg cfg_fp = Ok (c, out) →
  dpc c = Some t →
  In tg (tags_of AidName (default_tag_of c) (pc c) path ty) →
  init_tag (default_tag_of c) (pc c) = Some t ∧
  (∃ k, tg = Some k ∧ PyDict.mem k (pc c) = true) ∧
  ∃ info, ce_info c bar_ptype path = Ok info ∧
          bi_c info = map (λ ty, map (tag_color AidName t (pc c))
                                     (drop (drawn_from bar_ptype path ty)
                                           (tags_of AidName t (pc c) path ty)))
                          (selected_types bar_ptype).
Proof.
  intros Hload Hd Hin.
  assert (Hmem : PyDict.mem t (pc c) = true).
  { revert Hload Hd. unfold load_times_cfg. destruct cfg_fp as [fp|].
    - destruct (load_lines 1 fp default_cfg) as [c0|]; simpl; [|done].
      unfold check_dpc. destruct (dpc c0) as [t0|] eqn:Hd0.
      + destruct (PyDict.mem t0 (pc c0)) eqn:Hm; simpl; intros [= <- <-]; [|done].
        rewrite Hd0. by intros [= <-].
      + intros [= <- <-]. by rewrite Hd0.
    - by intros [= <- <-]. }
  assert (Hdt : default_tag_of c = t) by (unfold default_tag_of; by rewrite Hd).
  assert (Hinit : init_tag t (pc c) = Some t).
  { unfold init_tag. rewrite Hmem. by destruct (pc c). }
  rewrite Hdt in *. split; [done |]. split.
  - destruct (tags_of_walk AidName t (pc c) path ty) as [Hw _].
    destruct (walk_tags_tagged t (pc c) _ _ _ (init_tag_mem t (pc c))
                ltac:(by rewrite Hinit) Hw tg Hin) as [Hk Hn].
    destruct tg as [k|]; [exists k; split; [done | by apply Hk] |].
    rewrite Hinit in Hn. by specialize (Hn eq_refl).
  - unfold ce_info. rewrite Hdt.
    destruct (get_time_bar_info_spec AidName t (pc c) bar_ptype path)
      as (info & Hok & _ & Hc & _). by exists info.
Qed.

End PathGroupFacts.

Lemma default_group_witness :
  init_tag (default_tag_of (with_pc [("A", re_a_any)] (with_dpc (Some "A") default_cfg)))
           (pc (with_pc [("A", re_a_any)] (with_dpc (Some "A") default_cfg)))
    = Some "A" ∧
  (∃ k, Some "A" = Some k ∧
        PyDict.mem k (pc (with_pc [("A", re_a_any)] (with_dpc (Some "A") default_cfg)))
        = true) ∧
  ∃ info,
    ce_info (with_pc [("A", re_a_any)] (with_dpc (Some "A") default_cfg))
            (select_bar_ptype (PS := ListSet.impl) None) path_abc = Ok info ∧
    bi_c info =
      map (λ ty, map (tag_color AidName "A"
                        (pc (with_pc [("A", re_a_any)]
                                     (with_dpc (Some "A") default_cfg))))
                     (drop (drawn_from (select_bar_ptype (PS := ListSet.impl) None)
                                       path_abc ty)
                           (tags_of AidName "A"
                              (pc (with_pc [("A", re_a_any)]
                                           (with_dpc (Some "A") default_cfg)))
                              path_abc ty)))
          (selected_types (select_bar_ptype (PS := ListSet.impl) None)).
Proof.
  apply (default_group_tags_every_cell (RE := MiniRe.engine) (PS := ListSet.impl)
           (Some ["pc: A a.*"; "dpc: A"]) _ [] "A"
           (select_bar_ptype (PS := ListSet.impl) None) path_abc "l" (Some "A")).
  - reflexivity.
  - reflexivity.
  - vm_compute. right. right. left. reflexivity.
Defined.
